(** * CavityTemplate: the grid editor of [src/CavityTemplate.tsx]

    A shallow embedding of the grid state model and of the handlers of the
    [Tableview] component, followed by the properties of the specification
    that were checked against it.

    Conventions of the embedding.
    - JavaScript numbers that hold row/column indices are integers ([Z]).
      The other numbers are of type [jsnum]: an integer, NaN or an
      infinity.  The two dimension counters are integers far below 2^53,
      and their successor and the reading of an index from an id are taken
      in [Z].  The values of the autofill come from what is typed into the
      cells and have no such bound: [parseInt], the sum and [String] are
      those of IEEE doubles on them ([toDouble], [js_add], [js_String]),
      which are exact below 2^53 in magnitude.
    - A string is the UTF-8 encoding of the JavaScript string.
    - A cell id is the string [cell_<row>_<col>]; the component only ever
      builds ids from two integers and takes them apart again with
      [parseInt], so an id is represented by the pair it encodes
      ([CellId]).  A JavaScript [Set] of ids is a duplicate-free list in
      insertion order.
    - [Record<string, MergeSpanInfo>] is a [gmap string MergeSpanInfo]: the
      properties that were put into the object.  The names that a plain
      object inherits are listed in [prototypeKeys].
    - React state is one record [State]; every handler is a function from
      the state (and the event) to the next state and the alert it raised,
      if any.  The effect that keeps [mergeSpans] equal to
      [computeMergeSpans tableRows] runs before the next event is handled,
      so the embedding updates both together ([setTableRows]).
    - The host's attribute binding (save, statistics attributes, change
      notification) is an external collaborator; the statistics handed to
      it are the result of [updateCellStatistics]. *)

From stdpp Require Import gmap strings list pretty.
From Stdlib Require Import ZArith Lia Ascii.

Local Open Scope Z_scope.

(** ** JavaScript numbers and strings *)

(** A Number that holds an integer, or NaN, or one of the infinities. *)
Inductive jsnum : Type :=
| NaN
| Num (z : Z)
| Infinity (negative : bool).

Global Instance jsnum_eq_dec : EqDecision jsnum.
Proof. solve_decision. Defined.

(** The multiple of [ulp] nearest to [a]; of two nearest ones, the even
    multiple. *)
Definition roundToEven (a ulp : Z) : Z :=
  let q := a / ulp in
  let r := a mod ulp in
  if 2 * r <? ulp then q * ulp
  else if ulp <? 2 * r then (q + 1) * ulp
  else if Z.even q then q * ulp
  else (q + 1) * ulp.

(** The Number that an integer becomes: the nearest double (53 bits of
    mantissa, ties to the even mantissa).  Every integer below 2^53 in
    magnitude is a double; from 2^1024 - 2^970 on the result is an
    infinity. *)
Definition toDouble (z : Z) : jsnum :=
  let a := Z.abs z in
  if a <? 2 ^ 53 then Num z
  else
    let r := roundToEven a (2 ^ (Z.log2 a - 52)) in
    if 2 ^ 1024 <=? r then Infinity (z <? 0) else Num (Z.sgn z * r).

(** [a + b] on Numbers: the sum of two doubles is the double nearest to
    their exact sum. *)
Definition js_add (a b : jsnum) : jsnum :=
  match a, b with
  | Num x, Num y => toDouble (x + y)
  | Infinity s, Num _ | Num _, Infinity s => Infinity s
  | Infinity s, Infinity t => if bool_decide (s = t) then Infinity s else NaN
  | _, _ => NaN
  end.

(** [n + 1] on a dimension counter.  The counters are integers that the
    component keeps far below 2^53, where the sum is exact; it is taken in
    [Z]. *)
Definition js_succ (n : jsnum) : jsnum :=
  match n with
  | Num x => Num (x + 1)
  | _ => n
  end.

(** [a > b] and [a <= b]: every comparison with NaN is false. *)
Definition js_gt (a b : jsnum) : bool :=
  match a, b with
  | Num x, Num y => y <? x
  | Infinity s, Num _ => negb s
  | Num _, Infinity t => t
  | Infinity s, Infinity t => negb s && t
  | _, _ => false
  end.

Definition js_le (a b : jsnum) : bool :=
  match a, b with
  | Num x, Num y => x <=? y
  | Infinity s, Num _ => s
  | Num _, Infinity t => negb t
  | Infinity s, Infinity t => s || negb t
  | _, _ => false
  end.

Definition js_isNaN (a : jsnum) : bool :=
  match a with NaN => true | _ => false end.

(** Among the multiples of [10 ^ j], [j] counted down from the given one,
    the first that [toDouble] takes to the double [z]: the decimal with
    the fewest significant digits that denotes [z].  Of two such multiples
    the nearer to [z] is taken, and at equal distance the even one. *)
Fixpoint shortestDecimal (z : Z) (j : nat) : Z :=
  match j with
  | O => z
  | S j' =>
      let p := 10 ^ Z.of_nat j in
      let lo := z / p * p in
      let hi := lo + p in
      let okLo := bool_decide (toDouble lo = Num z) in
      let okHi := bool_decide (toDouble hi = Num z) in
      if okLo && okHi then
        if z - lo <? hi - z then lo
        else if hi - z <? z - lo then hi
        else if Z.even (lo / p) then lo else hi
      else if okLo then lo
      else if okHi then hi
      else shortestDecimal z j'
  end.

Fixpoint dropEnd (c : ascii) (s : string) : string :=
  match s with
  | String a s' =>
      let r := dropEnd c s' in
      if bool_decide (a = c) && bool_decide (r = "") then "" else String a r
  | EmptyString => s
  end.

(** [String(z)] for a double [z] of at least 2^53: the digits of the
    shortest decimal, written out while there are at most 21 of them and
    with an exponent beyond. *)
Definition largeString (z : Z) : string :=
  let digits := pretty (shortestDecimal z (String.length (pretty z))) in
  let n := String.length digits in
  if (n <=? 21)%nat then digits
  else
    match dropEnd "0"%char digits with
    | String d EmptyString => String d ("e+" +:+ pretty (Z.of_nat n - 1))
    | String d ds => String d ("." +:+ ds +:+ "e+" +:+ pretty (Z.of_nat n - 1))
    | EmptyString => digits
    end.

(** [String(n)] and the interpolation of a number in a template literal. *)
Definition js_String (a : jsnum) : string :=
  match a with
  | NaN => "NaN"
  | Infinity negative => if negative then "-Infinity" else "Infinity"
  | Num z =>
      if Z.abs z <? 2 ^ 53 then pretty z
      else if z <? 0 then "-" +:+ largeString (- z)
      else largeString z
  end.

(** Truthiness of a string: only the empty string is falsy. *)
Definition truthy (s : string) : bool := negb (bool_decide (s = "")).

(** [Math.min(...l)] and [Math.max(...l)] on a non-empty list. *)
Definition Math_min (l : list Z) : Z :=
  match l with
  | [] => 0
  | x :: l' => foldl Z.min x l'
  end.

Definition Math_max (l : list Z) : Z :=
  match l with
  | [] => 0
  | x :: l' => foldl Z.max x l'
  end.

(** ** Data model *)

Record CellId : Type := mkId { id_row : Z; id_col : Z }.

Global Instance CellId_eq_dec : EqDecision CellId.
Proof. solve_decision. Defined.

(** [`cell_${r}_${c}`] *)
Definition cellId (r c : Z) : CellId := mkId r c.

Record CellObject : Type := mkCell {
  id : CellId;
  sequenceNumber : string;
  isBlocked : bool;
  isMerged : bool;
  mergeId : string;
  isBlank : bool;
  rowIndex : Z;
  columnIndex : Z
}.

Global Instance CellObject_eq_dec : EqDecision CellObject.
Proof. solve_decision. Defined.

(** The [id] of a row ([`row_${rowIndex}`]) is a rendering key that no
    handler reads; it is determined by [row_rowIndex]. *)
Record TableRow : Type := mkRow {
  row_rowIndex : Z;
  cells : list CellObject
}.

Global Instance TableRow_eq_dec : EqDecision TableRow.
Proof. solve_decision. Defined.

Record MergeSpanInfo : Type := mkSpan {
  rowSpan : Z;
  colSpan : Z;
  anchorRow : Z;
  anchorCol : Z
}.

Global Instance MergeSpanInfo_eq_dec : EqDecision MergeSpanInfo.
Proof. solve_decision. Defined.

Inductive Direction : Type := horizontal | vertical.

Global Instance Direction_eq_dec : EqDecision Direction.
Proof. solve_decision. Defined.

Record AutofillDragState : Type := mkDrag {
  active : bool;
  sourceRow : Z;
  sourceCol : Z;
  sourceValue : jsnum;
  direction : option Direction;
  currentRow : Z;
  currentCol : Z
}.

(** All cells of the grid, row by row. *)
Definition allCells (rows : list TableRow) : list CellObject :=
  rows ≫= cells.

(** [rows.find(row => row.rowIndex === r)?.cells.find(cell => cell.columnIndex === c)] *)
Definition findCell (rows : list TableRow) (r c : Z) : option CellObject :=
  row ← List.find (λ row, row_rowIndex row =? r) rows;
  List.find (λ cell, columnIndex cell =? c) (cells row).

(** ** Merge-span index *)

(** The objects of [computeMergeSpans] are plain objects: a name of
    [prototypeKeys] is found in them although nothing was put there, with
    the value inherited from [Object.prototype].  For a merged cell whose
    [mergeId] is such a name the inherited value is taken for the list of
    the group, and its missing [push] raises a TypeError
    ([raisesTypeError]).  [computeMergeSpans] is the result of the calls
    that return.  The lookup of an inherited name in a span index finds the
    inherited value, which [isCellHidden] and [getCellSpan] take for a span
    without anchor. *)
Definition prototypeKeys : list string :=
  ["constructor"; "__defineGetter__"; "__defineSetter__"; "hasOwnProperty";
   "__lookupGetter__"; "__lookupSetter__"; "isPrototypeOf";
   "propertyIsEnumerable"; "toString"; "valueOf"; "__proto__"; "toLocaleString"].

Definition inherited (k : string) : bool := bool_decide (k ∈ prototypeKeys).

Definition raisesTypeError (rows : list TableRow) : bool :=
  existsb (λ cell, isMerged cell && truthy (mergeId cell) && inherited (mergeId cell))
          (allCells rows).

Definition groupPositions (rows : list TableRow) : gmap string (list (Z * Z)) :=
  foldl (λ grouped cell,
           if negb (isMerged cell) || negb (truthy (mergeId cell)) then grouped
           else <[mergeId cell :=
                    default [] (grouped !! mergeId cell)
                      ++ [(rowIndex cell, columnIndex cell)]]> grouped)
        ∅ (allCells rows).

Definition spanOfPositions (positions : list (Z * Z)) : MergeSpanInfo :=
  let rows2 := map fst positions in
  let cols := map snd positions in
  let minRow := Math_min rows2 in
  let maxRow := Math_max rows2 in
  let minCol := Math_min cols in
  let maxCol := Math_max cols in
  {| rowSpan := maxRow - minRow + 1;
     colSpan := maxCol - minCol + 1;
     anchorRow := minRow;
     anchorCol := minCol |}.

Definition computeMergeSpans (rows : list TableRow) : gmap string MergeSpanInfo :=
  spanOfPositions <$> groupPositions rows.

(** For a name that is not in [mergeSpans] but inherited, [span] is the
    inherited value: it is truthy and has no anchor. *)
Definition isCellHidden (cell : CellObject) (mergeSpans : gmap string MergeSpanInfo) : bool :=
  if negb (isMerged cell) || negb (truthy (mergeId cell)) then false
  else match mergeSpans !! mergeId cell with
       | None => inherited (mergeId cell)
       | Some span =>
           negb ((rowIndex cell =? anchorRow span) && (columnIndex cell =? anchorCol span))
       end.

(** The span of size one is the answer for an inherited name as well. *)
Definition getCellSpan (cell : CellObject) (mergeSpans : gmap string MergeSpanInfo) : Z * Z :=
  if negb (isMerged cell) || negb (truthy (mergeId cell)) then (1, 1)
  else match mergeSpans !! mergeId cell with
       | None => (1, 1)
       | Some span =>
           if (rowIndex cell =? anchorRow span) && (columnIndex cell =? anchorCol span)
           then (rowSpan span, colSpan span)
           else (1, 1)
       end.

(** ** Integer strings *)

(** A string of the embedding is the UTF-8 encoding of the JavaScript
    string.  The white space that [trim] removes and [parseInt] skips is
    WhiteSpace and LineTerminator of ECMAScript: U+0009 to U+000D and
    U+0020 in one byte, U+00A0 in two bytes, and in three bytes U+1680,
    U+2000 to U+200A, U+2028, U+2029, U+202F, U+205F, U+3000 and U+FEFF. *)
Definition isWhiteSpace (c : ascii) : bool :=
  let n := nat_of_ascii c in
  ((9 <=? n) && (n <=? 13))%nat || (n =? 32)%nat.

Definition isWhiteSpace2 (a b : ascii) : bool :=
  ((nat_of_ascii a =? 194) && (nat_of_ascii b =? 160))%nat.

Definition isWhiteSpace3 (a b c : ascii) : bool :=
  let x := nat_of_ascii a in
  let y := nat_of_ascii b in
  let z := nat_of_ascii c in
  ((x =? 225) && (y =? 154) && (z =? 128)
   || (x =? 226) && (y =? 128)
      && ((128 <=? z) && (z <=? 138) || (z =? 168) || (z =? 169) || (z =? 175))
   || (x =? 226) && (y =? 129) && (z =? 159)
   || (x =? 227) && (y =? 128) && (z =? 128)
   || (x =? 239) && (y =? 187) && (z =? 191))%nat.

Definition digitValue (c : ascii) : option Z :=
  let n := nat_of_ascii c in
  if ((48 <=? n) && (n <=? 57))%nat then Some (Z.of_nat n - 48) else None.

Fixpoint trimStart (s : string) : string :=
  match s with
  | String a s1 =>
      if isWhiteSpace a then trimStart s1
      else
        match s1 with
        | String b s2 =>
            if isWhiteSpace2 a b then trimStart s2
            else
              match s2 with
              | String c s3 => if isWhiteSpace3 a b c then trimStart s3 else s
              | EmptyString => s
              end
        | EmptyString => s
        end
  | EmptyString => s
  end.

(** Removal of the white space at the end: the string is cut where what
    is left of it is white space only. *)
Fixpoint trimEnd (s : string) : string :=
  match s with
  | String c s' =>
      if bool_decide (trimStart s = "") then "" else String c (trimEnd s')
  | EmptyString => s
  end.

Definition trim (s : string) : string := trimEnd (trimStart s).

(** [\d+$]: one or more digits up to the end of the string. *)
Fixpoint allDigits (s : string) : bool :=
  match s with
  | EmptyString => false
  | String c EmptyString => bool_decide (is_Some (digitValue c))
  | String c s' => bool_decide (is_Some (digitValue c)) && allDigits s'
  end.

(** [/^-?\d+$/.test(s)] *)
Definition matchesInteger (s : string) : bool :=
  match s with
  | String c s' => if bool_decide (c = "-"%char) then allDigits s' else allDigits s
  | EmptyString => false
  end.

Definition isInteger (val : string) : bool :=
  let trimmed := trim val in
  negb (bool_decide (trimmed = "")) && negb (bool_decide (trimmed = "-"))
  && matchesInteger trimmed.

(** The longest prefix of decimal digits, read as a number; [None] when
    the string does not start with a digit. *)
Fixpoint parseDigits (s : string) (acc : option Z) : option Z :=
  match s with
  | String c s' =>
      match digitValue c with
      | Some d => parseDigits s' (Some (10 * default 0 acc + d))
      | None => acc
      end
  | EmptyString => acc
  end.

(** The integer that [parseInt(s, 10)] reads before it is made a Number:
    white space, an optional sign, then digits; NaN when no digit
    follows. *)
Definition mathInt (s : string) : jsnum :=
  let s1 := trimStart s in
  let '(sign, s2) :=
    match s1 with
    | String c r =>
        if bool_decide (c = "-"%char) then (-1, r)
        else if bool_decide (c = "+"%char) then (1, r)
        else (1, s1)
    | EmptyString => (1, s1)
    end in
  match parseDigits s2 None with
  | Some n => Num (sign * n)
  | None => NaN
  end.

(** [parseInt(s, 10)] *)
Definition parseInt (s : string) : jsnum :=
  match mathInt s with
  | Num z => toDouble z
  | other => other
  end.

(** ** Autofill run *)

Definition isFillable (cell : CellObject) (mergeSpans : gmap string MergeSpanInfo) : bool :=
  if isBlank cell then false
  else if isCellHidden cell mergeSpans then false
  else true.

Record FillCell : Type := mkFill { fill_row : Z; fill_col : Z; fill_value : jsnum }.

Global Instance FillCell_eq_dec : EqDecision FillCell.
Proof. solve_decision. Defined.

(** One of the four [for] loops of [getAutofillCells]: [n] is the number
    of values the loop variable takes, [at_ i] the coordinates of the cell
    visited at loop value [i], [step] is [+1] or [-1], and [counter] the
    running counter. *)
Fixpoint fillLoop (getCell : Z → Z → option CellObject)
    (mergeSpans : gmap string MergeSpanInfo) (startVal : jsnum)
    (at_ : Z → Z * Z) (i step counter : Z) (n : nat) : list FillCell :=
  match n with
  | O => []
  | S n' =>
      let '(r, c) := at_ i in
      match getCell r c with
      | None => []
      | Some cell =>
          if negb (isFillable cell mergeSpans) then []
          else mkFill r c (js_add startVal (Num counter))
               :: fillLoop getCell mergeSpans startVal at_ (i + step) step (counter + 1) n'
      end
  end.

Definition getAutofillCells (tableRows : list TableRow)
    (mergeSpans : gmap string MergeSpanInfo)
    (sourceRow sourceCol targetRow targetCol : Z)
    (direction : option Direction) : list FillCell :=
  match direction with
  | None => []
  | Some direction =>
      let getCell := findCell tableRows in
      match getCell sourceRow sourceCol with
      | None => []
      | Some sourceCell =>
          if negb (isInteger (sequenceNumber sourceCell)) then []
          else
            let startVal := parseInt (sequenceNumber sourceCell) in
            match direction with
            | horizontal =>
                let minCol := Z.min sourceCol targetCol in
                let maxCol := Z.max sourceCol targetCol in
                let goRight := sourceCol <? targetCol in
                if goRight then
                  fillLoop getCell mergeSpans startVal (λ c, (sourceRow, c))
                    (sourceCol + 1) 1 1 (Z.to_nat (maxCol - sourceCol))
                else
                  fillLoop getCell mergeSpans startVal (λ c, (sourceRow, c))
                    (sourceCol - 1) (-1) 1 (Z.to_nat (sourceCol - minCol))
            | vertical =>
                let minRow := Z.min sourceRow targetRow in
                let maxRow := Z.max sourceRow targetRow in
                let goDown := sourceRow <? targetRow in
                if goDown then
                  fillLoop getCell mergeSpans startVal (λ r, (r, sourceCol))
                    (sourceRow + 1) 1 1 (Z.to_nat (maxRow - sourceRow))
                else
                  fillLoop getCell mergeSpans startVal (λ r, (r, sourceCol))
                    (sourceRow - 1) (-1) 1 (Z.to_nat (sourceRow - minRow))
            end
      end
  end.

(** ** Component state *)

(** The messages the component shows with [alert]. *)
Inductive Alert : Type :=
| PleaseEnterValidNumbers
| MustBePositiveNumbers
| Maximum100RowsAnd100Columns
| Maximum100Rows
| Maximum100Columns
| PleaseSelectRectangularArea.

Global Instance Alert_eq_dec : EqDecision Alert.
Proof. solve_decision. Defined.

Record State : Type := mkState {
  rowCount : jsnum;
  columnCount : jsnum;
  tableRows : list TableRow;
  mergeSpans : gmap string MergeSpanInfo;
  selectedCells : list CellId;
  isSelectionMode : bool;
  isDragging : bool;
  dragStartCell : option (Z * Z);
  dragSelection : list CellId;
  preSelection : list CellId;
  autofillDrag : AutofillDragState;
  autofillPreviewCells : list CellId;
  dataLoaded : bool;
  pendingGenerate : bool
}.

Definition Outcome : Type := State * option Alert.

Definition setRowCount (v : jsnum) (st : State) : State :=
  let 'mkState _ cc tr ms sc sm dg ds dsel pre ad ap dl pg := st in
  mkState v cc tr ms sc sm dg ds dsel pre ad ap dl pg.

Definition setColumnCount (v : jsnum) (st : State) : State :=
  let 'mkState rc _ tr ms sc sm dg ds dsel pre ad ap dl pg := st in
  mkState rc v tr ms sc sm dg ds dsel pre ad ap dl pg.

(** [setTableRows(rows)], together with the effect that re-derives
    [mergeSpans] from the new rows. *)
Definition setTableRows (rows : list TableRow) (st : State) : State :=
  let 'mkState rc cc _ _ sc sm dg ds dsel pre ad ap dl pg := st in
  mkState rc cc rows (computeMergeSpans rows) sc sm dg ds dsel pre ad ap dl pg.

Definition setSelectedCells (s : list CellId) (st : State) : State :=
  let 'mkState rc cc tr ms _ sm dg ds dsel pre ad ap dl pg := st in
  mkState rc cc tr ms s sm dg ds dsel pre ad ap dl pg.

Definition setIsSelectionMode (b : bool) (st : State) : State :=
  let 'mkState rc cc tr ms sc _ dg ds dsel pre ad ap dl pg := st in
  mkState rc cc tr ms sc b dg ds dsel pre ad ap dl pg.

Definition setIsDragging (b : bool) (st : State) : State :=
  let 'mkState rc cc tr ms sc sm _ ds dsel pre ad ap dl pg := st in
  mkState rc cc tr ms sc sm b ds dsel pre ad ap dl pg.

Definition setDragStartCell (p : option (Z * Z)) (st : State) : State :=
  let 'mkState rc cc tr ms sc sm dg _ dsel pre ad ap dl pg := st in
  mkState rc cc tr ms sc sm dg p dsel pre ad ap dl pg.

Definition setDragSelection (s : list CellId) (st : State) : State :=
  let 'mkState rc cc tr ms sc sm dg ds _ pre ad ap dl pg := st in
  mkState rc cc tr ms sc sm dg ds s pre ad ap dl pg.

Definition setPreSelection (s : list CellId) (st : State) : State :=
  let 'mkState rc cc tr ms sc sm dg ds dsel _ ad ap dl pg := st in
  mkState rc cc tr ms sc sm dg ds dsel s ad ap dl pg.

Definition setAutofillDrag (d : AutofillDragState) (st : State) : State :=
  let 'mkState rc cc tr ms sc sm dg ds dsel pre _ ap dl pg := st in
  mkState rc cc tr ms sc sm dg ds dsel pre d ap dl pg.

Definition setAutofillPreviewCells (s : list CellId) (st : State) : State :=
  let 'mkState rc cc tr ms sc sm dg ds dsel pre ad _ dl pg := st in
  mkState rc cc tr ms sc sm dg ds dsel pre ad s dl pg.

Definition setDataLoaded (b : bool) (st : State) : State :=
  let 'mkState rc cc tr ms sc sm dg ds dsel pre ad ap _ pg := st in
  mkState rc cc tr ms sc sm dg ds dsel pre ad ap b pg.

Definition setPendingGenerate (b : bool) (st : State) : State :=
  let 'mkState rc cc tr ms sc sm dg ds dsel pre ad ap dl _ := st in
  mkState rc cc tr ms sc sm dg ds dsel pre ad ap dl b.

(** The drag state of a component that is not in an autofill drag. *)
Definition noAutofillDrag : AutofillDragState :=
  {| active := false; sourceRow := 0; sourceCol := 0; sourceValue := Num 0;
     direction := None; currentRow := 0; currentCol := 0 |}.

(** The state of a freshly mounted component whose dimension attributes
    hold [rows] and [cols]. *)
Definition initialState (rows cols : jsnum) : State :=
  {| rowCount := rows; columnCount := cols; tableRows := [];
     mergeSpans := ∅; selectedCells := []; isSelectionMode := false;
     isDragging := false; dragStartCell := None; dragSelection := [];
     preSelection := []; autofillDrag := noAutofillDrag;
     autofillPreviewCells := []; dataLoaded := false;
     pendingGenerate := false |}.

(** ** JavaScript [Set] of cell ids, in insertion order *)

Definition set_has (x : CellId) (s : list CellId) : bool := bool_decide (x ∈ s).

Definition set_add (x : CellId) (s : list CellId) : list CellId :=
  if set_has x s then s else s ++ [x].

Definition set_delete (x : CellId) (s : list CellId) : list CellId :=
  filter (λ y, y ≠ x) s.

(** [new Set(l)] and [l.forEach(c => s.add(c))] *)
Definition set_addAll (l s : list CellId) : list CellId :=
  foldl (λ acc x, set_add x acc) s l.

(** ** In-place updates of the copied rows *)

(** Mutation of the first element satisfying [p], the one [find] returns. *)
Fixpoint updateFirst {A : Type} (p : A → bool) (f : A → A) (l : list A) : list A :=
  match l with
  | [] => []
  | x :: l' => if p x then f x :: l' else x :: updateFirst p f l'
  end.

(** Mutation of the cell that [findCell rows r c] returns. *)
Definition updateCell (rows : list TableRow) (r c : Z) (f : CellObject → CellObject)
    : list TableRow :=
  updateFirst (λ row, row_rowIndex row =? r)
    (λ row, mkRow (row_rowIndex row)
                  (updateFirst (λ cell, columnIndex cell =? c) f (cells row)))
    rows.

(** [rows.forEach(row => row.cells.forEach(cell => ...))] *)
Definition forEachCell (f : CellObject → CellObject) (rows : list TableRow)
    : list TableRow :=
  map (λ row, mkRow (row_rowIndex row) (map f (cells row))) rows.

Definition withSequenceNumber (v : string) (cell : CellObject) : CellObject :=
  mkCell (id cell) v (isBlocked cell) (isMerged cell) (mergeId cell) (isBlank cell)
         (rowIndex cell) (columnIndex cell).

Definition withBlocked (b : bool) (cell : CellObject) : CellObject :=
  mkCell (id cell) (sequenceNumber cell) b (isMerged cell) (mergeId cell) (isBlank cell)
         (rowIndex cell) (columnIndex cell).

Definition withBlank (b : bool) (cell : CellObject) : CellObject :=
  mkCell (id cell) (sequenceNumber cell) (isBlocked cell) (isMerged cell) (mergeId cell) b
         (rowIndex cell) (columnIndex cell).

(** The cell with [isMerged] reset and an empty [mergeId]. *)
Definition unmerged (cell : CellObject) : CellObject :=
  mkCell (id cell) (sequenceNumber cell) (isBlocked cell) false "" (isBlank cell)
         (rowIndex cell) (columnIndex cell).

(** [forEach ... if (cell.mergeId === mergeId) f(cell)] *)
Definition forGroup (mid : string) (f : CellObject → CellObject) (rows : list TableRow)
    : list TableRow :=
  forEachCell (λ cell, if bool_decide (mergeId cell = mid) then f cell else cell) rows.

(** ** Statistics *)

Record Statistics : Type := mkStats {
  totalCells : nat;
  blockedCells : nat;
  mergedCells : nat;
  blankCells : nat
}.

Definition updateCellStatistics (rows : list TableRow)
    (spans : gmap string MergeSpanInfo) : Statistics :=
  {| totalCells := foldl (λ sum row, sum + length (cells row))%nat 0%nat rows;
     blockedCells :=
       foldl (λ sum row, sum + length (filter (λ c, isBlocked c = true) (cells row)))%nat
             0%nat rows;
     mergedCells :=
       foldl (λ sum row,
                sum + length (filter (λ c, isMerged c && negb (isCellHidden c spans) = true)
                                     (cells row)))%nat 0%nat rows;
     blankCells :=
       foldl (λ sum row,
                sum + length (filter (λ c, isBlank c && negb (isCellHidden c spans) = true)
                                     (cells row)))%nat 0%nat rows |}.

(** ** Grid creation and growth *)

Definition defaultCell (r c : Z) : CellObject :=
  {| id := cellId r c; sequenceNumber := "-"; isBlocked := false; isMerged := false;
     mergeId := ""; isBlank := false; rowIndex := r; columnIndex := c |}.

(** The length of [Array.from({ length: n })]. *)
Definition arrayLength (n : jsnum) : nat :=
  match n with
  | Num z => Z.to_nat z
  | _ => O
  end.

(** [Array.from({ length: n }, (_, idx) => f(idx + 1))] *)
Definition arrayFrom {A : Type} (n : jsnum) (f : Z → A) : list A :=
  map (λ idx, f (Z.of_nat idx + 1)) (seq 0 (arrayLength n)).

Definition newTable (rows cols : jsnum) : list TableRow :=
  arrayFrom rows (λ rowIndex,
    mkRow rowIndex (arrayFrom cols (λ colIndex, defaultCell rowIndex colIndex))).

Definition createNewTable (rows cols : jsnum) (st : State) : State :=
  if js_le rows (Num 0) || js_le cols (Num 0) then st
  else
    setDataLoaded true
      (setIsSelectionMode false
         (setSelectedCells [] (setTableRows (newTable rows cols) st))).

(** The three checks and the creation that [applyDimensions] and the
    [generateResult] effect both perform. *)
Definition generateTable (st : State) : Outcome :=
  if js_isNaN (rowCount st) || js_isNaN (columnCount st)
  then (st, Some PleaseEnterValidNumbers)
  else if js_le (rowCount st) (Num 0) || js_le (columnCount st) (Num 0)
  then (st, Some MustBePositiveNumbers)
  else if js_gt (rowCount st) (Num 100) || js_gt (columnCount st) (Num 100)
  then (st, Some Maximum100RowsAnd100Columns)
  else (createNewTable (rowCount st) (columnCount st) st, None).

(** [canExecute] is [onGenerateTable?.canExecute]: with a host action the
    creation is deferred to [generateResultEffect]. *)
Definition applyDimensions (canExecute : bool) (st : State) : Outcome :=
  if canExecute then (setPendingGenerate true st, None)
  else generateTable st.

(** The effect on [generateResult?.value]; [generateResult] is [None]
    while the attribute is not available. *)
Definition generateResultEffect (generateResult : option bool) (st : State) : Outcome :=
  if negb (pendingGenerate st) then (st, None)
  else match generateResult with
       | None => (st, None)
       | Some value =>
           let st1 := setPendingGenerate false st in
           if value then generateTable st1 else (st1, None)
       end.

(** [addRow] and [addColumn] return [None] when the counter is NaN or the
    negative infinity: the code would then index the new cells by it, which
    the integer grid does not represent. *)
Definition addRow (st : State) : option Outcome :=
  match js_succ (rowCount st) with
  | NaN => None
  | Infinity negative => if negative then None else Some (st, Some Maximum100Rows)
  | Num newRowCount =>
      if 100 <? newRowCount then Some (st, Some Maximum100Rows)
      else
        let rowIndex := newRowCount in
        let newRows :=
          tableRows st
          ++ [mkRow rowIndex
                (arrayFrom (columnCount st) (λ colIndex, defaultCell rowIndex colIndex))] in
        Some (setTableRows newRows (setRowCount (Num newRowCount) st), None)
  end.

Definition addColumn (st : State) : option Outcome :=
  match js_succ (columnCount st) with
  | NaN => None
  | Infinity negative => if negative then None else Some (st, Some Maximum100Columns)
  | Num newColCount =>
      if 100 <? newColCount then Some (st, Some Maximum100Columns)
      else
        let newRows :=
          map (λ row, mkRow (row_rowIndex row)
                        (cells row ++ [defaultCell (row_rowIndex row) newColCount]))
              (tableRows st) in
        Some (setTableRows newRows (setColumnCount (Num newColCount) st), None)
  end.

(** ** Value and block mutations *)

Definition handleCellValueChange (rowIndex colIndex : Z) (newValue : string)
    (st : State) : State :=
  match findCell (tableRows st) rowIndex colIndex with
  | None => st
  | Some targetCell =>
      let newRows := updateCell (tableRows st) rowIndex colIndex
                       (withSequenceNumber newValue) in
      let newRows :=
        if truthy (mergeId targetCell)
        then forGroup (mergeId targetCell) (withSequenceNumber newValue) newRows
        else newRows in
      setTableRows newRows st
  end.

Definition handleCheckboxChange (rowIndex colIndex : Z) (st : State) : State :=
  match findCell (tableRows st) rowIndex colIndex with
  | None => st
  | Some targetCell =>
      let newBlocked := negb (isBlocked targetCell) in
      let newRows := updateCell (tableRows st) rowIndex colIndex
                       (withBlocked newBlocked) in
      let newRows :=
        if truthy (mergeId targetCell)
        then forGroup (mergeId targetCell) (withBlocked newBlocked) newRows
        else newRows in
      setTableRows newRows st
  end.

(** ** Selection *)

(** The values [lo, lo+1, ..., hi] of a [for] loop. *)
Definition range (lo hi : Z) : list Z := seqZ lo (hi - lo + 1).

(** The ids added by the two nested loops over a rectangle, in order. *)
Definition rectangleIds (minRow maxRow minCol maxCol : Z) : list CellId :=
  r ← range minRow maxRow; c ← range minCol maxCol; [cellId r c].

Definition getRectangularSelection (startRow startCol endRow endCol : Z) : list CellId :=
  let minRow := Z.min startRow endRow in
  let maxRow := Z.max startRow endRow in
  let minCol := Z.min startCol endCol in
  let maxCol := Z.max startCol endCol in
  rectangleIds minRow maxRow minCol maxCol.

(** What the handlers read of a mouse event. *)
Record MouseEvent : Type := mkEvent {
  targetIsInput : bool;
  shiftKey : bool;
  ctrlKey : bool;
  metaKey : bool
}.

Definition plainEvent : MouseEvent :=
  {| targetIsInput := false; shiftKey := false; ctrlKey := false; metaKey := false |}.

Definition resetDragState (st : State) : State :=
  setPreSelection [] (setDragSelection [] (setDragStartCell None (setIsDragging false st))).

Definition handleCellMouseDown (isSelectionAllowed : bool) (rowIndex colIndex : Z)
    (event : MouseEvent) (st : State) : State :=
  if negb isSelectionAllowed then st
  else if targetIsInput event then st
  else if active (autofillDrag st) then st
  else
    let st := setPreSelection (selectedCells st) st in
    let st := setIsDragging true st in
    let st := setDragStartCell (Some (rowIndex, colIndex)) st in
    let st := setIsSelectionMode true st in
    let cid := cellId rowIndex colIndex in
    if shiftKey event then
      setSelectedCells (set_add cid (selectedCells st)) (setDragSelection [cid] st)
    else
      setSelectedCells [cid] (setDragSelection [cid] st).

Definition handleCellMouseEnter (rowIndex colIndex : Z) (st : State) : State :=
  match isDragging st, dragStartCell st with
  | true, Some (startRow, startCol) =>
      let dragged := getRectangularSelection startRow startCol rowIndex colIndex in
      let final := set_addAll dragged (preSelection st) in
      setSelectedCells final (setDragSelection dragged st)
  | _, _ => st
  end.

(** The [mouseup] listener of the selection drag. *)
Definition handleMouseUp (st : State) : State :=
  if isDragging st
  then setPreSelection [] (setDragStartCell None (setIsDragging false st))
  else st.

Definition handleCellClick (isSelectionAllowed : bool) (rowIndex colIndex : Z)
    (event : MouseEvent) (st : State) : State :=
  if negb isSelectionAllowed then st
  else if isDragging st then st
  else
    let cid := cellId rowIndex colIndex in
    let isCtrlOrCmd := ctrlKey event || metaKey event in
    if isSelectionMode st then
      let s := selectedCells st in
      let s :=
        if isCtrlOrCmd then
          if set_has cid s && (1 <? length s)%nat then set_delete cid s else set_add cid s
        else
          if set_has cid s && (length s =? 1)%nat then s else set_add cid s in
      setSelectedCells s st
    else
      setIsSelectionMode true (setSelectedCells [cid] st).

Definition selectAllCells (isSelectionAllowed : bool) (st : State) : State :=
  if negb isSelectionAllowed then st
  else
    let all :=
      foldl (λ all cell,
               if negb (isCellHidden cell (mergeSpans st)) then set_add (id cell) all
               else all)
            [] (allCells (tableRows st)) in
    setIsSelectionMode true (setSelectedCells all st).

Definition clearSelection (st : State) : State :=
  setIsSelectionMode false (setSelectedCells [] st).

(** ** Merge and unmerge *)

(** [`${r1}${c1}${r2}${c2}`] *)
Definition createMergeId (r1 c1 r2 c2 : Z) : string :=
  pretty r1 +:+ pretty c1 +:+ pretty r2 +:+ pretty c2.

(** The body of the validation loop of [mergeCells] for one id of the
    bounding rectangle: [true] when the id does not invalidate the merge. *)
Definition rectangleCellOk (st : State) (cid : CellId) : bool :=
  if set_has cid (selectedCells st) then true
  else
    match findCell (tableRows st) (id_row cid) (id_col cid) with
    | Some cell =>
        if isMerged cell && truthy (mergeId cell) then
          match mergeSpans st !! mergeId cell with
          | Some span =>
              set_has (cellId (anchorRow span) (anchorCol span)) (selectedCells st)
          | None => false
          end
        else false
    | None => false
    end.

(** First loop of the update: every merge group met in the rectangle is
    dissolved, wherever its cells lie. *)
Definition dissolveGroups (rect : list CellId) (rows : list TableRow) : list TableRow :=
  foldl (λ newRows cid,
           match findCell newRows (id_row cid) (id_col cid) with
           | Some cell =>
               if isMerged cell && truthy (mergeId cell)
               then forGroup (mergeId cell) unmerged newRows
               else newRows
           | None => newRows
           end)
        rows rect.

Definition mergedFrom (topLeft : CellObject) (mid : string) (cell : CellObject)
    : CellObject :=
  mkCell (id cell) (sequenceNumber topLeft) (isBlocked topLeft) true mid
         (isBlank topLeft) (rowIndex cell) (columnIndex cell).

(** Second loop of the update. *)
Definition assignGroup (rect : list CellId) (topLeft : CellObject) (mid : string)
    (rows : list TableRow) : list TableRow :=
  foldl (λ newRows cid,
           updateCell newRows (id_row cid) (id_col cid) (mergedFrom topLeft mid))
        rows rect.

Definition mergeCells (st : State) : Outcome :=
  if (length (selectedCells st) <? 2)%nat then (st, None)
  else
    let minRow := Math_min (map id_row (selectedCells st)) in
    let maxRow := Math_max (map id_row (selectedCells st)) in
    let minCol := Math_min (map id_col (selectedCells st)) in
    let maxCol := Math_max (map id_col (selectedCells st)) in
    let rectangleCellIds := rectangleIds minRow maxRow minCol maxCol in
    let isValidRect := forallb (rectangleCellOk st) rectangleCellIds in
    if negb isValidRect then (st, Some PleaseSelectRectangularArea)
    else
      let newRows := dissolveGroups rectangleCellIds (tableRows st) in
      let mid := createMergeId minRow minCol maxRow maxCol in
      let st1 :=
        match findCell newRows minRow minCol with
        | None => st
        | Some topLeft =>
            setTableRows (assignGroup rectangleCellIds topLeft mid newRows) st
        end in
      (resetDragState (setIsSelectionMode false (setSelectedCells [] st1)), None).

Definition unmergeCells (st : State) : State :=
  match selectedCells st with
  | [] => st
  | cid :: _ =>
      let st1 :=
        match findCell (tableRows st) (id_row cid) (id_col cid) with
        | Some target =>
            if isMerged target
            then setTableRows (forGroup (mergeId target) unmerged (tableRows st)) st
            else st
        | None => st
        end in
      resetDragState st1
  end.

(** ** Blank and unblank *)

Definition blankLoop (b : bool) (mergeSpans : gmap string MergeSpanInfo)
    (selected : list CellId) (rows : list TableRow) : list TableRow :=
  foldl (λ newRows cid,
           match findCell newRows (id_row cid) (id_col cid) with
           | None => newRows
           | Some cell =>
               if isCellHidden cell mergeSpans then newRows
               else
                 let newRows := updateCell newRows (id_row cid) (id_col cid) (withBlank b) in
                 if truthy (mergeId cell)
                 then forGroup (mergeId cell) (withBlank b) newRows
                 else newRows
           end)
        rows selected.

Definition setBlankSelectedCells (b : bool) (st : State) : State :=
  match selectedCells st with
  | [] => st
  | _ =>
      let newRows := blankLoop b (mergeSpans st) (selectedCells st) (tableRows st) in
      resetDragState
        (setIsSelectionMode false (setSelectedCells [] (setTableRows newRows st)))
  end.

Definition blankSelectedCells : State → State := setBlankSelectedCells true.
Definition unblankSelectedCells : State → State := setBlankSelectedCells false.

(** ** Autofill drag *)

Definition handleAutofillHandleMouseDown (rowIndex colIndex : Z) (st : State) : State :=
  match findCell (tableRows st) rowIndex colIndex with
  | None => st
  | Some sourceCell =>
      if negb (isInteger (sequenceNumber sourceCell)) then st
      else
        let startVal := parseInt (sequenceNumber sourceCell) in
        setAutofillPreviewCells []
          (setAutofillDrag
             {| active := true; sourceRow := rowIndex; sourceCol := colIndex;
                sourceValue := startVal; direction := None;
                currentRow := rowIndex; currentCol := colIndex |} st)
  end.

Definition handleCellMouseEnterAutofill (rowIndex colIndex : Z) (st : State) : State :=
  if negb (active (autofillDrag st)) then st
  else
    let sourceRow := sourceRow (autofillDrag st) in
    let sourceCol := sourceCol (autofillDrag st) in
    let direction :=
      if (rowIndex =? sourceRow) && negb (colIndex =? sourceCol) then Some horizontal
      else if (colIndex =? sourceCol) && negb (rowIndex =? sourceRow) then Some vertical
      else if negb (rowIndex =? sourceRow) && negb (colIndex =? sourceCol) then
        let rowDelta := Z.abs (rowIndex - sourceRow) in
        let colDelta := Z.abs (colIndex - sourceCol) in
        if rowDelta <=? colDelta then Some horizontal else Some vertical
      else None in
    let newState :=
      {| active := active (autofillDrag st); sourceRow := sourceRow;
         sourceCol := sourceCol; sourceValue := sourceValue (autofillDrag st);
         direction := direction; currentRow := rowIndex; currentCol := colIndex |} in
    let cells :=
      getAutofillCells (tableRows st) (mergeSpans st) sourceRow sourceCol
        (if bool_decide (direction = Some horizontal) then sourceRow else rowIndex)
        (if bool_decide (direction = Some vertical) then sourceCol else colIndex)
        direction in
    setAutofillPreviewCells
      (set_addAll (map (λ c, cellId (fill_row c) (fill_col c)) cells) [])
      (setAutofillDrag newState st).

(** The write of one computed value, with its propagation to the merge
    group of the written cell. *)
Definition fillOne (newRows : list TableRow) (fc : FillCell) : list TableRow :=
  match findCell newRows (fill_row fc) (fill_col fc) with
  | None => newRows
  | Some cell =>
      let v := js_String (fill_value fc) in
      let newRows := updateCell newRows (fill_row fc) (fill_col fc) (withSequenceNumber v) in
      if isMerged cell && truthy (mergeId cell)
      then forGroup (mergeId cell) (withSequenceNumber v) newRows
      else newRows
  end.

Definition handleAutofillMouseUp (st : State) : State :=
  if negb (active (autofillDrag st)) then st
  else
    let d := autofillDrag st in
    let targetRow :=
      if bool_decide (direction d = Some horizontal) then sourceRow d else currentRow d in
    let targetCol :=
      if bool_decide (direction d = Some vertical) then sourceCol d else currentCol d in
    let fillCells :=
      getAutofillCells (tableRows st) (mergeSpans st) (sourceRow d) (sourceCol d)
        targetRow targetCol (direction d) in
    let st1 :=
      match fillCells with
      | [] => st
      | _ => setTableRows (foldl fillOne (tableRows st) fillCells) st
      end in
    setAutofillPreviewCells [] (setAutofillDrag noAutofillDrag st1).

(** ** Loading a snapshot *)

(** The result of [JSON.parse]: every property may be absent. *)
Record RawCell : Type := mkRawCell {
  raw_sequenceNumber : option string;
  raw_isBlocked : option bool;
  raw_isMerged : option bool;
  raw_mergeId : option string;
  raw_isBlank : option bool;
  raw_rowIndex : option Z;
  raw_columnIndex : option Z
}.

Record RawRow : Type := mkRawRow {
  raw_row_rowIndex : option Z;
  raw_cells : option (list RawCell)
}.

Record RawTable : Type := mkRawTable {
  raw_rows : option Z;
  raw_columns : option Z;
  raw_tableRows : option (list RawRow)
}.

(** The value of the data attribute: empty, a string that [JSON.parse]
    rejects, or a parsed table. *)
Inductive Incoming : Type :=
| NoData
| Unparseable
| Parsed (tableData : RawTable).

Definition validatedCell (rowIndex colIndex : Z) (cell : RawCell) : CellObject :=
  let seqNum :=
    match raw_sequenceNumber cell with
    | Some s => if truthy s then s else "-"
    | None => "-"
    end in
  {| id := cellId rowIndex colIndex;
     sequenceNumber := seqNum;
     isBlocked := default false (raw_isBlocked cell);
     isMerged := default false (raw_isMerged cell);
     mergeId := default "" (raw_mergeId cell);
     isBlank := default false (raw_isBlank cell);
     rowIndex := rowIndex;
     columnIndex := colIndex |}.

(** [l.map((x, idx) => f(idx + 1, x))] *)
Definition mapIndexed {A B : Type} (f : Z → A → B) (l : list A) : list B :=
  imap (λ idx x, f (Z.of_nat idx + 1) x) l.

(** [None] stands for the [TypeError] raised by [row.cells.map] on a row
    without cells, which the [catch] of the load effect absorbs. *)
Definition validatedRow (rowIndex : Z) (row : RawRow) : option TableRow :=
  cs ← raw_cells row;
  Some (mkRow rowIndex (mapIndexed (validatedCell rowIndex) cs)).

Definition validatedRows (rows : list RawRow) : option (list TableRow) :=
  mapM (λ x, x) (mapIndexed validatedRow rows).

(** A number property compared with [> 0]; an absent one is not. *)
Definition isPositive (n : option Z) : bool :=
  match n with
  | Some z => 0 <? z
  | None => false
  end.

(** The load effect, when it is not skipped as an echo of the component's
    own save.  [computeMergeSpans] is taken to return on the validated
    rows; when it raises ([raisesTypeError]), the [catch] of the effect
    leaves the component with the two counters of the snapshot and nothing
    else of it. *)
Definition loadEffect (incomingData : Incoming) (st : State) : State :=
  match incomingData with
  | NoData => st
  | Unparseable => st
  | Parsed tableData =>
      match raw_tableRows tableData with
      | Some rawRows =>
          if isPositive (raw_rows tableData) && isPositive (raw_columns tableData) then
            match validatedRows rawRows with
            | None => st
            | Some rows =>
                let st := setRowCount (Num (default 0 (raw_rows tableData))) st in
                let st := setColumnCount (Num (default 0 (raw_columns tableData))) st in
                let st := setTableRows rows st in
                let st := setSelectedCells [] st in
                let st := setIsSelectionMode false st in
                setDataLoaded true st
            end
          else st
      | None => st
      end
  end.

(** The effect on [dataLoaded].  It runs after the first render and after
    every render that changed [dataLoaded], and sets a timer of 100 ms
    (the timer of the run before is cleared).  The callback of the timer
    tests and uses the [dataLoaded], the grid and the counters of the
    render that set it, [captured]; [st] is the state at the moment the
    timer fires, which the setters of [createNewTable] update. *)
Definition fallbackEffect (captured st : State) : State :=
  if negb (dataLoaded captured) && bool_decide (tableRows captured = [])
  then createNewTable (rowCount captured) (columnCount captured) st
  else st.

(** ** Cell ids as strings

    The component writes the id of the cell at [(r, c)] as
    [`cell_${r}_${c}`] and reads the two numbers back with
    [id.replace("cell_", ...).split("_")] and [parseInt].  The two functions
    on strings are given here; [parseCellId_cellIdString] shows that reading
    inverts writing, which is what the representation of ids as pairs
    relies on. *)

Definition cellIdString (cid : CellId) : string :=
  "cell_" +:+ pretty (id_row cid) +:+ "_" +:+ pretty (id_col cid).

Fixpoint dropString (n : nat) (s : string) : string :=
  match n, s with
  | S n', String _ s' => dropString n' s'
  | _, _ => s
  end.

Fixpoint startsWith (pat s : string) : bool :=
  match pat, s with
  | EmptyString, _ => true
  | String a pat', String b s' => bool_decide (a = b) && startsWith pat' s'
  | String _ _, EmptyString => false
  end.

(** [s.replace(pat, empty)]: the first occurrence of [pat] is removed. *)
Fixpoint removeFirst (pat s : string) : string :=
  if startsWith pat s then dropString (String.length pat) s
  else match s with
       | String c s' => String c (removeFirst pat s')
       | EmptyString => s
       end.

(** [s.split(sep)] for a one-character separator. *)
Fixpoint splitOn (sep : ascii) (s : string) : list string :=
  match s with
  | EmptyString => [""]
  | String c s' =>
      if bool_decide (c = sep) then "" :: splitOn sep s'
      else match splitOn sep s' with
           | p :: ps => String c p :: ps
           | [] => [String c ""]
           end
  end.

(** The two numbers [mergeCells] and the other handlers read from an id.
    The numbers of an id are indices, far below 2^53, which [parseInt]
    reads exactly: the reading is written with [mathInt]. *)
Definition parseCellId (s : string) : jsnum * jsnum :=
  let parts := splitOn "_" (removeFirst "cell_" s) in
  (from_option mathInt NaN (parts !! 0%nat), from_option mathInt NaN (parts !! 1%nat)).

Fixpoint occurs (c : ascii) (s : string) : bool :=
  match s with
  | EmptyString => false
  | String c' s' => bool_decide (c' = c) || occurs c s'
  end.

(** * Vocabulary of the properties *)

(** ** Rectangles and merges *)

(** The bounding rectangle of a selection, as [mergeCells] computes it. *)
Definition boundingRectangle (sel : list CellId) : list CellId :=
  rectangleIds (Math_min (map id_row sel)) (Math_max (map id_row sel))
               (Math_min (map id_col sel)) (Math_max (map id_col sel)).

(** The bounding rectangle of a selection, in words: the cells whose row
    lies between the rows of two selected cells and whose column lies
    between the columns of two selected cells. *)
Definition inBoundingRectangle (sel : list CellId) (cid : CellId) : Prop :=
  (∃ a b, a ∈ sel ∧ b ∈ sel ∧ id_row a ≤ id_row cid ≤ id_row b)
  ∧ (∃ a b, a ∈ sel ∧ b ∈ sel ∧ id_col a ≤ id_col cid ≤ id_col b).

(** The cell named by [cid] belongs to a merge group whose anchor is
    selected. *)
Definition coveredByAnchor (st : State) (cid : CellId) : Prop :=
  ∃ cell span,
    findCell (tableRows st) (id_row cid) (id_col cid) = Some cell
    ∧ isMerged cell = true ∧ mergeId cell ≠ ""
    ∧ mergeSpans st !! mergeId cell = Some span
    ∧ cellId (anchorRow span) (anchorCol span) ∈ selectedCells st.

(** [mergeCells] went through: it raised no alert and emptied a selection
    that was not empty. *)
Definition mergeSucceeds (st : State) : Prop :=
  ∃ st', mergeCells st = (st', None)
    ∧ selectedCells st ≠ [] ∧ selectedCells st' = [].

(** The cell at [cid] is a merged cell of the group [mid]. *)
Definition mergedIn (rows : list TableRow) (mid : string) (cid : CellId) : bool :=
  match findCell rows (id_row cid) (id_col cid) with
  | Some x => isMerged x && bool_decide (mergeId x = mid)
  | None => false
  end.

(** [cell] carries the non-empty merge id of a merged cell that lies at
    one of the positions [rect]. *)
Definition touched (rows : list TableRow) (rect : list CellId) (cell : CellObject) : bool :=
  truthy (mergeId cell) && existsb (mergedIn rows (mergeId cell)) rect.

(** The cell carries the merge id of a merged cell of the bounding
    rectangle of the selection: its group is one that the merge dissolves. *)
Definition inTouchedGroup (st : State) (cell : CellObject) : Prop :=
  mergeId cell ≠ ""
  ∧ ∃ cid x, inBoundingRectangle (selectedCells st) cid
      ∧ findCell (tableRows st) (id_row cid) (id_col cid) = Some x
      ∧ isMerged x = true ∧ mergeId x = mergeId cell.

Definition mergeIdAt (st : State) (r c : Z) : option string :=
  mergeId <$> findCell (tableRows st) r c.

(** What the specification says of the cells inside the bounding rectangle
    of the selection of [st], once the merge has led to [st']: every one
    of them is merged. *)
Definition everyCellInsideMerged (st st' : State) : Prop :=
  ∀ cell, cell ∈ allCells (tableRows st') →
    inBoundingRectangle (selectedCells st) (cellId (rowIndex cell) (columnIndex cell)) →
    isMerged cell = true.

(** ** Visibility *)

Definition visibleCells (rows : list TableRow) (spans : gmap string MergeSpanInfo)
    : list CellObject :=
  filter (λ c, isCellHidden c spans = false) (allCells rows).

Definition hiddenCells (rows : list TableRow) (spans : gmap string MergeSpanInfo)
    : list CellObject :=
  filter (λ c, isCellHidden c spans = true) (allCells rows).

(** The four counts, each taken over the visible cells only. *)
Definition countsOnlyVisible (rows : list TableRow) (spans : gmap string MergeSpanInfo)
    : Prop :=
  let stats := updateCellStatistics rows spans in
  let visible := visibleCells rows spans in
  totalCells stats = length visible
  ∧ blockedCells stats = length (filter (λ c, isBlocked c = true) visible)
  ∧ mergedCells stats = length (filter (λ c, isMerged c = true) visible)
  ∧ blankCells stats = length (filter (λ c, isBlank c = true) visible).




(** Row and column indices are not repeated, the cells of a row carry its
    row index, and the [id] of a cell is made of its two indices. *)
Definition wellFormed (rows : list TableRow) : Prop :=
  NoDup (map row_rowIndex rows)
  ∧ ∀ row, row ∈ rows →
      NoDup (map columnIndex (cells row))
      ∧ ∀ cell, cell ∈ cells row →
          rowIndex cell = row_rowIndex row
          ∧ id cell = cellId (rowIndex cell) (columnIndex cell).

(** ** Dimensions and snapshots *)

(** A dimension counter that holds an integer of [1, 100]. *)
Definition inRange (n : jsnum) : bool :=
  match n with
  | Num z => (1 <=? z) && (z <=? 100)
  | _ => false
  end.

(** The snapshots the load effect does not accept. *)
Inductive Malformed : Incoming → Prop :=
| malformed_unparseable : Malformed Unparseable
| malformed_no_rows (t : RawTable) :
    isPositive (raw_rows t) = false → Malformed (Parsed t)
| malformed_no_columns (t : RawTable) :
    isPositive (raw_columns t) = false → Malformed (Parsed t)
| malformed_no_tableRows (t : RawTable) :
    raw_tableRows t = None → Malformed (Parsed t)
| malformed_row_without_cells (t : RawTable) (rawRows : list RawRow) (row : RawRow) :
    raw_tableRows t = Some rawRows → row ∈ rawRows → raw_cells row = None →
    Malformed (Parsed t).

(** What the specification says of a snapshot with zero rows, zero
    columns or a malformed shape, for a component that has no grid yet: the
    load leaves the state as it was, and the default grid of the counters
    is created instead. *)
Definition rejectedForDefaultGrid (incoming : Incoming) (st : State) : Prop :=
  loadEffect incoming st = st
  ∧ tableRows (fallbackEffect (loadEffect incoming st) (loadEffect incoming st))
    = newTable (rowCount st) (columnCount st).

(** ** Autofill positions *)



(** ** Decimal integers *)

(** The integers below 2^53 in magnitude: the sums and the readings that
    stay among them are exact. *)
Definition safeInteger (z : Z) : Prop := Z.abs z < 2 ^ 53.

Fixpoint zeros (k : nat) : string :=
  match k with
  | O => ""
  | S k' => String "0"%char (zeros k')
  end.

(** [text] is a base-10 integer that denotes [z]: an optional minus sign,
    leading zeros, and the decimal digits of the magnitude of [z]. *)
Definition denotes (text : string) (z : Z) : Prop :=
  ∃ (negative : bool) (k : nat) (m : Z),
    0 ≤ m
    ∧ text = (if negative then "-" else "") +:+ zeros k +:+ pretty m
    ∧ z = if negative then - m else m.

(** ** Agreement within a merge group *)

(** Two cells carry the same values. *)
Definition sameValues (a b : CellObject) : Prop :=
  sequenceNumber a = sequenceNumber b
  ∧ isBlocked a = isBlocked b
  ∧ isBlank a = isBlank b.

(** All cells that share a merge id carry the same values. *)
Definition groupAgreement (rows : list TableRow) : Prop :=
  ∀ a b, a ∈ allCells rows → b ∈ allCells rows →
    mergeId a ≠ "" → mergeId a = mergeId b → sameValues a b.

Definition sameValuesb (a b : CellObject) : bool :=
  bool_decide (sequenceNumber a = sequenceNumber b)
  && bool_decide (isBlocked a = isBlocked b)
  && bool_decide (isBlank a = isBlank b).

Definition groupAgreementb (rows : list TableRow) : bool :=
  forallb (λ a,
    forallb (λ b,
      negb (truthy (mergeId a) && bool_decide (mergeId a = mergeId b))
      || sameValuesb a b) (allCells rows)) (allCells rows).

(** A cell with a merge id is flagged merged. *)
Definition flagsConsistent (rows : list TableRow) : Prop :=
  ∀ x, x ∈ allCells rows → mergeId x ≠ "" → isMerged x = true.

(** A function that sets one of the three values of a cell to a constant. *)
Definition valueSetter (f : CellObject → CellObject) : Prop :=
  (∀ x, mergeId (f x) = mergeId x)
  ∧ (∀ x, isMerged (f x) = isMerged x)
  ∧ (∀ x, columnIndex (f x) = columnIndex x)
  ∧ (∀ a b, sameValues a b → sameValues (f a) (f b))
  ∧ (∀ x, f (f x) = f x).

(** ** Sample states *)

(** The selection made by a drag from [(r1, c1)] to [(r2, c2)] on a fresh
    [rows] by [cols] grid. *)
Definition dragOnFreshGrid (rows cols r1 c1 r2 c2 : Z) : State :=
  handleMouseUp
    (handleCellMouseEnter r2 c2
       (handleCellMouseDown true r1 c1 plainEvent
          (createNewTable (Num rows) (Num cols) (initialState (Num rows) (Num cols))))).

(** An autofill drag started on cell (2,2), holding 5, of a 3 x 3 grid. *)
Definition dragFromCentre : State :=
  handleAutofillHandleMouseDown 2 2
    (handleCellValueChange 2 2 "5"
       (createNewTable (Num 3) (Num 3) (initialState (Num 3) (Num 3)))).

(** A 1 x 3 grid whose first two cells were merged and then blocked. *)
Definition mergedPair : State :=
  handleCheckboxChange 1 1 (fst (mergeCells (dragOnFreshGrid 1 3 1 1 1 2))).

(** A snapshot of one row with two cells: the first carries wrong indices
    and no flags, the second has nothing but a merge flag. *)
Definition sampleSnapshot : RawTable :=
  {| raw_rows := Some 1; raw_columns := Some 2;
     raw_tableRows := Some
       [ {| raw_row_rowIndex := Some 7;
            raw_cells := Some
              [ mkRawCell (Some "4") None None None None (Some 9) (Some 9);
                mkRawCell None None (Some true) (Some "1112") None None None ] |} ] |}.

(** A snapshot with [rows: 0]. *)
Definition zeroRowsSnapshot : RawTable :=
  {| raw_rows := Some 0; raw_columns := Some 2; raw_tableRows := Some [] |}.

(** A snapshot that announces one row and holds two; after it is loaded,
    [addRow] gives the new row the index 2 again.  On that grid, the
    selection of the two cells at (2,1) and (2,2), made by a drag. *)
Definition twoRowsSnapshot : RawTable :=
  {| raw_rows := Some 1; raw_columns := Some 2;
     raw_tableRows := Some
       [ {| raw_row_rowIndex := None;
            raw_cells := Some
              [ mkRawCell (Some "1") None None None None None None;
                mkRawCell (Some "2") None None None None None None ] |};
         {| raw_row_rowIndex := None;
            raw_cells := Some
              [ mkRawCell (Some "3") None None None None None None;
                mkRawCell (Some "4") None None None None None None ] |} ] |}.

Definition repeatedRowGrid : State :=
  let st := loadEffect (Parsed twoRowsSnapshot) (initialState (Num 3) (Num 3)) in
  match addRow st with
  | Some (st', _) => st'
  | None => st
  end.

Definition repeatedRowSelection : State :=
  handleMouseUp
    (handleCellMouseEnter 2 2 (handleCellMouseDown true 2 1 plainEvent repeatedRowGrid)).

(** A snapshot that announces three rows and three columns and holds no
    row, and one whose two rows have two cells and one cell. *)
Definition emptyRowsSnapshot : RawTable :=
  {| raw_rows := Some 3; raw_columns := Some 3; raw_tableRows := Some [] |}.

Definition raggedSnapshot : RawTable :=
  {| raw_rows := Some 2; raw_columns := Some 2;
     raw_tableRows := Some
       [ {| raw_row_rowIndex := None;
            raw_cells := Some
              [ mkRawCell (Some "1") None None None None None None;
                mkRawCell (Some "2") None None None None None None ] |};
         {| raw_row_rowIndex := None;
            raw_cells := Some [ mkRawCell (Some "3") None None None None None None ] |} ] |}.

(** On a fresh 3 x 3 grid: the selection (1,1), (1,2), (2,1), made by a
    drag and a shift-press, and the selection of the full 2 x 2 square. *)
Definition cornerSelection : State :=
  handleMouseUp
    (handleCellMouseDown true 2 1
       {| targetIsInput := false; shiftKey := true; ctrlKey := false; metaKey := false |}
       (dragOnFreshGrid 3 3 1 1 1 2)).

Definition squareSelection : State := dragOnFreshGrid 3 3 1 1 2 2.

(** A 1 x 3 grid whose first two cells are merged, and a drag on it from
    cell (1,1) to cell (1,3), both of them visible. *)
Definition mergedRowGrid : State := fst (mergeCells (dragOnFreshGrid 1 3 1 1 1 2)).


(** A 1 x 4 grid holding 5 in its first cell, and one holding 5 in its
    last cell. *)
Definition fiveAtStart : State :=
  handleCellValueChange 1 1 "5"
    (createNewTable (Num 1) (Num 4) (initialState (Num 1) (Num 4))).

Definition fiveAtEnd : State :=
  handleCellValueChange 1 4 "5"
    (createNewTable (Num 1) (Num 4) (initialState (Num 1) (Num 4))).

(** A 1 x 4 grid holding 2^53 in its first cell, and one holding 7 between
    two no-break spaces (U+00A0). *)
Definition bigAtStart : State :=
  handleCellValueChange 1 1 "9007199254740992"
    (createNewTable (Num 1) (Num 4) (initialState (Num 1) (Num 4))).

Definition noBreakSpace : string :=
  String (ascii_of_nat 194) (String (ascii_of_nat 160) "").

Definition paddedAtStart : State :=
  handleCellValueChange 1 1 (noBreakSpace +:+ "7" +:+ noBreakSpace)
    (createNewTable (Num 1) (Num 4) (initialState (Num 1) (Num 4))).

(** On a 3 x 3 grid whose cells (1,1) and (1,2) are merged: the selection of
    (1,1) and (2,1), whose rectangle meets the merged pair in (1,1) only. *)
Definition overlappingSelection : State :=
  handleMouseUp
    (handleCellMouseEnter 2 1
       (handleCellMouseDown true 1 1 plainEvent
          (fst (mergeCells (dragOnFreshGrid 3 3 1 1 1 2))))).

(** An 11 x 12 grid in which cells (1,11) and (1,12) were merged and given
    the value 5, with cells (11,1) and (11,2) selected. *)
Definition collidingSelection : State :=
  handleMouseUp
    (handleCellMouseEnter 11 2
       (handleCellMouseDown true 11 1 plainEvent
          (handleCellValueChange 1 11 "5"
             (fst (mergeCells (dragOnFreshGrid 11 12 1 11 1 12)))))).

(** A loaded snapshot whose second and third cells carry the merge id "g"
    without the merged flag, with an autofill drag from (1,1) to (1,2). *)
Definition unflaggedGroup : State :=
  handleCellMouseEnterAutofill 1 2
    (handleAutofillHandleMouseDown 1 1
       (loadEffect
          (Parsed
             {| raw_rows := Some 1; raw_columns := Some 3;
                raw_tableRows := Some
                  [ {| raw_row_rowIndex := Some 1;
                       raw_cells := Some
                         [ mkRawCell (Some "5") None None None None None None;
                           mkRawCell (Some "1") None None (Some "g") None None None;
                           mkRawCell (Some "1") None None (Some "g") None None None ] |} ] |})
          (initialState (Num 3) (Num 3)))).

(** ** Merge groups *)

(** [cell] is counted by [computeMergeSpans] in the group of id [k]. *)
Definition inGroup (k : string) (cell : CellObject) : bool :=
  isMerged cell && truthy (mergeId cell) && bool_decide (mergeId cell = k).

(** The cells of the group [k], in grid order, and their positions. *)
Definition groupCells (k : string) (rows : list TableRow) : list CellObject :=
  filter (λ cell, inGroup k cell = true) (allCells rows).

Definition positionOf (cell : CellObject) : Z * Z := (rowIndex cell, columnIndex cell).

Definition positionsOf (k : string) (rows : list TableRow) : list (Z * Z) :=
  positionOf <$> groupCells k rows.

(** [wellFormed], as a test. *)
Definition wellFormedb (rows : list TableRow) : bool :=
  bool_decide (NoDup (map row_rowIndex rows))
  && forallb (λ row,
       bool_decide (NoDup (map columnIndex (cells row)))
       && forallb (λ cell,
            (rowIndex cell =? row_rowIndex row)
            && bool_decide (id cell = cellId (rowIndex cell) (columnIndex cell)))
          (cells row)) rows.

(** ** Grids of the same layout *)

(** [y] sits where [x] sits: same id, same indices. *)
Definition samePlace (x y : CellObject) : Prop :=
  id y = id x ∧ rowIndex y = rowIndex x ∧ columnIndex y = columnIndex x.

(** [y] sits where [x] sits and belongs to the same merge group. *)
Definition sameFrame (x y : CellObject) : Prop :=
  samePlace x y ∧ isMerged y = isMerged x ∧ mergeId y = mergeId x.

(** Two grids with the same rows in the same order, whose cells are
    related one by one. *)
Definition rowsRel (R : CellObject → CellObject → Prop) (rows rows' : list TableRow)
    : Prop :=
  Forall2 (λ row row', row_rowIndex row' = row_rowIndex row
                       ∧ Forall2 R (cells row) (cells row')) rows rows'.

Definition sameLayout : list TableRow → list TableRow → Prop := rowsRel sameFrame.

(** A handler that changes neither the layout of the grid nor its merge
    groups. *)
Definition keepsLayout (handler : State → State) : Prop :=
  ∀ st, sameLayout (tableRows st) (tableRows (handler st))
        ∧ computeMergeSpans (tableRows (handler st)) = computeMergeSpans (tableRows st)
        ∧ (wellFormed (tableRows st) → wellFormed (tableRows (handler st))).

(** ** Propagated writes *)

(** The cells reached by a write to the cell [t] found at [(r, c)]: the
    cell at that position and, when [t] has a merge id, the cells that
    carry it. *)
Definition reached (r c : Z) (t x : CellObject) : bool :=
  (rowIndex x =? r) && (columnIndex x =? c)
  || truthy (mergeId t) && bool_decide (mergeId x = mergeId t).

Definition writeTo (r c : Z) (t : CellObject) (f : CellObject → CellObject)
    (x : CellObject) : CellObject :=
  if reached r c t x then f x else x.

(** [mergedRowGrid] with its merged cell, the anchor (1,1), selected. *)
Definition anchorSelected : State := handleCellClick true 1 1 plainEvent mergedRowGrid.

(** [y] sits where [x] sits and holds the same values. *)
Definition sameContent (x y : CellObject) : Prop := samePlace x y ∧ sameValues x y.

(** The test of one selected id in the loop of blank and unblank: its
    cell is found and not hidden, and [x] is reached by the write to it. *)
Definition blankTarget (spans : gmap string MergeSpanInfo) (rows : list TableRow)
    (cid : CellId) (x : CellObject) : bool :=
  match findCell rows (id_row cid) (id_col cid) with
  | Some t => negb (isCellHidden t spans) && reached (id_row cid) (id_col cid) t x
  | None => false
  end.

(** The cells that blank and unblank write to. *)
Definition blankTargets (spans : gmap string MergeSpanInfo) (rows : list TableRow)
    (selected : list CellId) (x : CellObject) : bool :=
  existsb (λ cid, blankTarget spans rows cid x) selected.

(** ** Autofill commit *)

(** The run that the release of an autofill drag computes from the drag
    state. *)
Definition commitCells (st : State) : list FillCell :=
  let d := autofillDrag st in
  getAutofillCells (tableRows st) (mergeSpans st) (sourceRow d) (sourceCol d)
    (if bool_decide (direction d = Some horizontal) then sourceRow d else currentRow d)
    (if bool_decide (direction d = Some vertical) then sourceCol d else currentCol d)
    (direction d).

Definition fillId (fc : FillCell) : CellId := cellId (fill_row fc) (fill_col fc).

(** ** Saved snapshots *)

(** The [tableData] that [saveToBackend] serialises, as [JSON.parse] reads
    its serialisation back: every property of every cell and row is
    present, and a NaN counter, written as [null], is no number. *)
Definition savedCell (cell : CellObject) : RawCell :=
  {| raw_sequenceNumber := Some (sequenceNumber cell);
     raw_isBlocked := Some (isBlocked cell);
     raw_isMerged := Some (isMerged cell);
     raw_mergeId := Some (mergeId cell);
     raw_isBlank := Some (isBlank cell);
     raw_rowIndex := Some (rowIndex cell);
     raw_columnIndex := Some (columnIndex cell) |}.

Definition savedRow (row : TableRow) : RawRow :=
  {| raw_row_rowIndex := Some (row_rowIndex row);
     raw_cells := Some (savedCell <$> cells row) |}.

Definition savedNumber (n : jsnum) : option Z :=
  match n with
  | Num z => Some z
  | _ => None
  end.

Definition savedTableData (rows : list TableRow) (rowCnt colCnt : jsnum) : RawTable :=
  {| raw_rows := savedNumber rowCnt;
     raw_columns := savedNumber colCnt;
     raw_tableRows := Some (savedRow <$> rows) |}.

(** The indices of the rows and cells are their 1-based positions in the
    arrays, and the ids are made of them. *)
Definition positional (rows : list TableRow) : Prop :=
  ∀ (i : nat) row, rows !! i = Some row →
    row_rowIndex row = Z.of_nat i + 1
    ∧ ∀ (j : nat) cell, cells row !! j = Some cell →
        rowIndex cell = Z.of_nat i + 1
        ∧ columnIndex cell = Z.of_nat j + 1
        ∧ id cell = cellId (Z.of_nat i + 1) (Z.of_nat j + 1).

(** The cell as it is loaded again: an empty sequence number is replaced
    by a dash. *)
Definition dashed (cell : CellObject) : CellObject :=
  if truthy (sequenceNumber cell) then cell else withSequenceNumber "-" cell.

(** The test of one write of the autofill commit on the cell [x] found at
    [(r, c)]: [x] is written when [(r, c)] is the fill position, or when the
    cell at the fill position is merged with a merge id that [x] carries. *)
Definition fillHits (rows : list TableRow) (fc : FillCell) (r c : Z) (x : CellObject)
    : bool :=
  match findCell rows (fill_row fc) (fill_col fc) with
  | Some t =>
      bool_decide (r = fill_row fc ∧ c = fill_col fc)
      || isMerged t && truthy (mergeId t) && bool_decide (mergeId x = mergeId t)
  | None => false
  end.

Definition fillWrite (rows : list TableRow) (fc : FillCell) (r c : Z)
    (x y : CellObject) : CellObject :=
  if fillHits rows fc r c x then withSequenceNumber (js_String (fill_value fc)) y else y.

(** The drag of [dragFromCentre] moved over cell (2,3). *)
Definition dragToTheRight : State := handleCellMouseEnterAutofill 2 3 dragFromCentre.

(** ** Statistics of a state *)

(** The statistics of a grid with the merge spans computed from it, as the
    component passes them to [updateCellStatistics]. *)
Definition statisticsOf (rows : list TableRow) : Statistics :=
  updateCellStatistics rows (computeMergeSpans rows).

(** [y] is [x] up to its sequence number, up to its blocked flag, up to its
    blank flag. *)
Definition sameButValue (x y : CellObject) : Prop :=
  sameFrame x y ∧ isBlocked y = isBlocked x ∧ isBlank y = isBlank x.

Definition sameButBlocked (x y : CellObject) : Prop :=
  sameFrame x y ∧ isBlank y = isBlank x.

Definition sameButBlank (x y : CellObject) : Prop :=
  sameFrame x y ∧ isBlocked y = isBlocked x.

(** * Properties *)

(** ** Merge identifiers *)

(** C10: [createMergeId] is not injective on rectangles.  The rectangle
    rows 1-1 x columns 1-11 and the rectangle rows 1-11 x columns 1-1 both
    get the id "11111", also when they are merged by [mergeCells] on an
    11 x 11 grid; hence two merge groups made from different rectangles can
    carry the same [mergeId]. *)
Theorem createMergeId_not_injective :
  createMergeId 1 1 1 11 = "11111"
  ∧ createMergeId 1 1 11 1 = "11111"
  ∧ mergeIdAt (fst (mergeCells (dragOnFreshGrid 11 11 1 1 1 11))) 1 11 = Some "11111"
  ∧ mergeIdAt (fst (mergeCells (dragOnFreshGrid 11 11 1 1 11 1))) 11 1 = Some "11111"
  ∧ ¬ (∀ r1 c1 r2 c2 r1' c1' r2' c2',
         1 ≤ r1 ≤ r2 → r2 ≤ 100 → 1 ≤ c1 ≤ c2 → c2 ≤ 100 →
         1 ≤ r1' ≤ r2' → r2' ≤ 100 → 1 ≤ c1' ≤ c2' → c2' ≤ 100 →
         createMergeId r1 c1 r2 c2 = createMergeId r1' c1' r2' c2' →
         (r1, c1, r2, c2) = (r1', c1', r2', c2')).
Proof.
  repeat split; try (vm_compute; reflexivity).
  intros Hinj.
  assert (Heq : (1, 1, 1, 11) = (1, 1, 11, 1)).
  { apply Hinj; try lia. vm_compute; reflexivity. }
  discriminate Heq.
Qed.

(** ** Direction of an autofill drag *)

(** C7: during an active autofill drag, entering cell [(r, c)] sets the
    direction to horizontal when the cell is in the source row and another
    column, to vertical when it is in the source column and another row;
    when both coordinates differ, to horizontal exactly when the absolute
    column delta is at least the absolute row delta and to vertical
    otherwise; and to no direction when the cell is the source. *)
Theorem autofill_direction_inference (st : State) (r c : Z) :
  active (autofillDrag st) = true →
  let sr := sourceRow (autofillDrag st) in
  let sc := sourceCol (autofillDrag st) in
  let d := direction (autofillDrag (handleCellMouseEnterAutofill r c st)) in
  (r = sr → c ≠ sc → d = Some horizontal)
  ∧ (c = sc → r ≠ sr → d = Some vertical)
  ∧ (r ≠ sr → c ≠ sc →
     (Z.abs (r - sr) ≤ Z.abs (c - sc) → d = Some horizontal)
     ∧ (Z.abs (c - sc) < Z.abs (r - sr) → d = Some vertical))
  ∧ (r = sr → c = sc → d = None).
Proof.
  intros Hact sr sc d. subst d sr sc.
  unfold handleCellMouseEnterAutofill. rewrite Hact. simpl.
  destruct (autofillDrag st) as [a sr sc sv dir cr cc] eqn:Hd. simpl.
  destruct st; simpl in *.
  repeat split; intros;
    repeat match goal with
      | |- context [?x =? ?y] => destruct (Z.eqb_spec x y)
      | |- context [?x <=? ?y] => destruct (Z.leb_spec x y)
      end; simpl; try reflexivity; try lia.
Qed.

Lemma autofill_direction_inference_witness :
  direction (autofillDrag (handleCellMouseEnterAutofill 3 3 dragFromCentre))
  = Some horizontal.
Proof.
  refine (proj1 (proj1 (proj2 (proj2
            (autofill_direction_inference dragFromCentre 3 3 _))) _ _) _);
    vm_compute; congruence.
Defined.

(** ** Dimension limits *)

Lemma length_arrayFrom {A : Type} (n : jsnum) (f : Z → A) :
  length (arrayFrom n f) = arrayLength n.
Proof. unfold arrayFrom. by rewrite length_map, length_seq. Qed.

Lemma length_newTable (rows cols : jsnum) :
  length (newTable rows cols) = arrayLength rows.
Proof. apply length_arrayFrom. Qed.

Lemma newTable_row_lengths (rows cols : jsnum) :
  Forall (λ row, length (cells row) = arrayLength cols) (newTable rows cols).
Proof.
  unfold newTable, arrayFrom. apply Forall_forall. intros row Hin.
  apply list_elem_of_fmap in Hin as (idx & -> & _). simpl.
  by rewrite length_map, length_seq.
Qed.

Lemma newTable_default_cells (rows cols : jsnum) :
  Forall (λ cell, cell = defaultCell (rowIndex cell) (columnIndex cell))
         (allCells (newTable rows cols)).
Proof.
  apply Forall_forall. intros cell Hin. unfold allCells in Hin.
  apply list_elem_of_bind in Hin as (row & Hcell & Hrow).
  unfold newTable, arrayFrom in Hrow.
  apply list_elem_of_fmap in Hrow as (idx & -> & _). simpl in Hcell.
  apply list_elem_of_fmap in Hcell as (cidx & -> & _). reflexivity.
Qed.

Lemma find_arrayFrom_go {A : Type} (key : A → Z) (g : nat → A) (i : Z) (s len : nat) :
  (∀ idx, key (g idx) = Z.of_nat idx + 1) →
  List.find (λ x, key x =? i) (g <$> seq s len)
  = if bool_decide (Z.of_nat s + 1 ≤ i ≤ Z.of_nat s + Z.of_nat len)
    then Some (g (Z.to_nat (i - 1))) else None.
Proof.
  intros Hkey. revert s. induction len as [|len IH]; intros s.
  { simpl. rewrite bool_decide_eq_false_2; [done | lia]. }
  cbn [seq fmap list_fmap List.find]. rewrite Hkey.
  destruct (Z.eqb_spec (Z.of_nat s + 1) i) as [<-|Hne].
  - rewrite bool_decide_eq_true_2 by lia. do 2 f_equal. lia.
  - change (list_fmap nat A g (seq (S s) len)) with (g <$> seq (S s) len).
    rewrite IH. destruct (decide (Z.of_nat s + 1 ≤ i ≤ Z.of_nat s + Z.of_nat (S len))).
    + rewrite !bool_decide_eq_true_2 by lia. done.
    + rewrite !bool_decide_eq_false_2 by lia. done.
Qed.

Lemma find_arrayFrom {A : Type} (key : A → Z) (f : Z → A) (n i : Z) :
  (∀ k, key (f k) = k) →
  List.find (λ x, key x =? i) (arrayFrom (Num n) f)
  = if bool_decide (1 ≤ i ≤ n) then Some (f i) else None.
Proof.
  intros Hkey. unfold arrayFrom.
  rewrite (find_arrayFrom_go key (λ idx, f (Z.of_nat idx + 1))) by (intros; apply Hkey).
  simpl. destruct (decide (1 ≤ i ≤ n)).
  - rewrite !bool_decide_eq_true_2 by lia. do 2 f_equal. lia.
  - rewrite !bool_decide_eq_false_2 by lia. done.
Qed.

Lemma findCell_newTable (r c i j : Z) :
  findCell (newTable (Num r) (Num c)) i j
  = if bool_decide (1 ≤ i ≤ r ∧ 1 ≤ j ≤ c) then Some (defaultCell i j) else None.
Proof.
  unfold findCell, newTable.
  rewrite (find_arrayFrom row_rowIndex) by done.
  destruct (decide (1 ≤ i ≤ r)) as [Hi|Hi].
  - rewrite bool_decide_eq_true_2 by done. simpl.
    rewrite (find_arrayFrom columnIndex) by done.
    destruct (decide (1 ≤ j ≤ c)).
    + rewrite !bool_decide_eq_true_2 by done. done.
    + rewrite !bool_decide_eq_false_2 by tauto. done.
  - rewrite !bool_decide_eq_false_2 by tauto. done.
Qed.

Lemma generateTable_rejects (st : State) :
  inRange (rowCount st) && inRange (columnCount st) = false →
  ∃ a, generateTable st = (st, Some a).
Proof.
  unfold generateTable, inRange.
  destruct (rowCount st) as [|r|[]], (columnCount st) as [|c|[]]; simpl; eauto;
    try (destruct (Z.leb_spec r 0); simpl; eauto;
         destruct (Z.ltb_spec 100 r); simpl; eauto; fail);
    try (destruct (Z.leb_spec c 0); simpl; eauto;
         destruct (Z.ltb_spec 100 c); simpl; eauto; fail).
  destruct (Z.leb_spec r 0), (Z.leb_spec c 0); simpl; eauto.
  destruct (Z.ltb_spec 100 r), (Z.ltb_spec 100 c); simpl; eauto.
  intros Hrange. apply andb_false_iff in Hrange as [Hrange|Hrange];
    apply andb_false_iff in Hrange as [Hrange|Hrange];
    apply Z.leb_gt in Hrange; lia.
Qed.

Lemma generateTable_accepts (st : State) :
  inRange (rowCount st) && inRange (columnCount st) = true →
  generateTable st = (createNewTable (rowCount st) (columnCount st) st, None)
  ∧ tableRows (createNewTable (rowCount st) (columnCount st) st)
    = newTable (rowCount st) (columnCount st).
Proof.
  intros Hrange. apply andb_true_iff in Hrange as [H1 H2].
  unfold generateTable, createNewTable, inRange in *.
  destruct (rowCount st) as [|r|] eqn:Hr, (columnCount st) as [|c|] eqn:Hc;
    simpl; try done.
  apply andb_true_iff in H1 as [H1 H1'], H2 as [H2 H2'].
  apply Z.leb_le in H1, H1', H2, H2'.
  destruct (Z.leb_spec r 0), (Z.leb_spec c 0); try lia. simpl.
  destruct (Z.ltb_spec 100 r), (Z.ltb_spec 100 c); try lia. simpl.
  split; [reflexivity|]. by destruct st.
Qed.

(** The ceiling where the code checks it: creating a grid from the
    dimension inputs with a row or column counter outside [1, 100] (NaN
    included) raises an alert and changes nothing, whether the creation is
    direct or follows the host's generate action (then only the pending
    flag is cleared); counters within the range create the grid of that
    size.  [addRow] and [addColumn] raise an alert and change nothing when
    the counter would pass 100, and otherwise grow the counter and the grid
    by one. *)
Lemma dimension_ceiling (st : State) :
  (inRange (rowCount st) && inRange (columnCount st) = false →
     (∃ a, applyDimensions false st = (st, Some a))
     ∧ (pendingGenerate st = true →
        ∃ a, generateResultEffect (Some true) st
             = (setPendingGenerate false st, Some a)))
  ∧ (inRange (rowCount st) && inRange (columnCount st) = true →
     ∃ st', applyDimensions false st = (st', None)
       ∧ length (tableRows st') = arrayLength (rowCount st)
       ∧ Forall (λ row, length (cells row) = arrayLength (columnCount st))
                (tableRows st'))
  ∧ (∀ n, rowCount st = Num n →
     (100 < n + 1 → addRow st = Some (st, Some Maximum100Rows))
     ∧ (n + 1 ≤ 100 →
        ∃ st', addRow st = Some (st', None)
          ∧ rowCount st' = Num (n + 1)
          ∧ length (tableRows st') = S (length (tableRows st))))
  ∧ (∀ n, columnCount st = Num n →
     (100 < n + 1 → addColumn st = Some (st, Some Maximum100Columns))
     ∧ (n + 1 ≤ 100 →
        ∃ st', addColumn st = Some (st', None)
          ∧ columnCount st' = Num (n + 1)
          ∧ Forall2 (λ row row', length (cells row') = S (length (cells row)))
                    (tableRows st) (tableRows st'))).
Proof.
  split; [|split; [|split]].
  - intros Hout. split.
    + simpl. by apply generateTable_rejects.
    + intros Hp. unfold generateResultEffect. rewrite Hp. simpl.
      apply (generateTable_rejects (setPendingGenerate false st)).
      by destruct st.
  - intros Hin. destruct (generateTable_accepts st Hin) as [Hgen Hrows].
    eexists. split; [exact Hgen|]. rewrite Hrows.
    split; [apply length_newTable | apply newTable_row_lengths].
  - intros n Hn. unfold addRow. rewrite Hn. simpl. split; intros Hle.
    + destruct (Z.ltb_spec 100 (n + 1)); [reflexivity | lia].
    + destruct (Z.ltb_spec 100 (n + 1)); [lia|].
      eexists. split; [reflexivity|]. destruct st; simpl.
      split; [reflexivity|]. rewrite length_app. simpl. lia.
  - intros n Hn. unfold addColumn. rewrite Hn. simpl. split; intros Hle.
    + destruct (Z.ltb_spec 100 (n + 1)); [reflexivity | lia].
    + destruct (Z.ltb_spec 100 (n + 1)); [lia|].
      eexists. split; [reflexivity|]. destruct st; simpl.
      split; [reflexivity|].
      apply Forall2_fmap_r, Forall_Forall2_diag, Forall_forall.
      intros row _. simpl. rewrite length_app. simpl. lia.
Qed.

Lemma dimension_ceiling_witness :
  (∃ a, applyDimensions false (initialState (Num 101) (Num 3))
        = (initialState (Num 101) (Num 3), Some a))
  ∧ (∃ st', applyDimensions false (initialState (Num 100) (Num 100)) = (st', None)
       ∧ length (tableRows st') = 100%nat
       ∧ Forall (λ row, length (cells row) = 100%nat) (tableRows st'))
  ∧ addRow (initialState (Num 100) (Num 3))
    = Some (initialState (Num 100) (Num 3), Some Maximum100Rows)
  ∧ addColumn (initialState (Num 3) (Num 100))
    = Some (initialState (Num 3) (Num 100), Some Maximum100Columns).
Proof.
  split; [|split; [|split]].
  - apply (dimension_ceiling (initialState (Num 101) (Num 3))). reflexivity.
  - apply (dimension_ceiling (initialState (Num 100) (Num 100))). reflexivity.
  - apply (dimension_ceiling (initialState (Num 100) (Num 3))) with (n := 100);
      [reflexivity | lia].
  - apply (dimension_ceiling (initialState (Num 3) (Num 100))) with (n := 100);
      [reflexivity | lia].
Defined.

(** C8: the ceiling is not enforced where the grid is created for a
    component without data.  A component mounted with a row counter of
    101 and no data holds that counter unchecked; the creation from the
    dimension inputs refuses it with the alert of the maximum, and so does
    [addRow], but the timer of the fallback effect hands the counters to
    [createNewTable], which only refuses counts that are not positive: a
    grid of 101 rows is created. *)
Theorem fallback_ignores_ceiling :
  let st := initialState (Num 101) (Num 1) in
  let st' := fallbackEffect st st in
  applyDimensions false st = (st, Some Maximum100RowsAnd100Columns)
  ∧ addRow st = Some (st, Some Maximum100Rows)
  ∧ inRange (rowCount st) = false
  ∧ dataLoaded st' = true
  ∧ rowCount st' = Num 101
  ∧ length (tableRows st') = 101%nat
  ∧ findCell (tableRows st') 101 1
    = Some (mkCell (cellId 101 1) "-" false false "" false 101 1).
Proof. vm_compute. done. Qed.

(** ** Statistics *)

Lemma foldl_count_cells (P : CellObject → Prop) `{!∀ c, Decision (P c)}
    (rows : list TableRow) (n : nat) :
  foldl (λ sum row, sum + length (filter P (cells row)))%nat n rows
  = (n + length (filter P (allCells rows)))%nat.
Proof.
  unfold allCells. revert n. induction rows as [|row rows IH]; intros n.
  - simpl. lia.
  - rewrite bind_cons. cbn [foldl]. rewrite IH, filter_app, length_app. lia.
Qed.

Lemma foldl_count_all (rows : list TableRow) (n : nat) :
  foldl (λ sum row, sum + length (cells row))%nat n rows
  = (n + length (allCells rows))%nat.
Proof.
  unfold allCells. revert n. induction rows as [|row rows IH]; intros n.
  - simpl. lia.
  - rewrite bind_cons. cbn [foldl]. rewrite IH, length_app. lia.
Qed.

Lemma length_filter_split {A : Type} (p : A → bool) (l : list A) :
  length l
  = (length (filter (λ x, p x = false) l) + length (filter (λ x, p x = true) l))%nat.
Proof.
  induction l as [|x l IH]; [reflexivity|].
  rewrite !filter_cons.
  destruct (p x) eqn:Hp; repeat case_decide; try done; simpl; lia.
Qed.

Lemma filter_visible_flag (flag : CellObject → bool) (rows : list TableRow)
    (spans : gmap string MergeSpanInfo) :
  filter (λ c, flag c && negb (isCellHidden c spans) = true) (allCells rows)
  = filter (λ c, flag c = true) (visibleCells rows spans).
Proof.
  unfold visibleCells. rewrite list_filter_filter. apply list_filter_iff.
  intros c. destruct (flag c), (isCellHidden c spans); simpl; intuition congruence.
Qed.

(** C2, as the code has it: [mergedCells] and [blankCells] count visible
    cells only, so that a hidden cell adds to neither; [totalCells] is the
    number of all cells of the grid, the hidden ones included. *)
Theorem statistics_visibility (rows : list TableRow) (spans : gmap string MergeSpanInfo) :
  let stats := updateCellStatistics rows spans in
  mergedCells stats
  = length (filter (λ c, isMerged c = true) (visibleCells rows spans))
  ∧ blankCells stats
    = length (filter (λ c, isBlank c = true) (visibleCells rows spans))
  ∧ totalCells stats
    = (length (visibleCells rows spans) + length (hiddenCells rows spans))%nat.
Proof.
  simpl. split; [|split].
  - rewrite (foldl_count_cells (λ c, isMerged c && negb (isCellHidden c spans) = true)).
    by rewrite filter_visible_flag.
  - rewrite (foldl_count_cells (λ c, isBlank c && negb (isCellHidden c spans) = true)).
    by rewrite filter_visible_flag.
  - rewrite foldl_count_all. simpl.
    apply (length_filter_split (λ c, isCellHidden c spans)).
Qed.

(** [blockedCells] is the number of all cells whose flag is set. *)
Lemma blockedCells_all (rows : list TableRow) (spans : gmap string MergeSpanInfo) :
  blockedCells (updateCellStatistics rows spans)
  = length (filter (λ c, isBlocked c = true) (allCells rows)).
Proof. simpl. by rewrite (foldl_count_cells (λ c, isBlocked c = true)). Qed.

(** C2, counterexample: in [mergedPair] the cell (1,2) is hidden, and it
    is counted by [totalCells] (3 for 2 visible cells) and by
    [blockedCells] (2 for 1 visible blocked cell). *)
Lemma statistics_count_hidden_cells :
  (∃ c, findCell (tableRows mergedPair) 1 2 = Some c
        ∧ isCellHidden c (mergeSpans mergedPair) = true)
  ∧ updateCellStatistics (tableRows mergedPair) (mergeSpans mergedPair)
    = {| totalCells := 3; blockedCells := 2; mergedCells := 1; blankCells := 0 |}
  ∧ length (visibleCells (tableRows mergedPair) (mergeSpans mergedPair)) = 2%nat
  ∧ length (filter (λ c, isBlocked c = true)
              (visibleCells (tableRows mergedPair) (mergeSpans mergedPair))) = 1%nat
  ∧ ¬ countsOnlyVisible (tableRows mergedPair) (mergeSpans mergedPair).
Proof.
  split; [eexists; split; vm_compute; reflexivity|].
  repeat (split; [vm_compute; reflexivity|]).
  intros [Htotal _]. vm_compute in Htotal. discriminate Htotal.
Qed.

(** ** Loading a snapshot *)

Lemma validatedRows_lookup (rawRows : list RawRow) (rows : list TableRow) :
  validatedRows rawRows = Some rows →
  length rows = length rawRows
  ∧ ∀ (i : nat) rawRow, rawRows !! i = Some rawRow →
      ∃ cs, raw_cells rawRow = Some cs
        ∧ rows !! i
          = Some (mkRow (Z.of_nat i + 1)
                        (mapIndexed (validatedCell (Z.of_nat i + 1)) cs)).
Proof.
  unfold validatedRows. intros Hm. split.
  - apply length_mapM in Hm. unfold mapIndexed in Hm.
    by rewrite length_imap in Hm.
  - intros i rawRow Hi. apply mapM_Some_1 in Hm.
    assert (Hl : mapIndexed validatedRow rawRows !! i
                 = Some (validatedRow (Z.of_nat i + 1) rawRow)).
    { unfold mapIndexed. by rewrite list_lookup_imap, Hi. }
    destruct (Forall2_lookup_l _ _ _ _ _ Hm Hl) as (row & Hrow & Hv).
    unfold validatedRow in Hv. destruct (raw_cells rawRow) as [cs|]; [|done].
    simpl in Hv. exists cs. split; [done|]. congruence.
Qed.

Lemma validatedRows_total (rawRows : list RawRow) :
  Forall (λ row, is_Some (raw_cells row)) rawRows →
  is_Some (validatedRows rawRows).
Proof.
  intros Hall. unfold validatedRows. apply mapM_is_Some_2, Forall_lookup.
  intros i o Hi. unfold mapIndexed in Hi. rewrite list_lookup_imap in Hi.
  destruct (rawRows !! i) as [rawRow|] eqn:Hr; [|done]. simpl in Hi.
  injection Hi as <-. rewrite Forall_lookup in Hall.
  destruct (Hall i rawRow Hr) as [cs Hcs]. unfold validatedRow. simpl.
  by rewrite Hcs.
Qed.

Lemma loadEffect_malformed (incoming : Incoming) (st : State) :
  Malformed incoming → loadEffect incoming st = st.
Proof.
  intros [|t Hr|t Hc|t Ht|t rawRows row Ht Hin Hcells]; simpl; try done.
  - destruct (raw_tableRows t); [|done]. by rewrite Hr.
  - destruct (raw_tableRows t); [|done]. rewrite Hc.
    by rewrite andb_false_r.
  - by rewrite Ht.
  - rewrite Ht. destruct (isPositive (raw_rows t) && isPositive (raw_columns t)); [|done].
    destruct (validatedRows rawRows) as [rows|] eqn:Hv; [|done].
    apply validatedRows_lookup in Hv as [_ Hv].
    apply list_elem_of_lookup in Hin as [i Hi].
    destruct (Hv i row Hi) as (cs & Hcs & _). congruence.
Qed.

(** C9: a snapshot with [tableRows], positive [rows] and [columns] and
    cells in every row is accepted, provided [computeMergeSpans] returns on
    its cells: the grid then holds its rows and cells with their 1-based
    array positions as indices and ids (whatever indices the snapshot
    held), absent flags read as [false], an absent merge id as the empty
    string and an absent or empty sequence number as "-"; the counters are
    those of the snapshot, and no default grid is created afterwards.
    Nothing more of the shape is checked: this holds as well for a
    snapshot without any row and for rows of different lengths.  A
    snapshot that does not parse, has no positive [rows] or [columns], has
    no [tableRows], or has a row without [cells] leaves the state as it
    was, and the timer set by a render without grid and without data then
    creates the default grid of the counters of that render. *)
Theorem load_snapshot (st : State) :
  (∀ t rawRows,
     raw_tableRows t = Some rawRows →
     isPositive (raw_rows t) = true → isPositive (raw_columns t) = true →
     Forall (λ row, is_Some (raw_cells row)) rawRows →
     (∀ rows, validatedRows rawRows = Some rows → raisesTypeError rows = false) →
     let st' := loadEffect (Parsed t) st in
     dataLoaded st' = true
     ∧ (∀ st'', fallbackEffect st' st'' = st'')
     ∧ Some (rowCount st') = Num <$> raw_rows t
     ∧ Some (columnCount st') = Num <$> raw_columns t
     ∧ length (tableRows st') = length rawRows
     ∧ ∀ (i : nat) rawRow, rawRows !! i = Some rawRow →
         ∃ row cs, tableRows st' !! i = Some row
           ∧ raw_cells rawRow = Some cs
           ∧ row_rowIndex row = Z.of_nat i + 1
           ∧ length (cells row) = length cs
           ∧ ∀ (j : nat) rc, cs !! j = Some rc →
               ∃ cell, cells row !! j = Some cell
                 ∧ rowIndex cell = Z.of_nat i + 1
                 ∧ columnIndex cell = Z.of_nat j + 1
                 ∧ id cell = cellId (Z.of_nat i + 1) (Z.of_nat j + 1)
                 ∧ isBlocked cell = default false (raw_isBlocked rc)
                 ∧ isMerged cell = default false (raw_isMerged rc)
                 ∧ isBlank cell = default false (raw_isBlank rc)
                 ∧ mergeId cell = default "" (raw_mergeId rc)
                 ∧ (raw_sequenceNumber rc = None → sequenceNumber cell = "-")
                 ∧ (raw_sequenceNumber rc = Some "" → sequenceNumber cell = "-")
                 ∧ (∀ s, raw_sequenceNumber rc = Some s → s ≠ "" →
                      sequenceNumber cell = s))
  ∧ (∀ incoming,
       Malformed incoming →
       loadEffect incoming st = st
       ∧ ∀ r c, dataLoaded st = false → tableRows st = [] →
           rowCount st = Num r → columnCount st = Num c → 0 < r → 0 < c →
           let st' := fallbackEffect st (loadEffect incoming st) in
           length (tableRows st') = Z.to_nat r
           ∧ Forall (λ row, length (cells row) = Z.to_nat c) (tableRows st')
           ∧ (∀ i j, 1 ≤ i ≤ r → 1 ≤ j ≤ c →
                findCell (tableRows st') i j
                = Some (mkCell (cellId i j) "-" false false "" false i j))
           ∧ dataLoaded st' = true).
Proof.
  split.
  - intros t rawRows Ht Hr Hc Hall _ st'. subst st'. simpl. rewrite Ht, Hr, Hc. simpl.
    destruct (validatedRows_total rawRows Hall) as [rows Hrows]. rewrite Hrows.
    destruct (validatedRows_lookup rawRows rows Hrows) as [Hlen Hlook].
    assert (Htr : ∀ s, tableRows
      (setDataLoaded true (setIsSelectionMode false (setSelectedCells []
        (setTableRows rows s)))) = rows) by (by intros []).
    assert (Hdl : ∀ s, dataLoaded (setDataLoaded true s) = true) by (by intros []).
    rewrite Htr, Hdl. split; [done|].
    split; [intros st''; unfold fallbackEffect; by rewrite Hdl|].
    destruct (raw_rows t) as [r|]; [|done]. destruct (raw_columns t) as [c|]; [|done].
    split; [by destruct st|]. split; [by destruct st|]. split; [done|].
    intros i rawRow Hi. destruct (Hlook i rawRow Hi) as (cs & Hcs & Hrow).
    eexists _, cs. split; [exact Hrow|]. split; [done|]. simpl.
    split; [done|]. unfold mapIndexed. rewrite length_imap. split; [done|].
    intros j rc Hj. rewrite list_lookup_imap, Hj. simpl.
    eexists. split; [reflexivity|]. simpl. repeat (split; [reflexivity|]).
    split; [|split].
    + intros ->. reflexivity.
    + intros ->. reflexivity.
    + intros s -> Hs. unfold truthy. by rewrite bool_decide_eq_false_2.
  - intros incoming Hbad. split; [by apply loadEffect_malformed|].
    intros r c Hdl Hrows Hr Hc Hrpos Hcpos st'. subst st'.
    rewrite loadEffect_malformed by done.
    unfold fallbackEffect. rewrite Hdl, Hrows, Hr, Hc. simpl.
    unfold createNewTable. simpl.
    destruct (Z.leb_spec r 0), (Z.leb_spec c 0); try lia. simpl.
    assert (Htr : ∀ s rows, tableRows
      (setDataLoaded true (setIsSelectionMode false (setSelectedCells []
        (setTableRows rows s)))) = rows) by (by intros []).
    rewrite Htr. split; [apply length_newTable|].
    split; [apply (newTable_row_lengths (Num r) (Num c))|]. split; [|by destruct st].
    intros i j Hi Hj. rewrite findCell_newTable.
    by rewrite bool_decide_eq_true_2 by lia.
Qed.

(** The cells loaded from [sampleSnapshot]: positions (1,1) and (1,2),
    whatever the snapshot said. *)
Example load_sample_snapshot :
  tableRows (loadEffect (Parsed sampleSnapshot) (initialState (Num 3) (Num 3)))
  = [mkRow 1 [withSequenceNumber "4" (defaultCell 1 1);
              mkCell (cellId 1 2) "-" false true "1112" false 1 2]].
Proof. vm_compute. reflexivity. Qed.

Lemma load_snapshot_witness :
  (dataLoaded (loadEffect (Parsed sampleSnapshot) (initialState (Num 3) (Num 3))) = true
   ∧ rowCount (loadEffect (Parsed sampleSnapshot) (initialState (Num 3) (Num 3)))
     = Num 1
   ∧ ∃ cell, findCell (tableRows (loadEffect (Parsed sampleSnapshot)
                                    (initialState (Num 3) (Num 3)))) 1 1 = Some cell
       ∧ rowIndex cell = 1 ∧ columnIndex cell = 1 ∧ sequenceNumber cell = "4"
       ∧ isBlocked cell = false)
  ∧ findCell (tableRows (fallbackEffect (initialState (Num 3) (Num 3))
                           (loadEffect (Parsed zeroRowsSnapshot)
                              (initialState (Num 3) (Num 3))))) 3 3
    = Some (mkCell (cellId 3 3) "-" false false "" false 3 3).
Proof.
  split.
  - assert (Hcells : Forall (λ row, is_Some (raw_cells row))
                       (default [] (raw_tableRows sampleSnapshot))).
    { repeat constructor. simpl. eauto. }
    destruct (proj1 (load_snapshot (initialState (Num 3) (Num 3)))
                sampleSnapshot _ eq_refl eq_refl eq_refl Hcells)
      as (Hl & _ & Hr & _ & _ & Hrows).
    { intros rows [= <-]. vm_compute. reflexivity. }
    split; [exact Hl|]. split; [exact (inj Some _ _ Hr)|].
    destruct (Hrows 0%nat _ eq_refl) as (row & cs & Hrow & [= <-] & _ & _ & Hcell).
    destruct (Hcell 0%nat _ eq_refl)
      as (cell & Hc & Hri & Hci & _ & Hb & _ & _ & _ & _ & _ & Hs).
    exists cell. vm_compute in Hrow. injection Hrow as <-.
    vm_compute in Hc. injection Hc as <-. vm_compute. done.
  - destruct (proj2 (load_snapshot (initialState (Num 3) (Num 3)))
                (Parsed zeroRowsSnapshot)
                (malformed_no_rows zeroRowsSnapshot eq_refl)) as [_ Hfb].
    destruct (Hfb 3 3 eq_refl eq_refl eq_refl eq_refl) as (_ & _ & Hcell & _);
      [lia | lia |].
    apply Hcell; lia.
Defined.

(** The shape of an accepted snapshot is not checked against its counts:
    a snapshot that announces three rows and holds none is loaded as an
    empty grid, and no default grid is created in its place. *)
Lemma empty_snapshot_is_accepted :
  let st := initialState (Num 3) (Num 3) in
  let st' := loadEffect (Parsed emptyRowsSnapshot) st in
  raw_tableRows emptyRowsSnapshot = Some []
  ∧ st' ≠ st
  ∧ dataLoaded st' = true
  ∧ tableRows st' = []
  ∧ tableRows (fallbackEffect st' st') = []
  ∧ ¬ rejectedForDefaultGrid (Parsed emptyRowsSnapshot) st.
Proof.
  simpl. split; [reflexivity|]. split; [discriminate|].
  repeat (split; [vm_compute; reflexivity|]).
  intros [Hrej _]. discriminate Hrej.
Qed.

(** So is a snapshot whose rows differ in length. *)
Example ragged_snapshot_is_accepted :
  let st' := loadEffect (Parsed raggedSnapshot) (initialState (Num 3) (Num 3)) in
  dataLoaded st' = true
  ∧ map (λ row, length (cells row)) (tableRows st') = [2%nat; 1%nat].
Proof. vm_compute. done. Qed.

(** ** Rectangles *)

Lemma elem_of_range (lo hi x : Z) : x ∈ range lo hi ↔ lo ≤ x ≤ hi.
Proof. unfold range. rewrite elem_of_seqZ. lia. Qed.

Lemma elem_of_rectangleIds (minRow maxRow minCol maxCol : Z) (cid : CellId) :
  cid ∈ rectangleIds minRow maxRow minCol maxCol
  ↔ minRow ≤ id_row cid ≤ maxRow ∧ minCol ≤ id_col cid ≤ maxCol.
Proof.
  unfold rectangleIds. rewrite list_elem_of_bind. split.
  - intros (r & Hin & Hr). apply list_elem_of_bind in Hin as (c & Hin & Hc).
    apply list_elem_of_singleton in Hin as ->. simpl.
    by rewrite <- !elem_of_range.
  - intros [Hr Hc]. exists (id_row cid). rewrite elem_of_range. split; [|done].
    apply list_elem_of_bind. exists (id_col cid). rewrite elem_of_range.
    split; [|done]. destruct cid. apply list_elem_of_singleton. reflexivity.
Qed.

Lemma foldl_min_spec (l : list Z) (x : Z) :
  (foldl Z.min x l = x ∨ foldl Z.min x l ∈ l)
  ∧ foldl Z.min x l ≤ x ∧ ∀ y, y ∈ l → foldl Z.min x l ≤ y.
Proof.
  revert x. induction l as [|a l IH]; intros x; simpl.
  - split; [by left|]. split; [lia|]. intros y Hy. by apply elem_of_nil in Hy.
  - destruct (IH (Z.min x a)) as (Hin & Hle & Hall). split; [|split].
    + destruct Hin as [Heq|Hin].
      * rewrite Heq. destruct (Z.min_spec x a) as [[_ ->]|[_ ->]];
          [by left | right; left].
      * right. by right.
    + lia.
    + intros y Hy. apply elem_of_cons in Hy as [->|Hy]; [lia | by apply Hall].
Qed.

Lemma foldl_max_spec (l : list Z) (x : Z) :
  (foldl Z.max x l = x ∨ foldl Z.max x l ∈ l)
  ∧ x ≤ foldl Z.max x l ∧ ∀ y, y ∈ l → y ≤ foldl Z.max x l.
Proof.
  revert x. induction l as [|a l IH]; intros x; simpl.
  - split; [by left|]. split; [lia|]. intros y Hy. by apply elem_of_nil in Hy.
  - destruct (IH (Z.max x a)) as (Hin & Hle & Hall). split; [|split].
    + destruct Hin as [Heq|Hin].
      * rewrite Heq. destruct (Z.max_spec x a) as [[_ ->]|[_ ->]];
          [right; left | by left].
      * right. by right.
    + lia.
    + intros y Hy. apply elem_of_cons in Hy as [->|Hy]; [lia | by apply Hall].
Qed.

Lemma Math_min_spec (l : list Z) :
  l ≠ [] → Math_min l ∈ l ∧ ∀ y, y ∈ l → Math_min l ≤ y.
Proof.
  destruct l as [|x l]; [done|]. intros _. simpl.
  destruct (foldl_min_spec l x) as (Hin & Hle & Hall). split.
  - destruct Hin as [->|Hin]; [left | by right].
  - intros y Hy. apply elem_of_cons in Hy as [->|Hy]; [done | by apply Hall].
Qed.

Lemma Math_max_spec (l : list Z) :
  l ≠ [] → Math_max l ∈ l ∧ ∀ y, y ∈ l → y ≤ Math_max l.
Proof.
  destruct l as [|x l]; [done|]. intros _. simpl.
  destruct (foldl_max_spec l x) as (Hin & Hle & Hall). split.
  - destruct Hin as [->|Hin]; [left | by right].
  - intros y Hy. apply elem_of_cons in Hy as [->|Hy]; [done | by apply Hall].
Qed.

Lemma elem_of_boundingRectangle (sel : list CellId) (cid : CellId) :
  sel ≠ [] → cid ∈ boundingRectangle sel ↔ inBoundingRectangle sel cid.
Proof.
  intros Hne. unfold boundingRectangle, inBoundingRectangle.
  rewrite elem_of_rectangleIds.
  assert (Hr : map id_row sel ≠ []) by (by destruct sel).
  assert (Hc : map id_col sel ≠ []) by (by destruct sel).
  destruct (Math_min_spec _ Hr) as [Hr1 Hr2], (Math_max_spec _ Hr) as [Hr3 Hr4].
  destruct (Math_min_spec _ Hc) as [Hc1 Hc2], (Math_max_spec _ Hc) as [Hc3 Hc4].
  split.
  - intros [Hrow Hcol]. split.
    + apply list_elem_of_fmap in Hr1 as (a & Ha & Hain).
      apply list_elem_of_fmap in Hr3 as (b & Hb & Hbin).
      exists a, b. rewrite <- Ha, <- Hb. done.
    + apply list_elem_of_fmap in Hc1 as (a & Ha & Hain).
      apply list_elem_of_fmap in Hc3 as (b & Hb & Hbin).
      exists a, b. rewrite <- Ha, <- Hb. done.
  - intros [(a & b & Ha & Hb & Hrow) (a' & b' & Ha' & Hb' & Hcol)].
    pose proof (Hr2 (id_row a) (list_elem_of_fmap_2 id_row _ _ Ha)).
    pose proof (Hr4 (id_row b) (list_elem_of_fmap_2 id_row _ _ Hb)).
    pose proof (Hc2 (id_col a') (list_elem_of_fmap_2 id_col _ _ Ha')).
    pose proof (Hc4 (id_col b') (list_elem_of_fmap_2 id_col _ _ Hb')).
    lia.
Qed.

(** ** Merge validation *)

Lemma set_has_spec (x : CellId) (s : list CellId) : set_has x s = true ↔ x ∈ s.
Proof. unfold set_has. apply bool_decide_eq_true. Qed.

Lemma truthy_spec (s : string) : truthy s = true ↔ s ≠ "".
Proof.
  unfold truthy. rewrite negb_true_iff. apply bool_decide_eq_false.
Qed.

Lemma rectangleCellOk_spec (st : State) (cid : CellId) :
  rectangleCellOk st cid = true ↔ cid ∈ selectedCells st ∨ coveredByAnchor st cid.
Proof.
  unfold rectangleCellOk, coveredByAnchor.
  destruct (set_has cid (selectedCells st)) eqn:Hsel.
  { apply set_has_spec in Hsel. by intuition. }
  assert (Hnot : cid ∉ selectedCells st).
  { intros Hin. apply set_has_spec in Hin. congruence. }
  destruct (findCell (tableRows st) (id_row cid) (id_col cid)) as [cell|] eqn:Hcell.
  2: { split; [done|]. intros [?|(? & ? & ? & _)]; done. }
  destruct (isMerged cell) eqn:Hm; simpl.
  2: { split; [done|]. intros [?|(c & ? & Hc & Hcm & _)]; [done|]. congruence. }
  destruct (truthy (mergeId cell)) eqn:Ht.
  2: { split; [done|]. intros [?|(c & ? & Hc & _ & Hne & _)]; [done|].
       apply truthy_spec in Hne. congruence. }
  apply truthy_spec in Ht.
  destruct (mergeSpans st !! mergeId cell) as [span|] eqn:Hspan.
  2: { split; [done|]. intros [?|(c & ? & Hc & _ & _ & Hs & _)]; [done|]. congruence. }
  rewrite set_has_spec. split.
  - intros Hin. right. exists cell, span. done.
  - intros [?|(c & s & Hc & _ & _ & Hs & Hin)]; [done|]. congruence.
Qed.

Lemma selectedCells_after_merge (st : State) :
  selectedCells (resetDragState (setIsSelectionMode false (setSelectedCells [] st))) = [].
Proof. by destruct st. Qed.

(** A cell of the bounding rectangle that is not selected: the selection
    has two cells at least. *)
Lemma outside_selection_two_cells (sel : list CellId) (cid : CellId) :
  inBoundingRectangle sel cid → cid ∉ sel → (2 ≤ length sel)%nat.
Proof.
  intros [(a & b & Ha & Hb & Hrow) (a' & b' & Ha' & Hb' & Hcol)] Hnot.
  destruct sel as [|x [|y sel]]; [by apply elem_of_nil in Ha| |simpl; lia].
  apply list_elem_of_singleton in Ha, Hb, Ha', Hb'. subst.
  destruct Hnot. destruct cid as [r c], x as [xr xc]. simpl in *.
  assert (r = xr) as -> by lia. assert (c = xc) as -> by lia. left.
Qed.

(** C3: [mergeCells] goes through exactly when at least two cells are
    selected and every cell of the bounding rectangle of the selection is
    selected or belongs to a merge group whose anchor is selected.  When
    some cell of the rectangle is neither, it raises the rectangular-area
    alert and returns the state it was given: grid and selection are
    unchanged. *)
Theorem merge_validation (st : State) :
  (mergeSucceeds st
   ↔ (2 ≤ length (selectedCells st))%nat
     ∧ ∀ cid, inBoundingRectangle (selectedCells st) cid →
         cid ∈ selectedCells st ∨ coveredByAnchor st cid)
  ∧ ((∃ cid, inBoundingRectangle (selectedCells st) cid
        ∧ (cid ∉ selectedCells st) ∧ ¬ coveredByAnchor st cid) →
     mergeCells st = (st, Some PleaseSelectRectangularArea)).
Proof.
  assert (Hvalid : selectedCells st ≠ [] →
    forallb (rectangleCellOk st) (boundingRectangle (selectedCells st)) = true
    ↔ ∀ cid, inBoundingRectangle (selectedCells st) cid →
        cid ∈ selectedCells st ∨ coveredByAnchor st cid).
  { intros Hne. rewrite forallb_forall. split.
    - intros Hall cid Hin. apply rectangleCellOk_spec, Hall.
      apply list_elem_of_In. by apply elem_of_boundingRectangle.
    - intros Hall cid Hin. apply rectangleCellOk_spec, Hall.
      apply list_elem_of_In in Hin. by apply elem_of_boundingRectangle in Hin. }
  unfold mergeSucceeds, mergeCells. fold (boundingRectangle (selectedCells st)).
  destruct (Nat.ltb_spec (length (selectedCells st)) 2) as [Hlt|Hge].
  { split.
    - split; [|lia]. intros (st' & Heq & Hne & Hemp). injection Heq as <-. done.
    - intros (cid & Hin & Hnsel & _).
      pose proof (outside_selection_two_cells _ _ Hin Hnsel). lia. }
  assert (Hne : selectedCells st ≠ []).
  { intros Heq. rewrite Heq in Hge. simpl in Hge. lia. }
  specialize (Hvalid Hne).
  destruct (forallb (rectangleCellOk st) (boundingRectangle (selectedCells st)))
    eqn:Hall; simpl.
  - split.
    + split.
      * intros _. split; [done|]. by apply Hvalid.
      * intros _. eexists. split; [reflexivity|]. split; [done|].
        apply selectedCells_after_merge.
    + intros (cid & Hin & Hnsel & Hncov).
      destruct (proj1 Hvalid eq_refl cid Hin); done.
  - split; [|done]. split.
    + intros (st' & Heq & _). discriminate Heq.
    + intros [_ Hok]. apply Hvalid in Hok. discriminate Hok.
Qed.

Lemma merge_validation_witness :
  mergeCells cornerSelection = (cornerSelection, Some PleaseSelectRectangularArea)
  ∧ mergeSucceeds squareSelection.
Proof.
  split.
  - apply (proj2 (merge_validation cornerSelection)).
    exists (cellId 2 2). split; [|split].
    + split.
      * exists (cellId 1 1), (cellId 2 1).
        split; [left | split; [right; right; left | vm_compute; intuition congruence]].
      * exists (cellId 1 1), (cellId 1 2).
        split; [left | split; [right; left | vm_compute; intuition congruence]].
    + apply (bool_decide_unpack _). vm_compute. exact I.
    + intros (cell & span & Hfind & Hmerged & _).
      vm_compute in Hfind. injection Hfind as <-. discriminate Hmerged.
  - apply (proj1 (merge_validation squareSelection)). split.
    + vm_compute. lia.
    + intros cid Hin. left.
      apply elem_of_boundingRectangle in Hin; [|done].
      vm_compute in Hin |- *. exact Hin.
Defined.

(** ** Selection and hidden cells *)

Lemma elem_of_set_add (x y : CellId) (s : list CellId) :
  x ∈ set_add y s ↔ x = y ∨ x ∈ s.
Proof.
  unfold set_add. destruct (set_has y s) eqn:Hy.
  - apply set_has_spec in Hy. split; [by right|]. by intros [->|?].
  - rewrite elem_of_app, list_elem_of_singleton. tauto.
Qed.

Lemma elem_of_set_delete (x y : CellId) (s : list CellId) :
  x ∈ set_delete y s ↔ x ≠ y ∧ x ∈ s.
Proof. unfold set_delete. by rewrite list_elem_of_filter. Qed.

Lemma elem_of_set_addAll (x : CellId) (l s : list CellId) :
  x ∈ set_addAll l s ↔ x ∈ l ∨ x ∈ s.
Proof.
  unfold set_addAll. revert s. induction l as [|y l IH]; intros s; simpl.
  - rewrite elem_of_nil. tauto.
  - rewrite IH, elem_of_set_add, elem_of_cons. tauto.
Qed.

Lemma find_unique {A : Type} (f : A → Z) (l : list A) (x : A) :
  NoDup (map f l) → x ∈ l → List.find (λ y, f y =? f x) l = Some x.
Proof.
  induction l as [|y l IH]; intros Hnd Hin; [by apply elem_of_nil in Hin|].
  simpl in *. apply NoDup_cons in Hnd as [Hy Hnd].
  apply elem_of_cons in Hin as [->|Hin].
  - by rewrite Z.eqb_refl.
  - destruct (Z.eqb_spec (f y) (f x)) as [Heq|Hne]; [|by apply IH].
    exfalso. apply Hy. rewrite Heq. by apply list_elem_of_fmap_2.
Qed.

Lemma findCell_wellFormed (rows : list TableRow) (cell : CellObject) :
  wellFormed rows → cell ∈ allCells rows →
  findCell rows (rowIndex cell) (columnIndex cell) = Some cell.
Proof.
  intros [Hrows Hcells] Hin. unfold allCells in Hin.
  apply list_elem_of_bind in Hin as (row & Hcell & Hrow).
  destruct (Hcells row Hrow) as [Hcols Hidx].
  destruct (Hidx cell Hcell) as [Hr _].
  unfold findCell. rewrite Hr.
  rewrite (find_unique row_rowIndex rows row Hrows Hrow). simpl.
  by apply (find_unique columnIndex).
Qed.










(** ** Integer strings *)

Lemma trimEnd_cons (c : ascii) (s : string) :
  trimEnd (String c s)
  = if bool_decide (trimStart (String c s) = "") then "" else String c (trimEnd s).
Proof. reflexivity. Qed.

(** What [trimEnd] removes is white space only. *)
Lemma trimEnd_suffix (s : string) : ∃ w, s = trimEnd s +:+ w ∧ trimStart w = "".
Proof.
  induction s as [|c s (w & IH & Hw)]; [by exists ""|]. rewrite trimEnd_cons.
  destruct (bool_decide (trimStart (String c s) = "")) eqn:Hall.
  - exists (String c s). split; [done|]. by apply bool_decide_eq_true in Hall.
  - exists w. split; [|done].
    change (String c s = String c (trimEnd s +:+ w)). by f_equal.
Qed.

Lemma parseDigits_acc (s : string) (a : Z) : is_Some (parseDigits s (Some a)).
Proof.
  revert a. induction s as [|c s IH]; intros a; simpl; [eauto|].
  destruct (digitValue c); [apply IH | eauto].
Qed.

Lemma allDigits_head (s : string) :
  allDigits s = true → ∃ c s', s = String c s' ∧ is_Some (digitValue c).
Proof.
  destruct s as [|c s']; [done|]. intros Hd. exists c, s'. split; [done|].
  simpl in Hd. destruct s'.
  - by apply bool_decide_eq_true in Hd.
  - apply andb_true_iff in Hd as [Hd _]. by apply bool_decide_eq_true in Hd.
Qed.

Lemma parseDigits_head (c : ascii) (s : string) :
  is_Some (digitValue c) → is_Some (parseDigits (String c s) None).
Proof. intros [d Hd]. simpl. rewrite Hd. apply parseDigits_acc. Qed.

(** A string accepted by [isInteger] is read by [parseInt] as an integer,
    which becomes a number or an infinity. *)
Lemma isInteger_mathInt (s : string) :
  isInteger s = true → ∃ v, mathInt s = Num v.
Proof.
  unfold isInteger, mathInt, trim. intros Hint.
  apply andb_true_iff in Hint as [_ Hm].
  destruct (trimEnd_suffix (trimStart s)) as (w & Hw & _).
  destruct (trimEnd (trimStart s)) as [|c r] eqn:Ht; [done|].
  unfold matchesInteger in Hm.
  change (trimStart s = String c (r +:+ w)) in Hw. rewrite Hw.
  revert Hm. destruct (bool_decide (c = "-"%char)) eqn:Hc; intros Hm.
  - apply allDigits_head in Hm as (d & r' & -> & Hd).
    destruct (parseDigits_head d (r' +:+ w) Hd) as [n Hn].
    change (String d r' +:+ w) with (String d (r' +:+ w)). rewrite Hn. eauto.
  - apply allDigits_head in Hm as (d & r' & [= <- <-] & Hd).
    destruct (bool_decide (c = "+"%char)) eqn:Hplus.
    { apply bool_decide_eq_true in Hplus. subst c. by destruct Hd. }
    destruct (parseDigits_head c (r +:+ w) Hd) as [n Hn]. rewrite Hn. eauto.
Qed.

(** ** Decimal rendering and [parseInt] *)

Lemma digitValue_pretty_N_char (d : N) :
  (d < 10)%N → digitValue (pretty_N_char d) = Some (Z.of_N d).
Proof.
  intros Hd.
  assert (Hcases : d = 0%N ∨ d = 1%N ∨ d = 2%N ∨ d = 3%N ∨ d = 4%N ∨ d = 5%N
                   ∨ d = 6%N ∨ d = 7%N ∨ d = 8%N ∨ d = 9%N) by lia.
  repeat (destruct Hcases as [->|Hcases]; [reflexivity|]). by subst.
Qed.

(** Reading the digits that [pretty_N_go x] puts in front of [s]. *)
Lemma parseDigits_pretty_N_go (x : N) :
  (0 < x)%N → ∀ s acc, ∃ k : nat,
    parseDigits (pretty_N_go x s) acc
    = parseDigits s (Some (default 0 acc * 10 ^ Z.of_nat k + Z.of_N x)).
Proof.
  induction (N.lt_wf_0 x) as [x _ IH]. intros Hx s acc.
  rewrite pretty_N_go_step by done.
  assert (Hmod : (x `mod` 10 < 10)%N) by (apply N.mod_lt; lia).
  assert (Hdiv : Z.of_N x = 10 * Z.of_N (x `div` 10) + Z.of_N (x `mod` 10)).
  { rewrite (N.div_mod x 10) at 1 by lia. lia. }
  destruct (decide (x `div` 10 = 0)%N) as [Hz|Hnz].
  - rewrite Hz, pretty_N_go_0. simpl.
    rewrite digitValue_pretty_N_char by done. exists 1%nat.
    rewrite Hdiv, Hz. f_equal. f_equal. lia.
  - destruct (IH (x `div` 10)%N) with
      (s := String (pretty_N_char (x `mod` 10)) s) (acc := acc) as [k Hk].
    { apply N.div_lt; lia. }
    { by apply N.neq_0_lt_0. }
    rewrite Hk. simpl. rewrite digitValue_pretty_N_char by done.
    exists (S k). f_equal. f_equal. rewrite Hdiv, Nat2Z.inj_succ, Z.pow_succ_r by lia.
    lia.
Qed.

(** The first character that [pretty_N_go x] produces is a digit. *)
Lemma pretty_N_go_head (x : N) :
  (0 < x)%N → ∀ s, ∃ c t, pretty_N_go x s = String c t ∧ is_Some (digitValue c).
Proof.
  induction (N.lt_wf_0 x) as [x _ IH]. intros Hx s.
  rewrite pretty_N_go_step by done.
  destruct (decide (x `div` 10 = 0)%N) as [Hz|Hnz].
  - rewrite Hz, pretty_N_go_0. eexists _, _. split; [reflexivity|].
    rewrite digitValue_pretty_N_char by (apply N.mod_lt; lia). eauto.
  - apply IH; [apply N.div_lt; lia | by apply N.neq_0_lt_0].
Qed.

Lemma digit_not_space (c : ascii) : is_Some (digitValue c) → isWhiteSpace c = false.
Proof.
  unfold digitValue, isWhiteSpace. intros [d Hd].
  destruct ((48 <=? nat_of_ascii c) && (nat_of_ascii c <=? 57))%nat eqn:Hr; [|done].
  apply andb_true_iff in Hr as [H1 H2].
  apply Nat.leb_le in H1, H2.
  apply orb_false_iff. split.
  - apply andb_false_iff. right. apply Nat.leb_gt. lia.
  - apply Nat.eqb_neq. lia.
Qed.

Lemma trimStart_head (c : ascii) (t : string) :
  isWhiteSpace c = false → (nat_of_ascii c < 194)%nat →
  trimStart (String c t) = String c t.
Proof.
  intros Hc Hlt. cbn [trimStart]. rewrite Hc.
  assert (H2 : ∀ b, isWhiteSpace2 c b = false).
  { intros b. unfold isWhiteSpace2. apply andb_false_iff. left.
    apply Nat.eqb_neq. lia. }
  assert (H3 : ∀ b d, isWhiteSpace3 c b d = false).
  { intros b d. unfold isWhiteSpace3. cbv zeta.
    destruct (Nat.eqb_spec (nat_of_ascii c) 225); [lia|].
    destruct (Nat.eqb_spec (nat_of_ascii c) 226); [lia|].
    destruct (Nat.eqb_spec (nat_of_ascii c) 227); [lia|].
    destruct (Nat.eqb_spec (nat_of_ascii c) 239); [lia|]. reflexivity. }
  destruct t as [|b [|d t]]; rewrite ?H2, ?H3; reflexivity.
Qed.

Lemma digit_code (c : ascii) :
  is_Some (digitValue c) → (48 ≤ nat_of_ascii c ≤ 57)%nat.
Proof.
  unfold digitValue. intros [d Hd].
  destruct ((48 <=? nat_of_ascii c) && (nat_of_ascii c <=? 57))%nat eqn:Hr; [|done].
  apply andb_true_iff in Hr as [H1 H2]. apply Nat.leb_le in H1, H2. lia.
Qed.

Lemma trimStart_digit (c : ascii) (t : string) :
  is_Some (digitValue c) → trimStart (String c t) = String c t.
Proof.
  intros Hc. apply trimStart_head; [by apply digit_not_space|].
  apply digit_code in Hc. lia.
Qed.

Lemma trimStart_minus (t : string) : trimStart (String "-"%char t) = String "-"%char t.
Proof. apply trimStart_head; [reflexivity | by apply Nat.ltb_lt]. Qed.

Lemma mathInt_positive (p : positive) : mathInt (pretty (Z.pos p)) = Num (Z.pos p).
Proof.
  change (pretty (Z.pos p)) with (pretty_N_go (N.pos p) "").
  destruct (pretty_N_go_head (N.pos p)) with (s := "") as (c & t & Heq & Hc); [lia|].
  destruct (parseDigits_pretty_N_go (N.pos p)) with (s := "") (acc := @None Z)
    as [k Hk]; [lia|].
  unfold mathInt. rewrite Heq in *. rewrite (trimStart_digit c t Hc).
  assert (Hminus : bool_decide (c = "-"%char) = false).
  { apply bool_decide_eq_false. intros ->. by destruct Hc. }
  assert (Hplus : bool_decide (c = "+"%char) = false).
  { apply bool_decide_eq_false. intros ->. by destruct Hc. }
  rewrite Hminus, Hplus, Hk. simpl. f_equal; lia.
Qed.

(** The decimal rendering of an integer is read back as that integer. *)
Lemma mathInt_pretty (z : Z) : mathInt (pretty z) = Num z.
Proof.
  destruct z as [|p|p].
  - reflexivity.
  - apply mathInt_positive.
  - destruct (pretty_N_go_head (N.pos p)) with (s := "") as (c & t & Heq & Hc); [lia|].
    assert (Hminus : bool_decide (c = "-"%char) = false).
    { apply bool_decide_eq_false. intros ->. by destruct Hc. }
    assert (Hplus : bool_decide (c = "+"%char) = false).
    { apply bool_decide_eq_false. intros ->. by destruct Hc. }
    assert (Hd : parseDigits (String c t) None = Some (Z.pos p)).
    { pose proof (mathInt_positive p) as Hp. unfold mathInt in Hp.
      change (pretty (Z.pos p)) with (pretty_N_go (N.pos p) "") in Hp.
      rewrite Heq in Hp. rewrite (trimStart_digit c t Hc) in Hp.
      rewrite Hminus, Hplus in Hp.
      destruct (parseDigits (String c t) None) as [n|]; [|done].
      injection Hp as Hn. f_equal; lia. }
    unfold mathInt.
    change (pretty (Z.neg p)) with (String "-"%char (pretty_N_go (N.pos p) "")).
    rewrite Heq, trimStart_minus.
    cbv beta iota zeta. rewrite bool_decide_eq_true_2 by done.
    cbv beta iota zeta. by rewrite Hd.
Qed.

(** ** The autofill run *)

Lemma isFillable_spec (cell : CellObject) (spans : gmap string MergeSpanInfo) :
  isFillable cell spans = true
  ↔ isBlank cell = false ∧ isCellHidden cell spans = false.
Proof.
  unfold isFillable. destruct (isBlank cell), (isCellHidden cell spans); intuition.
Qed.

(** What one loop of [getAutofillCells] returns: the cells at the first
    [m] loop values, numbered from [counter] on, where [m] is the whole
    range or the first loop value whose cell is missing or not fillable. *)
Lemma fillLoop_spec (getCell : Z → Z → option CellObject)
    (spans : gmap string MergeSpanInfo) (startVal : jsnum) (at_ : Z → Z * Z)
    (step : Z) (n : nat) (i counter : Z) :
  ∃ m : nat, (m ≤ n)%nat
    ∧ fillLoop getCell spans startVal at_ i step counter n
      = (λ k : nat, mkFill (at_ (i + Z.of_nat k * step)).1
                           (at_ (i + Z.of_nat k * step)).2
                           (js_add startVal (Num (counter + Z.of_nat k))))
        <$> seq 0 m
    ∧ (∀ k : nat, (k < m)%nat →
         ∃ cell, getCell (at_ (i + Z.of_nat k * step)).1 (at_ (i + Z.of_nat k * step)).2
                 = Some cell
           ∧ isFillable cell spans = true)
    ∧ ((m < n)%nat →
         getCell (at_ (i + Z.of_nat m * step)).1 (at_ (i + Z.of_nat m * step)).2 = None
         ∨ ∃ cell, getCell (at_ (i + Z.of_nat m * step)).1
                           (at_ (i + Z.of_nat m * step)).2 = Some cell
             ∧ isFillable cell spans = false).
Proof.
  revert i counter. induction n as [|n IH]; intros i counter.
  { exists O. simpl. repeat split; [lia..]. }
  simpl. destruct (at_ i) as [r c] eqn:Hat.
  assert (Hat0 : at_ (i + Z.of_nat 0 * step) = (r, c)).
  { by replace (i + Z.of_nat 0 * step) with i by lia. }
  destruct (getCell r c) as [cell|] eqn:Hcell.
  2: { exists O. rewrite Hat0. simpl. repeat split; [lia | lia | by left]. }
  destruct (isFillable cell spans) eqn:Hfill; simpl.
  2: { exists O. rewrite Hat0. simpl. repeat split; [lia | lia |]. right. eauto. }
  destruct (IH (i + step) (counter + 1)) as (m & Hm & Hrun & Hok & Hstop).
  assert (Hshift : ∀ k : nat,
            i + step + Z.of_nat k * step = i + Z.of_nat (S k) * step) by lia.
  exists (S m). split; [lia|]. split; [|split].
  - rewrite Hrun. cbn [seq fmap list_fmap]. rewrite Hat0. simpl.
    replace (counter + Z.of_nat 0) with counter by lia. f_equal.
    rewrite <- fmap_S_seq, <- list_fmap_compose. apply list_fmap_ext.
    intros _ k _. simpl. rewrite Hshift.
    replace (counter + 1 + Z.of_nat k) with (counter + Z.of_nat (S k)) by lia.
    reflexivity.
  - intros [|k] Hk.
    + rewrite Hat0. simpl. eauto.
    + rewrite <- Hshift. apply Hok. lia.
  - intros Hlt. rewrite <- Hshift. apply Hstop. lia.
Qed.


(** *** Numbers within the safe integers *)

Lemma toDouble_safe (z : Z) : safeInteger z → toDouble z = Num z.
Proof.
  unfold safeInteger, toDouble. intros Hz.
  by destruct (Z.ltb_spec (Z.abs z) (2 ^ 53)); [|lia].
Qed.

Lemma js_add_safe (x y : Z) : safeInteger (x + y) → js_add (Num x) (Num y) = Num (x + y).
Proof. intros Hs. simpl. by apply toDouble_safe. Qed.

Lemma toDouble_not_NaN (z : Z) : toDouble z ≠ NaN.
Proof.
  unfold toDouble. destruct (Z.abs z <? 2 ^ 53); [done|].
  by destruct (2 ^ 1024 <=? _).
Qed.

(** *** The integer that a string denotes *)

Lemma string_app_assoc (a b c : string) : (a +:+ b) +:+ c = a +:+ (b +:+ c).
Proof.
  induction a as [|x a IH]; [done|].
  change (String x ((a +:+ b) +:+ c) = String x (a +:+ (b +:+ c))). by f_equal.
Qed.

Lemma string_app_nil_r (a : string) : a +:+ "" = a.
Proof.
  induction a as [|x a IH]; [done|].
  change (String x (a +:+ "") = String x a). by f_equal.
Qed.

Lemma pretty_N_go_app (x : N) (s : string) :
  pretty_N_go x s = pretty_N_go x "" +:+ s.
Proof.
  revert s. induction (N.lt_wf_0 x) as [x _ IH]. intros s.
  destruct (decide (x = 0)%N) as [->|Hx]; [by rewrite !pretty_N_go_0|].
  assert (Hlt : (x `div` 10 < x)%N) by (apply N.div_lt; lia).
  rewrite !(pretty_N_go_step x) by lia.
  rewrite (IH _ Hlt (String _ s)), (IH _ Hlt (String _ "")).
  rewrite string_app_assoc. reflexivity.
Qed.

Lemma digit_char (c : ascii) (d : Z) :
  digitValue c = Some d → 0 ≤ d < 10 ∧ c = pretty_N_char (Z.to_N d).
Proof.
  intros Hd. pose proof (digit_code c (mk_is_Some _ _ Hd)) as Hcode.
  unfold digitValue in Hd.
  destruct ((48 <=? nat_of_ascii c) && (nat_of_ascii c <=? 57))%nat; [|done].
  injection Hd as <-. split; [lia|].
  rewrite <- (ascii_nat_embedding c).
  assert (Hcases : (nat_of_ascii c = 48 ∨ nat_of_ascii c = 49 ∨ nat_of_ascii c = 50
                    ∨ nat_of_ascii c = 51 ∨ nat_of_ascii c = 52 ∨ nat_of_ascii c = 53
                    ∨ nat_of_ascii c = 54 ∨ nat_of_ascii c = 55 ∨ nat_of_ascii c = 56
                    ∨ nat_of_ascii c = 57)%nat) by lia.
  repeat (destruct Hcases as [->|Hcases]; [reflexivity|]). by rewrite Hcases.
Qed.

(** Appending a digit to the rendering of a positive number. *)
Lemma pretty_snoc (a : Z) (c : ascii) (d : Z) :
  0 < a → digitValue c = Some d →
  pretty a +:+ String c "" = pretty (10 * a + d).
Proof.
  intros Ha Hd. apply digit_char in Hd as [Hrange ->].
  destruct a as [|p|p]; [lia| |lia].
  assert (Hpos : 0 < 10 * Z.pos p + d) by lia.
  destruct (10 * Z.pos p + d) as [|q|q] eqn:Hq; [lia| |lia].
  change (pretty (Z.pos p)) with (pretty_N_go (N.pos p) "").
  change (pretty (Z.pos q)) with (pretty_N_go (N.pos q) "").
  rewrite (pretty_N_go_step (N.pos q)) by lia.
  assert (Hdiv : (N.pos q `div` 10 = N.pos p)%N).
  { apply N2Z.inj. rewrite N2Z.inj_div. simpl Z.of_N. rewrite <- Hq.
    symmetry. apply (Z.div_unique_pos _ _ _ d); lia. }
  assert (Hmod : (N.pos q `mod` 10 = Z.to_N d)%N).
  { apply N2Z.inj. rewrite N2Z.inj_mod, Z2N.id by lia. simpl Z.of_N. rewrite <- Hq.
    symmetry. apply (Z.mod_unique_pos _ _ (Z.pos p)); lia. }
  rewrite Hdiv, Hmod. symmetry. apply pretty_N_go_app.
Qed.

(** Digits appended to the rendering of a positive number render a
    positive number. *)
Lemma pretty_digits (ds : string) :
  ds = "" ∨ allDigits ds = true →
  ∀ a, 0 < a → ∃ m, 0 < m ∧ pretty a +:+ ds = pretty m.
Proof.
  induction ds as [|c ds IH]; intros Hds a Ha.
  { exists a. split; [done|]. apply string_app_nil_r. }
  destruct Hds as [?|Hds]; [done|].
  destruct (allDigits_head _ Hds) as (c' & ds' & [= <- <-] & [d Hd]).
  destruct (digit_char _ _ Hd) as [Hrange _].
  destruct (IH) with (a := 10 * a + d) as (m & Hm & Heq); [|lia|].
  { destruct ds as [|c2 ds2]; [by left|]. right. simpl in Hds.
    by apply andb_true_iff in Hds as [_ Hds]. }
  exists m. split; [done|]. rewrite <- Heq, <- (pretty_snoc a c d Ha Hd).
  by rewrite string_app_assoc.
Qed.

(** A string of digits is zeros followed by the rendering of a number. *)
Lemma digits_decimal (ds : string) :
  allDigits ds = true → ∃ (k : nat) (m : Z), 0 ≤ m ∧ ds = zeros k +:+ pretty m.
Proof.
  induction ds as [|c ds IH]; [done|]. intros Hds.
  destruct (allDigits_head _ Hds) as (c' & ds' & [= <- <-] & [d Hd]).
  destruct (digit_char _ _ Hd) as [Hrange Hc].
  assert (Hrest : ds = "" ∨ allDigits ds = true).
  { destruct ds as [|c2 ds2]; [by left|]. right. simpl in Hds.
    by apply andb_true_iff in Hds as [_ Hds]. }
  destruct (decide (d = 0)) as [->|Hnz].
  - assert (c = "0"%char) as -> by (by rewrite Hc).
    destruct Hrest as [->|Hrest].
    + exists O, 0. by split.
    + destruct (IH Hrest) as (k & m & Hm & ->). exists (S k), m. by split.
  - assert (Hone : pretty d = String c "").
    { destruct d as [|q|q]; [lia| |lia].
      change (pretty (Z.pos q)) with (pretty_N_go (N.pos q) "").
      rewrite pretty_N_go_step by lia.
      assert (Hlt : (N.pos q < 10)%N) by lia.
      rewrite N.div_small, N.mod_small, pretty_N_go_0 by done.
      by rewrite Hc. }
    destruct (pretty_digits ds Hrest d) as (m & Hm & Heq); [lia|].
    exists O, m. split; [lia|]. rewrite <- Heq, Hone. reflexivity.
Qed.

Lemma trimmed_head (w : string) (c : ascii) (t : string) :
  trimStart w = "" → w = String c t → digitValue c = None.
Proof.
  intros Hw ->. destruct (digitValue c) as [d|] eqn:Hd; [|done].
  rewrite trimStart_digit in Hw by eauto. done.
Qed.

Lemma parseDigits_stop (w : string) (acc : option Z) :
  trimStart w = "" → parseDigits w acc = acc.
Proof.
  intros Hw. destruct w as [|c t]; [done|]. simpl.
  by rewrite (trimmed_head _ c t Hw eq_refl).
Qed.

Lemma parseDigits_zeros (k : nat) (r : string) (acc : option Z) :
  default 0 acc = 0 →
  ∃ acc', default 0 acc' = 0 ∧ parseDigits (zeros k +:+ r) acc = parseDigits r acc'.
Proof.
  revert acc. induction k as [|k IH]; intros acc Hacc; [by exists acc|].
  destruct (IH (Some (10 * default 0 acc + 0))) as (acc' & Hacc' & Heq).
  { simpl. lia. }
  exists acc'. split; [done|]. rewrite <- Heq. reflexivity.
Qed.

Lemma parseDigits_pretty (m : Z) (w : string) (acc : option Z) :
  0 ≤ m → default 0 acc = 0 → trimStart w = "" →
  parseDigits (pretty m +:+ w) acc = Some m.
Proof.
  intros Hm Hacc Hw. destruct m as [|q|q]; [| |lia].
  - change (pretty 0) with "0". simpl. rewrite Hacc. by apply parseDigits_stop.
  - change (pretty (Z.pos q)) with (pretty_N_go (N.pos q) "").
    rewrite <- pretty_N_go_app.
    destruct (parseDigits_pretty_N_go (N.pos q)) with (s := w) (acc := acc)
      as [k Hk]; [lia|].
    rewrite Hk, Hacc, parseDigits_stop by done. f_equal; lia.
Qed.

Lemma parseDigits_decimal (k : nat) (m : Z) (w : string) :
  0 ≤ m → trimStart w = "" →
  parseDigits ((zeros k +:+ pretty m) +:+ w) None = Some m.
Proof.
  intros Hm Hw. rewrite string_app_assoc.
  destruct (parseDigits_zeros k (pretty m +:+ w) None) as (acc & Hacc & ->); [done|].
  by apply parseDigits_pretty.
Qed.

Lemma decimal_head (k : nat) (m : Z) :
  0 ≤ m → ∃ c t, zeros k +:+ pretty m = String c t ∧ is_Some (digitValue c).
Proof.
  intros Hm. destruct k as [|k].
  - destruct m as [|q|q]; [| |lia].
    + exists "0"%char, "". split; [done|]. by eexists.
    + destruct (pretty_N_go_head (N.pos q)) with (s := "") as (c & t & Heq & Hc);
        [lia|].
      exists c, t. by split.
  - exists "0"%char, (zeros k +:+ pretty m). split; [done|]. by eexists.
Qed.

(** [parseInt] reads the integer that the trimmed text denotes. *)
Lemma mathInt_denotes (s : string) (z : Z) :
  denotes (trim s) z → mathInt s = Num z.
Proof.
  intros (neg & k & m & Hm & Htext & ->).
  destruct (trimEnd_suffix (trimStart s)) as (w & Hs & Hw).
  fold (trim s) in Hs. rewrite Htext in Hs.
  destruct (decimal_head k m Hm) as (c & t & Hhead & Hc).
  pose proof (parseDigits_decimal k m w Hm Hw) as Hdigits.
  unfold mathInt. rewrite Hs. destruct neg.
  - change (("-" +:+ zeros k +:+ pretty m) +:+ w)
      with (String "-"%char ((zeros k +:+ pretty m) +:+ w)).
    cbv beta iota. rewrite bool_decide_eq_true_2 by done.
    cbv beta iota zeta. rewrite Hdigits. f_equal; lia.
  - change (("" +:+ zeros k +:+ pretty m) +:+ w)
      with ((zeros k +:+ pretty m) +:+ w) in *.
    rewrite Hhead in *.
    change (String c t +:+ w) with (String c (t +:+ w)) in *.
    cbv beta iota.
    rewrite !bool_decide_eq_false_2; [| intros ->; by destruct Hc..].
    cbv beta iota zeta. rewrite Hdigits. f_equal; lia.
Qed.

(** The trimmed text of a string accepted by [isInteger] denotes an
    integer. *)
Lemma isInteger_denotes (s : string) :
  isInteger s = true → ∃ z, denotes (trim s) z.
Proof.
  unfold isInteger. intros Hint. apply andb_true_iff in Hint as [_ Hm].
  destruct (trim s) as [|c r]; [done|]. unfold matchesInteger in Hm.
  destruct (bool_decide (c = "-"%char)) eqn:Hc.
  - apply bool_decide_eq_true in Hc as ->.
    destruct (digits_decimal _ Hm) as (k & m & Hpos & ->).
    exists (- m), true, k, m. by split.
  - destruct (digits_decimal _ Hm) as (k & m & Hpos & Heq).
    exists m, false, k, m. by split.
Qed.


Example autofill_to_the_right :
  getAutofillCells (tableRows fiveAtStart) (mergeSpans fiveAtStart) 1 1 1 4
    (Some horizontal)
  = [mkFill 1 2 (Num 6); mkFill 1 3 (Num 7); mkFill 1 4 (Num 8)].
Proof. vm_compute. reflexivity. Qed.

Example autofill_to_the_left :
  getAutofillCells (tableRows fiveAtEnd) (mergeSpans fiveAtEnd) 1 4 1 1
    (Some horizontal)
  = [mkFill 1 3 (Num 6); mkFill 1 2 (Num 7); mkFill 1 1 (Num 8)].
Proof. vm_compute. reflexivity. Qed.

(** The cell (1,3) is blanked before the drag: the run stops before it. *)
Example autofill_stops_at_blank :
  let st := blankSelectedCells (handleCellClick true 1 3 plainEvent fiveAtStart) in
  getAutofillCells (tableRows st) (mergeSpans st) 1 1 1 4 (Some horizontal)
  = [mkFill 1 2 (Num 6)].
Proof. vm_compute. reflexivity. Qed.

(** From 2^53 on the sums are rounded to the nearest double: the run from
    9007199254740992 holds that number again, then 9007199254740994 and
    9007199254740996. *)
Example autofill_beyond_safe_integers :
  getAutofillCells (tableRows bigAtStart) (mergeSpans bigAtStart) 1 1 1 4
    (Some horizontal)
  = [mkFill 1 2 (Num 9007199254740992); mkFill 1 3 (Num 9007199254740994);
     mkFill 1 4 (Num 9007199254740996)].
Proof. vm_compute. reflexivity. Qed.

(** White space around the digits is skipped, the no-break space as well. *)
Example autofill_from_padded_source :
  isInteger (noBreakSpace +:+ "7" +:+ noBreakSpace) = true
  ∧ sourceValue (autofillDrag (handleAutofillHandleMouseDown 1 1 paddedAtStart)) = Num 7
  ∧ getAutofillCells (tableRows paddedAtStart) (mergeSpans paddedAtStart) 1 1 1 3
      (Some horizontal)
    = [mkFill 1 2 (Num 8); mkFill 1 3 (Num 9)].
Proof. vm_compute. done. Qed.


(** ** Lookup after an in-place update *)

Lemma find_fmap {A : Type} (p : A → bool) (f : A → A) (l : list A) :
  (∀ x, p (f x) = p x) → List.find p (f <$> l) = f <$> List.find p l.
Proof.
  intros Hp. induction l as [|x l IH]; [done|]. cbn [fmap list_fmap List.find].
  rewrite Hp. destruct (p x); [done | exact IH].
Qed.

Lemma find_updateFirst_same {A : Type} (p : A → bool) (f : A → A) (l : list A) :
  (∀ x, p (f x) = p x) → List.find p (updateFirst p f l) = f <$> List.find p l.
Proof.
  intros Hp. induction l as [|x l IH]; [done|]. simpl.
  destruct (p x) eqn:Hx; simpl.
  - by rewrite Hp, Hx.
  - by rewrite Hx.
Qed.

Lemma find_updateFirst_other {A : Type} (p q : A → bool) (f : A → A) (l : list A) :
  (∀ x, q x = true → p x = false ∧ p (f x) = false) →
  List.find p (updateFirst q f l) = List.find p l.
Proof.
  intros Hpq. induction l as [|x l IH]; [done|]. simpl.
  destruct (q x) eqn:Hx; simpl.
  - destruct (Hpq x Hx) as [-> ->]. done.
  - destruct (p x); [done | exact IH].
Qed.

Lemma findCell_forEachCell (f : CellObject → CellObject) (rows : list TableRow)
    (r c : Z) :
  (∀ x, columnIndex (f x) = columnIndex x) →
  findCell (forEachCell f rows) r c = f <$> findCell rows r c.
Proof.
  intros Hcol. unfold findCell, forEachCell.
  rewrite (find_fmap (λ row, row_rowIndex row =? r)) by done.
  destruct (List.find (λ row, row_rowIndex row =? r) rows) as [row|]; [|done].
  simpl. apply (find_fmap (λ cell, columnIndex cell =? c)).
  intros x. by rewrite Hcol.
Qed.

Lemma findCell_updateCell (f : CellObject → CellObject) (rows : list TableRow)
    (r c r' c' : Z) :
  (∀ x, columnIndex (f x) = columnIndex x) →
  findCell (updateCell rows r c f) r' c'
  = if bool_decide (r' = r ∧ c' = c) then f <$> findCell rows r c
    else findCell rows r' c'.
Proof.
  intros Hcol. unfold findCell, updateCell.
  destruct (decide (r' = r)) as [->|Hr].
  - rewrite (find_updateFirst_same (λ row, row_rowIndex row =? r)) by done.
    destruct (List.find (λ row, row_rowIndex row =? r) rows) as [row|];
      [|by case_bool_decide].
    simpl. destruct (decide (c' = c)) as [->|Hc].
    + rewrite bool_decide_eq_true_2 by done.
      apply (find_updateFirst_same (λ cell, columnIndex cell =? c)).
      intros x. by rewrite Hcol.
    + rewrite bool_decide_eq_false_2 by (intros [_ ?]; done).
      apply (find_updateFirst_other (λ cell, columnIndex cell =? c')).
      intros x Hx. apply Z.eqb_eq in Hx. rewrite Hcol, Hx.
      split; apply Z.eqb_neq; congruence.
  - rewrite bool_decide_eq_false_2 by (intros [? _]; done).
    rewrite (find_updateFirst_other (λ row, row_rowIndex row =? r')); [done|].
    intros x Hx. apply Z.eqb_eq in Hx. simpl. rewrite Hx.
    split; apply Z.eqb_neq; congruence.
Qed.

Lemma forEachCell_compose (f g : CellObject → CellObject) (rows : list TableRow) :
  forEachCell g (forEachCell f rows) = forEachCell (g ∘ f) rows.
Proof.
  unfold forEachCell. rewrite <- list_fmap_compose. apply list_fmap_ext.
  intros _ row _. simpl. by rewrite <- list_fmap_compose.
Qed.

Lemma forEachCell_ext (f g : CellObject → CellObject) (rows : list TableRow) :
  (∀ x, f x = g x) → forEachCell f rows = forEachCell g rows.
Proof.
  intros Hfg. unfold forEachCell. apply list_fmap_ext. intros _ row _.
  f_equal. apply list_fmap_ext. intros _ x _. apply Hfg.
Qed.

(** ** The effect of a merge *)

Lemma unmerged_columnIndex (x : CellObject) : columnIndex (unmerged x) = columnIndex x.
Proof. done. Qed.

Lemma dissolveGroups_spec (rect : list CellId) (rows : list TableRow) :
  dissolveGroups rect rows
  = forEachCell (λ cell, if touched rows rect cell then unmerged cell else cell) rows.
Proof.
  unfold dissolveGroups. induction rect as [|cid rect IH] using rev_ind.
  { simpl. unfold touched. simpl. unfold forEachCell.
    rewrite <- (list_fmap_id rows) at 1. apply list_fmap_ext. intros _ [ri cs] _.
    simpl. f_equal. rewrite <- (list_fmap_id cs) at 1. apply list_fmap_ext.
    intros _ x _. by rewrite andb_false_r. }
  rewrite foldl_app. simpl. rewrite IH. clear IH.
  rewrite findCell_forEachCell by (intros x; by destruct (touched rows rect x)).
  assert (Hex : ∀ cell, touched rows (rect ++ [cid]) cell
            = touched rows rect cell
              || truthy (mergeId cell) && mergedIn rows (mergeId cell) cid).
  { intros cell. unfold touched. rewrite existsb_app. simpl.
    rewrite orb_false_r. by destruct (truthy (mergeId cell)). }
  destruct (findCell rows (id_row cid) (id_col cid)) as [x|] eqn:Hx; simpl.
  2: { apply forEachCell_ext. intros cell. rewrite Hex. unfold mergedIn.
       rewrite Hx. by rewrite andb_false_r, orb_false_r. }
  destruct (touched rows rect x) eqn:Htx; simpl.
  { (* the group of [x] was dissolved at an earlier position *)
    apply forEachCell_ext. intros cell. rewrite Hex. unfold mergedIn. rewrite Hx.
    destruct (touched rows rect cell) eqn:Htc; [done|]. simpl.
    destruct (truthy (mergeId cell)) eqn:Hmc; [|done]. simpl.
    destruct (isMerged x); [|done]. simpl. case_bool_decide as Heq; [|done].
    unfold touched in Htx, Htc. rewrite Heq in Htx. rewrite Hmc in Htx, Htc.
    simpl in Htx, Htc. congruence. }
  destruct (isMerged x) eqn:Hm; simpl.
  2: { apply forEachCell_ext. intros cell. rewrite Hex. unfold mergedIn.
       rewrite Hx, Hm. simpl. by rewrite andb_false_r, orb_false_r. }
  destruct (truthy (mergeId x)) eqn:Ht.
  2: { apply forEachCell_ext. intros cell. rewrite Hex. unfold mergedIn.
       rewrite Hx, Hm. simpl.
       destruct (touched rows rect cell); [done|]. simpl.
       destruct (truthy (mergeId cell)) eqn:Hmc; [|done]. simpl.
       case_bool_decide as Heq; [|done]. congruence. }
  unfold forGroup. rewrite forEachCell_compose. apply forEachCell_ext.
  intros cell. simpl. rewrite Hex. unfold mergedIn. rewrite Hx, Hm. simpl.
  destruct (touched rows rect cell) eqn:Htc; simpl.
  - by case_bool_decide.
  - case_bool_decide as Heq; case_bool_decide as Heq'; try congruence.
    + by rewrite Heq, Ht.
    + by rewrite andb_false_r.
Qed.

Lemma findCell_assignGroup (rect : list CellId) (topLeft : CellObject) (mid : string)
    (rows : list TableRow) (r c : Z) :
  findCell (assignGroup rect topLeft mid rows) r c
  = if bool_decide (cellId r c ∈ rect)
    then mergedFrom topLeft mid <$> findCell rows r c
    else findCell rows r c.
Proof.
  unfold assignGroup. revert r c.
  induction rect as [|cid rect IH] using rev_ind; intros r c.
  { rewrite bool_decide_eq_false_2 by apply not_elem_of_nil. done. }
  rewrite foldl_app. cbn [foldl]. rewrite findCell_updateCell by done.
  destruct cid as [r0 c0]. cbn [id_row id_col]. rewrite !IH.
  destruct (decide (r = r0 ∧ c = c0)) as [[-> ->]|Hpos].
  - rewrite (bool_decide_eq_true_2 (r0 = r0 ∧ c0 = c0)) by done.
    rewrite (bool_decide_eq_true_2 (cellId r0 c0 ∈ rect ++ [mkId r0 c0]))
      by (apply elem_of_app; right; left).
    case_bool_decide; [by destruct (findCell rows r0 c0) | done].
  - rewrite (bool_decide_eq_false_2 (r = r0 ∧ c = c0)) by done.
    assert (Hiff : cellId r c ∈ rect ++ [mkId r0 c0] ↔ cellId r c ∈ rect).
    { rewrite elem_of_app, list_elem_of_singleton. unfold cellId.
      split; [|tauto]. intros [?|[= -> ->]]; [done|]. tauto. }
    destruct (decide (cellId r c ∈ rect)) as [Hin|Hnin].
    + rewrite !bool_decide_eq_true_2 by (done || by apply Hiff). done.
    + rewrite !bool_decide_eq_false_2 by (done || by rewrite Hiff). done.
Qed.

Lemma touched_spec (st : State) (cell : CellObject) :
  selectedCells st ≠ [] →
  touched (tableRows st) (boundingRectangle (selectedCells st)) cell = true
  ↔ inTouchedGroup st cell.
Proof.
  intros Hne. unfold touched, inTouchedGroup.
  rewrite andb_true_iff, truthy_spec, existsb_exists. split.
  - intros [Ht (cid & Hin & Hm)]. split; [done|]. unfold mergedIn in Hm.
    destruct (findCell (tableRows st) (id_row cid) (id_col cid)) as [x|] eqn:Hx; [|done].
    apply andb_true_iff in Hm as [Hm Hid]. apply bool_decide_eq_true in Hid.
    exists cid, x. split; [|done].
    apply elem_of_boundingRectangle; [done|]. by apply list_elem_of_In.
  - intros [Ht (cid & x & Hin & Hx & Hm & Hid)]. split; [done|].
    exists cid. split.
    + apply list_elem_of_In. by apply elem_of_boundingRectangle.
    + unfold mergedIn. rewrite Hx, Hm. simpl. by apply bool_decide_eq_true.
Qed.

(** The state that a merge which went through returns. *)
Lemma mergeCells_succeeds (st : State) :
  mergeSucceeds st →
  let sel := selectedCells st in
  let rect := boundingRectangle sel in
  let newRows := dissolveGroups rect (tableRows st) in
  selectedCells st ≠ []
  ∧ fst (mergeCells st)
    = resetDragState (setIsSelectionMode false (setSelectedCells []
        match findCell newRows (Math_min (map id_row sel)) (Math_min (map id_col sel)) with
        | None => st
        | Some topLeft =>
            setTableRows
              (assignGroup rect topLeft
                 (createMergeId (Math_min (map id_row sel)) (Math_min (map id_col sel))
                                (Math_max (map id_row sel)) (Math_max (map id_col sel)))
                 newRows) st
        end)).
Proof.
  intros (st' & Hmerge & Hne & Hemp). simpl. split; [done|].
  unfold mergeCells in *. fold (boundingRectangle (selectedCells st)) in *.
  destruct (length (selectedCells st) <? 2)%nat.
  { injection Hmerge as <-. done. }
  destruct (forallb (rectangleCellOk st) (boundingRectangle (selectedCells st)));
    [done | discriminate Hmerge].
Qed.

Lemma tableRows_after_merge (rows : list TableRow) (st : State) :
  tableRows (resetDragState (setIsSelectionMode false (setSelectedCells []
               (setTableRows rows st)))) = rows.
Proof. by destruct st. Qed.

(** The effect of a merge that goes through on the cells that the lookup
    by position finds, with [(r1, c1)] and [(r2, c2)] the corners of the
    bounding rectangle of the selection and [topLeft] the cell found at
    [(r1, c1)]: the selection is empty afterwards; the cell found at a
    position of the rectangle has the sequence number, the blocked flag
    and the blank flag of [topLeft], is merged, and carries the id
    [createMergeId r1 c1 r2 c2]; the cell found at a position outside the
    rectangle keeps its three values, and is unmerged with an empty merge
    id when it is in a group that a merged cell of the rectangle belonged
    to (otherwise its merge fields are unchanged).  Without a cell at
    [(r1, c1)] the grid is left as it was. *)
Lemma merge_at_positions (st : State) :
  mergeSucceeds st →
  ∃ r1 c1 r2 c2 : Z,
    (∀ cid, inBoundingRectangle (selectedCells st) cid
            ↔ r1 ≤ id_row cid ≤ r2 ∧ c1 ≤ id_col cid ≤ c2)
    ∧ selectedCells (fst (mergeCells st)) = []
    ∧ (findCell (tableRows st) r1 c1 = None →
         tableRows (fst (mergeCells st)) = tableRows st)
    ∧ ∀ topLeft, findCell (tableRows st) r1 c1 = Some topLeft →
      ∀ r c cell, findCell (tableRows st) r c = Some cell →
        ∃ cell', findCell (tableRows (fst (mergeCells st))) r c = Some cell'
          ∧ id cell' = id cell
          ∧ rowIndex cell' = rowIndex cell
          ∧ columnIndex cell' = columnIndex cell
          ∧ (inBoundingRectangle (selectedCells st) (cellId r c) →
               sequenceNumber cell' = sequenceNumber topLeft
               ∧ isBlocked cell' = isBlocked topLeft
               ∧ isBlank cell' = isBlank topLeft
               ∧ isMerged cell' = true
               ∧ mergeId cell' = createMergeId r1 c1 r2 c2)
          ∧ (¬ inBoundingRectangle (selectedCells st) (cellId r c) →
               sequenceNumber cell' = sequenceNumber cell
               ∧ isBlocked cell' = isBlocked cell
               ∧ isBlank cell' = isBlank cell
               ∧ (inTouchedGroup st cell →
                    isMerged cell' = false ∧ mergeId cell' = "")
               ∧ (¬ inTouchedGroup st cell →
                    isMerged cell' = isMerged cell ∧ mergeId cell' = mergeId cell)).
Proof.
  intros Hok. destruct (mergeCells_succeeds st Hok) as [Hne Hfst].
  set (sel := selectedCells st) in *.
  exists (Math_min (map id_row sel)), (Math_min (map id_col sel)),
         (Math_max (map id_row sel)), (Math_max (map id_col sel)).
  split; [|split; [|split]].
  - intros cid. rewrite <- elem_of_boundingRectangle by done.
    apply elem_of_rectangleIds.
  - rewrite Hfst. apply selectedCells_after_merge.
  - intros Hnone. rewrite Hfst. clear Hfst. rewrite dissolveGroups_spec.
    set (g := λ x, if touched (tableRows st) (boundingRectangle sel) x
                   then unmerged x else x).
    assert (Hg : ∀ x, columnIndex (g x) = columnIndex x).
    { intros x. unfold g. by destruct (touched _ _ x). }
    rewrite (findCell_forEachCell g) by done. rewrite Hnone. simpl.
    by destruct st.
  - intros topLeft Htl r c cell Hcell. rewrite Hfst. clear Hfst.
    rewrite dissolveGroups_spec.
    set (g := λ x, if touched (tableRows st) (boundingRectangle sel) x
                   then unmerged x else x).
    assert (Hg : ∀ x, columnIndex (g x) = columnIndex x).
    { intros x. unfold g. by destruct (touched _ _ x). }
    rewrite (findCell_forEachCell g) by done. rewrite Htl. simpl.
    rewrite tableRows_after_merge, findCell_assignGroup.
    rewrite (findCell_forEachCell g) by done. rewrite Hcell. simpl.
    assert (Hin : cellId r c ∈ boundingRectangle sel
                  ↔ inBoundingRectangle sel (cellId r c))
      by (by apply elem_of_boundingRectangle).
    assert (Htouch : touched (tableRows st) (boundingRectangle sel) cell = true
                     ↔ inTouchedGroup st cell) by (by apply touched_spec).
    case_bool_decide as Hrect; simpl.
    + eexists. split; [reflexivity|]. simpl.
      assert (Hfields : id (g cell) = id cell ∧ rowIndex (g cell) = rowIndex cell
                ∧ columnIndex (g cell) = columnIndex cell
                ∧ sequenceNumber (g topLeft) = sequenceNumber topLeft
                ∧ isBlocked (g topLeft) = isBlocked topLeft
                ∧ isBlank (g topLeft) = isBlank topLeft).
      { unfold g. by destruct (touched _ _ cell), (touched _ _ topLeft). }
      destruct Hfields as (-> & -> & -> & -> & -> & ->).
      repeat (split; [done|]).
      intros Hout. by apply Hin in Hrect.
    + exists (g cell). split; [reflexivity|].
      unfold g. destruct (touched (tableRows st) (boundingRectangle sel) cell) eqn:Ht.
      * simpl. repeat (split; [done|]).
        split; [intros Hyes; by apply Hin in Hyes|].
        intros _. repeat (split; [done|]).
        intros Hnot. destruct Hnot. by apply Htouch.
      * repeat (split; [done|]).
        split; [intros Hyes; by apply Hin in Hyes|].
        intros _. repeat (split; [done|]). split; [|done].
        intros Hyes. by apply Htouch in Hyes.
Qed.

Lemma overlappingSelection_succeeds : mergeSucceeds overlappingSelection.
Proof.
  exists (fst (mergeCells overlappingSelection)).
  split; [vm_compute; reflexivity|]. split; [|vm_compute; reflexivity].
  vm_compute. discriminate.
Qed.

(** The merged pair is dissolved, also in (1,2), outside the rectangle. *)
Example merge_dissolves_outside_rectangle :
  let st' := fst (mergeCells overlappingSelection) in
  mergeIdAt overlappingSelection 1 2 = Some "1112"
  ∧ findCell (tableRows st') 1 2 = Some (defaultCell 1 2)
  ∧ mergeIdAt st' 1 1 = Some "1121"
  ∧ mergeIdAt st' 2 1 = Some "1121".
Proof. vm_compute. repeat split; reflexivity. Qed.

(** ** Agreement within a merge group *)

Lemma groupAgreementb_spec (rows : list TableRow) :
  groupAgreementb rows = true ↔ groupAgreement rows.
Proof.
  unfold groupAgreementb, groupAgreement. rewrite forallb_forall.
  setoid_rewrite forallb_forall. setoid_rewrite <- list_elem_of_In.
  split.
  - intros Hall a b Ha Hb Hne Heq. specialize (Hall a Ha b Hb).
    apply truthy_spec in Hne. rewrite Hne in Hall.
    rewrite bool_decide_eq_true_2 in Hall by done. simpl in Hall.
    unfold sameValuesb in Hall.
    apply andb_true_iff in Hall as [Hall H3]. apply andb_true_iff in Hall as [H1 H2].
    apply bool_decide_eq_true in H1, H2, H3. done.
  - intros Hall a Ha b Hb.
    destruct (truthy (mergeId a)) eqn:Ht; [|done].
    case_bool_decide as Heq; [|done]. simpl.
    apply truthy_spec in Ht. destruct (Hall a b Ha Hb Ht Heq) as (H1 & H2 & H3).
    unfold sameValuesb. by rewrite !bool_decide_eq_true_2.
Qed.

(** C5 fails on a merge whose new id is already in use: the group of
    row 1, columns 11-12 and the new group of row 11, columns 1-2 both get
    the id "111112".  The groups agree before the merge; after it, cells
    (1,11) and (11,1) share their merge id and hold "5" and "-". *)
Theorem merge_id_collision_breaks_agreement :
  let st' := fst (mergeCells collidingSelection) in
  groupAgreement (tableRows collidingSelection)
  ∧ mergeSucceeds collidingSelection
  ∧ (∃ a b, findCell (tableRows st') 1 11 = Some a
       ∧ findCell (tableRows st') 11 1 = Some b
       ∧ mergeId a = "111112" ∧ mergeId b = "111112"
       ∧ sequenceNumber a = "5" ∧ sequenceNumber b = "-")
  ∧ ¬ groupAgreement (tableRows st').
Proof.
  split; [|split; [|split]].
  - apply groupAgreementb_spec. vm_compute. reflexivity.
  - exists (fst (mergeCells collidingSelection)).
    split; [vm_compute; reflexivity|]. split; [|vm_compute; reflexivity].
    vm_compute. discriminate.
  - eexists _, _. split; [vm_compute; reflexivity|].
    split; [vm_compute; reflexivity|]. vm_compute. repeat split; reflexivity.
  - intros Hagree. apply groupAgreementb_spec in Hagree.
    vm_compute in Hagree. discriminate Hagree.
Qed.

(** ** Reading back a cell id *)

Lemma splitOn_without (sep : ascii) (s : string) :
  occurs sep s = false → splitOn sep s = [s].
Proof.
  induction s as [|c s IH]; [done|]. simpl. intros Hocc.
  apply orb_false_iff in Hocc as [Hc Hs]. rewrite Hc, (IH Hs). done.
Qed.

Lemma splitOn_app (sep : ascii) (a b : string) :
  occurs sep a = false → splitOn sep (a +:+ String sep b) = a :: splitOn sep b.
Proof.
  induction a as [|c a IH]; simpl.
  - intros _. by rewrite bool_decide_eq_true_2.
  - intros Hocc. apply orb_false_iff in Hocc as [Hc Ha]. rewrite Hc, (IH Ha). done.
Qed.

Lemma occurs_pretty_N_go (x : N) (s : string) :
  occurs "_" s = false → occurs "_" (pretty_N_go x s) = false.
Proof.
  revert s. induction (N.lt_wf_0 x) as [x _ IH]. intros s Hs.
  destruct (decide (x = 0)%N) as [->|Hx]; [by rewrite pretty_N_go_0|].
  rewrite pretty_N_go_step by (by apply N.neq_0_lt_0).
  apply IH; [apply N.div_lt; [by apply N.neq_0_lt_0 | done]|].
  simpl. rewrite Hs, orb_false_r. apply bool_decide_eq_false.
  unfold pretty_N_char. by repeat case_match.
Qed.

Lemma occurs_pretty (z : Z) : occurs "_" (pretty z) = false.
Proof.
  assert (HN : ∀ n : N, occurs "_" (pretty n) = false).
  { intros n. unfold pretty, pretty_N. case_decide; [done|].
    by apply occurs_pretty_N_go. }
  destruct z as [|p|p]; [done | apply HN |].
  change (pretty (Z.neg p)) with (String "-"%char (pretty (N.pos p))).
  simpl. apply HN.
Qed.

Lemma parseCellId_cellIdString (cid : CellId) :
  parseCellId (cellIdString cid) = (Num (id_row cid), Num (id_col cid)).
Proof.
  unfold parseCellId, cellIdString.
  change (removeFirst "cell_" ("cell_" +:+ pretty (id_row cid) +:+ "_"
                                +:+ pretty (id_col cid)))
    with (pretty (id_row cid) +:+ String "_"%char (pretty (id_col cid))).
  rewrite splitOn_app by apply occurs_pretty.
  rewrite splitOn_without by apply occurs_pretty.
  simpl. by rewrite !mathInt_pretty.
Qed.

(** Distinct positions have distinct id strings. *)
Lemma cellIdString_inj (a b : CellId) : cellIdString a = cellIdString b → a = b.
Proof.
  intros Heq. pose proof (parseCellId_cellIdString a) as Ha.
  rewrite Heq, parseCellId_cellIdString in Ha.
  destruct a, b. simpl in Ha. congruence.
Qed.

(** ** Mutations and agreement within a merge group

    The collision of merge ids apart, the mutations keep
    [groupAgreement]: this section proves it for set-value, toggle-block,
    unmerge, blank, unblank, for the autofill commit on grids whose cells
    with a merge id are flagged merged, and for a merge whose new id is
    carried by no cell of the grid. *)

Lemma valueSetter_withSequenceNumber (v : string) : valueSetter (withSequenceNumber v).
Proof.
  unfold valueSetter. split_and!; try done.
  intros x y (Hseq & Hblocked & Hblank). by repeat split.
Qed.

Lemma valueSetter_withBlocked (b : bool) : valueSetter (withBlocked b).
Proof.
  unfold valueSetter. split_and!; try done.
  intros x y (Hseq & Hblocked & Hblank). by repeat split.
Qed.

Lemma valueSetter_withBlank (b : bool) : valueSetter (withBlank b).
Proof.
  unfold valueSetter. split_and!; try done.
  intros x y (Hseq & Hblocked & Hblank). by repeat split.
Qed.

Lemma allCells_forEachCell (f : CellObject → CellObject) (rows : list TableRow) :
  allCells (forEachCell f rows) = f <$> allCells rows.
Proof.
  unfold allCells, forEachCell. induction rows as [|row rows IH]; [done|].
  cbn [map]. rewrite !bind_cons, fmap_app, IH. done.
Qed.

Lemma elem_of_updateFirst {A : Type} (p : A → bool) (f : A → A) (l : list A) (y : A) :
  y ∈ updateFirst p f l →
  y ∈ l ∨ ∃ x, List.find p l = Some x ∧ y = f x.
Proof.
  induction l as [|x l IH]; simpl; [by left|].
  destruct (p x) eqn:Hx.
  - intros Hy. apply elem_of_cons in Hy as [->|Hy]; [right; eauto | left; by right].
  - intros Hy. apply elem_of_cons in Hy as [->|Hy]; [left; by left|].
    destruct (IH Hy) as [?|?]; [left; by right | by right].
Qed.

Lemma find_elem_of {A : Type} (p : A → bool) (l : list A) (x : A) :
  List.find p l = Some x → x ∈ l.
Proof.
  induction l as [|y l IH]; simpl; [done|].
  destruct (p y); [intros [= ->]; left | intros Hx; right; by apply IH].
Qed.

Lemma findCell_elem_of (rows : list TableRow) (r c : Z) (x : CellObject) :
  findCell rows r c = Some x → x ∈ allCells rows.
Proof.
  unfold findCell, allCells. intros Hx.
  destruct (List.find (λ row, row_rowIndex row =? r) rows) as [row|] eqn:Hrow; [|done].
  simpl in Hx. apply list_elem_of_bind. exists row.
  split; [by eapply find_elem_of | by eapply find_elem_of].
Qed.

(** A cell of the grid after [updateCell] is a cell of the grid before, or
    the image of the cell that [findCell] returns. *)
Lemma elem_of_allCells_updateCell (rows : list TableRow) (r c : Z)
    (f : CellObject → CellObject) (y : CellObject) :
  y ∈ allCells (updateCell rows r c f) →
  y ∈ allCells rows ∨ ∃ x, findCell rows r c = Some x ∧ y = f x.
Proof.
  unfold allCells, updateCell. intros Hy.
  apply list_elem_of_bind in Hy as (row' & Hy & Hrow').
  apply elem_of_updateFirst in Hrow' as [Hrow'|(row & Hfind & ->)].
  - left. apply list_elem_of_bind. eauto.
  - simpl in Hy. apply elem_of_updateFirst in Hy as [Hy|(x & Hx & ->)].
    + left. apply list_elem_of_bind. exists row. split; [done|].
      by eapply find_elem_of.
    + right. exists x. split; [|done]. unfold findCell. rewrite Hfind. done.
Qed.

(** The cells after a write to the cell at [(r, c)] that is propagated to
    its merge group [mergeId t]. *)
Lemma propagate_preimage (rows : list TableRow) (r c : Z)
    (f : CellObject → CellObject) (t y : CellObject) :
  valueSetter f → findCell rows r c = Some t →
  y ∈ allCells (forGroup (mergeId t) f (updateCell rows r c f)) →
  ∃ x, x ∈ allCells rows
    ∧ y = if bool_decide (mergeId x = mergeId t) then f x else x.
Proof.
  intros (Hid & _ & _ & _ & Hidem) Ht Hy. unfold forGroup in Hy.
  rewrite allCells_forEachCell in Hy.
  apply list_elem_of_fmap in Hy as (y0 & -> & Hy0).
  apply elem_of_allCells_updateCell in Hy0 as [Hy0|(x & Hx & ->)].
  - by exists y0.
  - assert (x = t) as -> by congruence. exists t.
    split; [by eapply findCell_elem_of|].
    rewrite Hid, !bool_decide_eq_true_2 by done. apply Hidem.
Qed.

Lemma groupAgreement_propagate (rows : list TableRow) (r c : Z)
    (f : CellObject → CellObject) (t : CellObject) :
  valueSetter f → findCell rows r c = Some t → groupAgreement rows →
  groupAgreement (if truthy (mergeId t)
                  then forGroup (mergeId t) f (updateCell rows r c f)
                  else updateCell rows r c f).
Proof.
  intros Hf Ht Hagree. pose proof Hf as (Hid & _ & _ & Hsame & _).
  destruct (truthy (mergeId t)) eqn:Htruthy.
  - assert (Hida : ∀ x, mergeId (if bool_decide (mergeId x = mergeId t)
                                  then f x else x) = mergeId x).
    { intros x. destruct (bool_decide (mergeId x = mergeId t)); [apply Hid | done]. }
    intros a' b' Ha' Hb' Hne Heq.
    destruct (propagate_preimage rows r c f t a' Hf Ht Ha') as (a & Ha & ->).
    destruct (propagate_preimage rows r c f t b' Hf Ht Hb') as (b & Hb & ->).
    rewrite (Hida a) in Hne, Heq. rewrite (Hida b) in Heq.
    specialize (Hagree a b Ha Hb Hne Heq).
    rewrite <- Heq.
    destruct (bool_decide (mergeId a = mergeId t)); [by apply Hsame | done].
  - assert (Hempty : mergeId t = "").
    { destruct (decide (mergeId t = "")) as [?|Hne]; [done|].
      apply truthy_spec in Hne. congruence. }
    intros a' b' Ha' Hb' Hne Heq.
    apply elem_of_allCells_updateCell in Ha' as [Ha|(x & Hx & ->)].
    2: { rewrite Hid in Hne. congruence. }
    apply elem_of_allCells_updateCell in Hb' as [Hb|(x & Hx & ->)].
    2: { rewrite Hid in Heq. congruence. }
    by apply Hagree.
Qed.

Lemma flagsConsistent_propagate (rows : list TableRow) (r c : Z)
    (f : CellObject → CellObject) (mid : string) (b : bool) :
  valueSetter f → flagsConsistent rows →
  flagsConsistent (if b then forGroup mid f (updateCell rows r c f)
                   else updateCell rows r c f).
Proof.
  intros (Hid & Hm & _) Hflags.
  assert (Hup : flagsConsistent (updateCell rows r c f)).
  { intros y Hy Hne.
    apply elem_of_allCells_updateCell in Hy as [Hy|(x & Hx & ->)]; [by apply Hflags|].
    rewrite Hm. rewrite Hid in Hne. apply Hflags; [|done].
    by eapply findCell_elem_of. }
  destruct b; [|done]. intros y Hy Hne. unfold forGroup in Hy.
  rewrite allCells_forEachCell in Hy.
  apply list_elem_of_fmap in Hy as (x & -> & Hx).
  case_bool_decide; [|by apply Hup].
  rewrite Hm. rewrite Hid in Hne. by apply Hup.
Qed.

(** Dissolving groups: the values stay and merge ids are kept or emptied. *)
Lemma groupAgreement_forGroup_unmerged (mid : string) (rows : list TableRow) :
  groupAgreement rows → groupAgreement (forGroup mid unmerged rows).
Proof.
  intros Hagree a' b' Ha' Hb' Hne Heq. unfold forGroup in *.
  rewrite allCells_forEachCell in Ha', Hb'.
  apply list_elem_of_fmap in Ha' as (a & -> & Ha).
  apply list_elem_of_fmap in Hb' as (b & -> & Hb).
  destruct (bool_decide (mergeId a = mid)); [done|].
  destruct (bool_decide (mergeId b = mid)); [simpl in Heq; congruence|].
  by apply Hagree.
Qed.

Lemma setTableRows_tableRows (rows : list TableRow) (st : State) :
  tableRows (setTableRows rows st) = rows.
Proof. by destruct st. Qed.

Lemma set_value_preserves_agreement (r c : Z) (v : string) (st : State) :
  groupAgreement (tableRows st) →
  groupAgreement (tableRows (handleCellValueChange r c v st)).
Proof.
  intros Hagree. unfold handleCellValueChange.
  destruct (findCell (tableRows st) r c) as [t|] eqn:Ht; [|done].
  rewrite setTableRows_tableRows.
  by apply groupAgreement_propagate; [apply valueSetter_withSequenceNumber|..].
Qed.

Lemma toggle_block_preserves_agreement (r c : Z) (st : State) :
  groupAgreement (tableRows st) →
  groupAgreement (tableRows (handleCheckboxChange r c st)).
Proof.
  intros Hagree. unfold handleCheckboxChange.
  destruct (findCell (tableRows st) r c) as [t|] eqn:Ht; [|done].
  rewrite setTableRows_tableRows.
  by apply groupAgreement_propagate; [apply valueSetter_withBlocked|..].
Qed.

Lemma unmerge_preserves_agreement (st : State) :
  groupAgreement (tableRows st) → groupAgreement (tableRows (unmergeCells st)).
Proof.
  intros Hagree. unfold unmergeCells.
  destruct (selectedCells st) as [|cid sel]; [done|].
  assert (Hreset : ∀ s, tableRows (resetDragState s) = tableRows s) by (by intros []).
  rewrite Hreset.
  destruct (findCell (tableRows st) (id_row cid) (id_col cid)) as [t|]; [|done].
  destruct (isMerged t); [|done]. rewrite setTableRows_tableRows.
  by apply groupAgreement_forGroup_unmerged.
Qed.

Lemma blankLoop_preserves_agreement (b : bool) (spans : gmap string MergeSpanInfo)
    (selected : list CellId) (rows : list TableRow) :
  groupAgreement rows → groupAgreement (blankLoop b spans selected rows).
Proof.
  unfold blankLoop. revert rows.
  induction selected as [|cid selected IH]; intros rows Hagree; [done|].
  simpl. apply IH.
  destruct (findCell rows (id_row cid) (id_col cid)) as [t|] eqn:Ht; [|done].
  destruct (isCellHidden t spans); [done|].
  by apply (groupAgreement_propagate rows _ _ (withBlank b) t);
    [apply valueSetter_withBlank|..].
Qed.

Lemma blank_preserves_agreement (b : bool) (st : State) :
  groupAgreement (tableRows st) →
  groupAgreement (tableRows (setBlankSelectedCells b st)).
Proof.
  intros Hagree. unfold setBlankSelectedCells.
  destruct (selectedCells st) as [|cid sel] eqn:Hsel; [done|].
  assert (Hrows : ∀ rows, tableRows (resetDragState (setIsSelectionMode false
            (setSelectedCells [] (setTableRows rows st)))) = rows)
    by (intros; by destruct st).
  rewrite Hrows. by apply blankLoop_preserves_agreement.
Qed.

Lemma fillOne_preserves (rows : list TableRow) (fc : FillCell) :
  groupAgreement rows ∧ flagsConsistent rows →
  groupAgreement (fillOne rows fc) ∧ flagsConsistent (fillOne rows fc).
Proof.
  intros [Hagree Hflags]. unfold fillOne.
  destruct (findCell rows (fill_row fc) (fill_col fc)) as [t|] eqn:Ht; [|done].
  assert (Hcond : isMerged t && truthy (mergeId t) = truthy (mergeId t)).
  { destruct (truthy (mergeId t)) eqn:Htruthy; [|by rewrite andb_false_r].
    apply truthy_spec in Htruthy. rewrite (Hflags t); [done| |done].
    by eapply findCell_elem_of. }
  split.
  - rewrite Hcond.
    by apply (groupAgreement_propagate rows _ _ (withSequenceNumber _) t);
      [apply valueSetter_withSequenceNumber|..].
  - by apply (flagsConsistent_propagate rows _ _ (withSequenceNumber _));
      [apply valueSetter_withSequenceNumber|].
Qed.

Lemma autofill_commit_preserves_agreement (st : State) :
  groupAgreement (tableRows st) → flagsConsistent (tableRows st) →
  groupAgreement (tableRows (handleAutofillMouseUp st)).
Proof.
  intros Hagree Hflags. unfold handleAutofillMouseUp.
  destruct (active (autofillDrag st)); [|done]. simpl.
  assert (Hrows : ∀ s, tableRows (setAutofillPreviewCells []
            (setAutofillDrag noAutofillDrag s)) = tableRows s) by (by intros []).
  rewrite Hrows.
  match goal with |- context [match ?l with [] => _ | _ => _ end] =>
    generalize l end.
  intros fillCells.
  assert (Hfold : ∀ rows, groupAgreement rows ∧ flagsConsistent rows →
            groupAgreement (foldl fillOne rows fillCells)
            ∧ flagsConsistent (foldl fillOne rows fillCells)).
  { induction fillCells as [|fc fillCells IH]; intros rows Hrows'; [done|].
    simpl. by apply IH, fillOne_preserves. }
  destruct fillCells as [|fc fillCells]; [done|].
  rewrite setTableRows_tableRows. by apply Hfold.
Qed.

Lemma pretty_Z_nonempty (z : Z) : pretty z ≠ "".
Proof.
  destruct z as [|p|p]; [done| |done].
  change (pretty (Z.pos p)) with (pretty_N_go (N.pos p) "").
  destruct (pretty_N_go_head (N.pos p)) with (s := "") as (c & t & -> & _); [lia|done].
Qed.

Lemma createMergeId_nonempty (r1 c1 r2 c2 : Z) : createMergeId r1 c1 r2 c2 ≠ "".
Proof.
  unfold createMergeId. pose proof (pretty_Z_nonempty r1) as Hne.
  by destruct (pretty r1).
Qed.

Lemma elem_of_allCells_assignGroup (rect : list CellId) (topLeft : CellObject)
    (mid : string) (rows : list TableRow) (y : CellObject) :
  y ∈ allCells (assignGroup rect topLeft mid rows) →
  y ∈ allCells rows ∨ ∃ x, y = mergedFrom topLeft mid x.
Proof.
  unfold assignGroup. revert y.
  induction rect as [|cid rect IH] using rev_ind; intros y Hy; [by left|].
  rewrite foldl_app in Hy. simpl in Hy.
  apply elem_of_allCells_updateCell in Hy as [Hy|(x & _ & ->)]; [by apply IH|].
  right. eauto.
Qed.

Lemma merge_preserves_agreement (st : State) :
  let sel := selectedCells st in
  groupAgreement (tableRows st) →
  (∀ x, x ∈ allCells (tableRows st) →
     mergeId x ≠ createMergeId (Math_min (map id_row sel)) (Math_min (map id_col sel))
                               (Math_max (map id_row sel)) (Math_max (map id_col sel))) →
  groupAgreement (tableRows (fst (mergeCells st))).
Proof.
  intros sel Hagree Hfresh. unfold mergeCells. fold sel.
  destruct (length sel <? 2)%nat; [done|].
  fold (boundingRectangle sel).
  destruct (forallb (rectangleCellOk st) (boundingRectangle sel)); [|done]. simpl.
  assert (Hreset : ∀ s, tableRows (resetDragState (setIsSelectionMode false
            (setSelectedCells [] s))) = tableRows s) by (by intros []).
  rewrite Hreset. rewrite dissolveGroups_spec.
  set (mid := createMergeId _ _ _ _) in *.
  set (g := λ x, if touched (tableRows st) (boundingRectangle sel) x
                 then unmerged x else x).
  destruct (findCell (forEachCell g (tableRows st)) _ _) as [topLeft|]; [|done].
  rewrite setTableRows_tableRows.
  assert (Hold : ∀ y, y ∈ allCells (forEachCell g (tableRows st)) →
            ∃ x, x ∈ allCells (tableRows st) ∧ sameValues y x
              ∧ (mergeId y = mergeId x ∨ mergeId y = "")).
  { intros y Hy. rewrite allCells_forEachCell in Hy.
    apply list_elem_of_fmap in Hy as (x & -> & Hx). exists x. split; [done|].
    unfold g. destruct (touched _ _ x); [by split; [|right] | by split; [|left]]. }
  intros a b Ha Hb Hne Heq.
  apply elem_of_allCells_assignGroup in Ha as [Ha|[xa ->]];
    apply elem_of_allCells_assignGroup in Hb as [Hb|[xb ->]].
  - destruct (Hold a Ha) as (a0 & Ha0 & (Ha1 & Ha2 & Ha3) & [Hida|Hida]); [|done].
    destruct (Hold b Hb) as (b0 & Hb0 & (Hb1 & Hb2 & Hb3) & [Hidb|Hidb]); [|congruence].
    destruct (Hagree a0 b0 Ha0 Hb0) as (H1 & H2 & H3); [congruence..|].
    unfold sameValues. rewrite Ha1, Ha2, Ha3, Hb1, Hb2, Hb3. done.
  - destruct (Hold a Ha) as (a0 & Ha0 & _ & [Hida|Hida]); [|done].
    simpl in Heq. destruct (Hfresh a0 Ha0). congruence.
  - destruct (Hold b Hb) as (b0 & Hb0 & _ & [Hidb|Hidb]).
    + simpl in Heq. destruct (Hfresh b0 Hb0). congruence.
    + simpl in Heq. destruct (createMergeId_nonempty
        (Math_min (map id_row sel)) (Math_min (map id_col sel))
        (Math_max (map id_row sel)) (Math_max (map id_col sel))).
      fold mid. congruence.
  - done.
Qed.

(** The autofill commit tests [isMerged] before it propagates, where the
    other mutations test the merge id alone: on [unflaggedGroup] it writes
    6 to cell (1,2) and leaves cell (1,3), of the same merge id, at 1. *)
Example autofill_needs_consistent_flags :
  groupAgreement (tableRows unflaggedGroup)
  ∧ ¬ flagsConsistent (tableRows unflaggedGroup)
  ∧ ¬ groupAgreement (tableRows (handleAutofillMouseUp unflaggedGroup)).
Proof.
  split; [|split].
  - apply groupAgreementb_spec. vm_compute. reflexivity.
  - intros Hflags.
    specialize (Hflags (validatedCell 1 2
      (mkRawCell (Some "1") None None (Some "g") None None None))).
    assert (Hfalse : false = true); [|discriminate Hfalse].
    apply Hflags; [|done]. right. left.
  - intros Hagree. apply groupAgreementb_spec in Hagree.
    vm_compute in Hagree. discriminate Hagree.
Qed.

(** * Further properties *)

(** ** The merge-span index *)

Lemma groupPositions_fold (k : string) (cs : list CellObject)
    (m : gmap string (list (Z * Z))) :
  foldl (λ grouped cell,
           if negb (isMerged cell) || negb (truthy (mergeId cell)) then grouped
           else <[mergeId cell :=
                    default [] (grouped !! mergeId cell)
                      ++ [(rowIndex cell, columnIndex cell)]]> grouped) m cs !! k
  = match m !! k, positionOf <$> filter (λ cell, inGroup k cell = true) cs with
    | None, [] => None
    | o, ps => Some (default [] o ++ ps)
    end.
Proof.
  revert m. induction cs as [|c cs IH]; intros m.
  { simpl. destruct (m !! k) as [ps|]; [|done]. by rewrite app_nil_r. }
  cbn [foldl]. rewrite IH. clear IH.
  destruct (isMerged c) eqn:Hm; simpl.
  2: { rewrite filter_cons_False; [done|]. unfold inGroup. by rewrite Hm. }
  destruct (truthy (mergeId c)) eqn:Ht; simpl.
  2: { rewrite filter_cons_False; [done|]. unfold inGroup. by rewrite Hm, Ht. }
  destruct (decide (mergeId c = k)) as [Heq|Hne].
  - rewrite filter_cons_True
      by (unfold inGroup; by rewrite Hm, Ht, bool_decide_eq_true_2).
    subst k. rewrite lookup_insert_eq. cbn [fmap list_fmap default].
    rewrite <- app_assoc. simpl. by destruct (m !! mergeId c).
  - rewrite filter_cons_False
      by (unfold inGroup; by rewrite Hm, Ht, bool_decide_eq_false_2).
    by rewrite lookup_insert_ne.
Qed.

Lemma groupPositions_lookup (k : string) (rows : list TableRow) :
  groupPositions rows !! k
  = match positionsOf k rows with [] => None | ps => Some ps end.
Proof.
  unfold groupPositions, positionsOf, groupCells.
  rewrite groupPositions_fold, lookup_empty. by destruct (positionOf <$> _).
Qed.

Lemma computeMergeSpans_lookup (k : string) (rows : list TableRow) :
  computeMergeSpans rows !! k
  = match positionsOf k rows with
    | [] => None
    | ps => Some (spanOfPositions ps)
    end.
Proof.
  unfold computeMergeSpans. rewrite lookup_fmap, groupPositions_lookup.
  by destruct (positionsOf k rows).
Qed.

Lemma elem_of_groupCells (k : string) (rows : list TableRow) (cell : CellObject) :
  cell ∈ groupCells k rows
  ↔ cell ∈ allCells rows ∧ isMerged cell = true ∧ mergeId cell ≠ "" ∧ mergeId cell = k.
Proof.
  unfold groupCells, inGroup. rewrite list_elem_of_filter, !andb_true_iff.
  rewrite truthy_spec, bool_decide_eq_true. tauto.
Qed.

Lemma spanOfPositions_group (k : string) (rows : list TableRow) :
  groupCells k rows ≠ [] →
  let span := spanOfPositions (positionsOf k rows) in
  (∀ c, c ∈ groupCells k rows →
     anchorRow span ≤ rowIndex c < anchorRow span + rowSpan span
     ∧ anchorCol span ≤ columnIndex c < anchorCol span + colSpan span)
  ∧ (∃ c, c ∈ groupCells k rows ∧ rowIndex c = anchorRow span)
  ∧ (∃ c, c ∈ groupCells k rows ∧ columnIndex c = anchorCol span)
  ∧ (∃ c, c ∈ groupCells k rows ∧ rowIndex c = anchorRow span + rowSpan span - 1)
  ∧ (∃ c, c ∈ groupCells k rows ∧ columnIndex c = anchorCol span + colSpan span - 1).
Proof.
  intros Hne. unfold positionsOf, spanOfPositions. simpl.
  rewrite <- !list_fmap_compose.
  change (fst ∘ positionOf) with rowIndex.
  change (snd ∘ positionOf) with columnIndex.
  assert (Hr : rowIndex <$> groupCells k rows ≠ []) by (by destruct (groupCells k rows)).
  assert (Hc : columnIndex <$> groupCells k rows ≠ []) by (by destruct (groupCells k rows)).
  destruct (Math_min_spec _ Hr) as [Hr1 Hr2], (Math_max_spec _ Hr) as [Hr3 Hr4].
  destruct (Math_min_spec _ Hc) as [Hc1 Hc2], (Math_max_spec _ Hc) as [Hc3 Hc4].
  split; [|split; [|split; [|split]]].
  - intros c Hin.
    pose proof (Hr2 _ (list_elem_of_fmap_2 rowIndex _ _ Hin)).
    pose proof (Hr4 _ (list_elem_of_fmap_2 rowIndex _ _ Hin)).
    pose proof (Hc2 _ (list_elem_of_fmap_2 columnIndex _ _ Hin)).
    pose proof (Hc4 _ (list_elem_of_fmap_2 columnIndex _ _ Hin)).
    lia.
  - apply list_elem_of_fmap in Hr1 as (c & Heq & Hin). eauto.
  - apply list_elem_of_fmap in Hc1 as (c & Heq & Hin). eauto.
  - apply list_elem_of_fmap in Hr3 as (c & Heq & Hin). exists c. split; [done|]. lia.
  - apply list_elem_of_fmap in Hc3 as (c & Heq & Hin). exists c. split; [done|]. lia.
Qed.

Lemma computeMergeSpans_Some (k : string) (rows : list TableRow) (span : MergeSpanInfo) :
  computeMergeSpans rows !! k = Some span →
  groupCells k rows ≠ [] ∧ span = spanOfPositions (positionsOf k rows).
Proof.
  rewrite computeMergeSpans_lookup. unfold positionsOf.
  destruct (groupCells k rows) as [|c cs]; [done|].
  intros [= <-]. done.
Qed.

Lemma computeMergeSpans_group (k : string) (rows : list TableRow) :
  groupCells k rows ≠ [] →
  computeMergeSpans rows !! k = Some (spanOfPositions (positionsOf k rows)).
Proof.
  intros Hne. rewrite computeMergeSpans_lookup. unfold positionsOf.
  by destruct (groupCells k rows).
Qed.

(** X1: the span that [computeMergeSpans] records for a merge id is the
    bounding box of the merged cells carrying that id: the id is not
    empty, every such cell lies within the box, and each of the four sides
    of the box is reached by one of them. *)
Theorem mergeSpan_is_bounding_box (rows : list TableRow) (k : string)
    (span : MergeSpanInfo) :
  computeMergeSpans rows !! k = Some span →
  k ≠ ""
  ∧ (∀ c, c ∈ allCells rows → isMerged c = true → mergeId c = k →
       anchorRow span ≤ rowIndex c < anchorRow span + rowSpan span
       ∧ anchorCol span ≤ columnIndex c < anchorCol span + colSpan span)
  ∧ (∃ c, c ∈ groupCells k rows ∧ rowIndex c = anchorRow span)
  ∧ (∃ c, c ∈ groupCells k rows ∧ columnIndex c = anchorCol span)
  ∧ (∃ c, c ∈ groupCells k rows ∧ rowIndex c = anchorRow span + rowSpan span - 1)
  ∧ (∃ c, c ∈ groupCells k rows ∧ columnIndex c = anchorCol span + colSpan span - 1).
Proof.
  intros Hspan. apply computeMergeSpans_Some in Hspan as [Hne ->].
  destruct (spanOfPositions_group k rows Hne) as (Hbox & Htop & Hleft & Hbottom & Hright).
  assert (Hk : k ≠ "").
  { destruct Htop as (c & Hc & _).
    by apply elem_of_groupCells in Hc as (_ & _ & Hid & <-). }
  split; [done|]. split; [|done].
  intros c Hin Hm Hid. apply Hbox, elem_of_groupCells. subst k. done.
Qed.

Lemma mergeSpan_is_bounding_box_witness :
  "1112" ≠ ""
  ∧ ∃ c, c ∈ groupCells "1112" (tableRows mergedRowGrid) ∧ rowIndex c = 1.
Proof.
  destruct (mergeSpan_is_bounding_box (tableRows mergedRowGrid) "1112"
              (mkSpan 1 2 1 1)) as (Hne & _ & Htop & _).
  - vm_compute. reflexivity.
  - split; [exact Hne | exact Htop].
Defined.

(** X2: when [computeMergeSpans] returns, that is, when no merged cell
    carries as id a name that objects inherit from [Object.prototype], its
    result holds no inherited name, and it has a span for a name that is
    not inherited exactly when the name is not empty and some cell flagged
    merged carries it; a grid without merged cells has no span at all. *)
Theorem mergeSpan_keys (rows : list TableRow) :
  raisesTypeError rows = false →
  (∀ k, inherited k = false →
     (is_Some (computeMergeSpans rows !! k)
      ↔ k ≠ "" ∧ ∃ c, c ∈ allCells rows ∧ isMerged c = true ∧ mergeId c = k))
  ∧ (∀ k, is_Some (computeMergeSpans rows !! k) → inherited k = false)
  ∧ ((∀ c, c ∈ allCells rows → isMerged c = false) → computeMergeSpans rows = ∅).
Proof.
  intros Hreturns.
  assert (Hkeys : ∀ k, is_Some (computeMergeSpans rows !! k)
            ↔ k ≠ "" ∧ ∃ c, c ∈ allCells rows ∧ isMerged c = true ∧ mergeId c = k).
  { intros k. split.
    - intros [span Hspan]. apply computeMergeSpans_Some in Hspan as [Hne _].
      destruct (groupCells k rows) as [|c cs] eqn:Hg; [done|].
      assert (Hc : c ∈ groupCells k rows) by (rewrite Hg; left).
      apply elem_of_groupCells in Hc as (Hin & Hm & Hid & <-). eauto.
    - intros (Hk & c & Hin & Hm & <-). rewrite computeMergeSpans_group; [eauto|].
      intros Hnil. assert (Hc : c ∈ groupCells (mergeId c) rows)
        by (by apply elem_of_groupCells).
      rewrite Hnil in Hc. by apply elem_of_nil in Hc. }
  split; [intros k _; apply Hkeys|]. split.
  - intros k Hsome. apply Hkeys in Hsome as (Hk & c & Hin & Hm & <-).
    destruct (inherited (mergeId c)) eqn:Hinh; [|done].
    assert (Hex : raisesTypeError rows = true); [|congruence].
    unfold raisesTypeError. apply existsb_exists. exists c.
    split; [by apply list_elem_of_In|].
    rewrite Hm, Hinh. by rewrite (proj2 (truthy_spec _) Hk).
  - intros Hnone. apply map_eq. intros k. rewrite lookup_empty.
    destruct (computeMergeSpans rows !! k) as [span|] eqn:Hspan; [|done].
    destruct (proj1 (Hkeys k)) as (_ & c & Hin & Hm & _); [by rewrite Hspan|].
    rewrite (Hnone c Hin) in Hm. done.
Qed.

Lemma mergeSpan_keys_witness :
  is_Some (computeMergeSpans (tableRows mergedRowGrid) !! "1112")
  ∧ computeMergeSpans (tableRows mergedRowGrid) !! "1113" = None.
Proof.
  destruct (mergeSpan_keys (tableRows mergedRowGrid)) as (Hkeys & _).
  - vm_compute. reflexivity.
  - split.
    + apply Hkeys; [vm_compute; reflexivity|]. split; [discriminate|].
      exists (mkCell (cellId 1 1) "-" false true "1112" false 1 1).
      split; [vm_compute; left | split; reflexivity].
    + apply eq_None_not_Some. intros Hsome.
      apply Hkeys in Hsome as (_ & c & Hin & _ & Hid); [|vm_compute; reflexivity].
      vm_compute in Hin. apply list_elem_of_In in Hin. simpl in Hin.
      repeat (destruct Hin as [<-|Hin]; [discriminate Hid|]). destruct Hin.
Defined.

(** With the spans of the grid itself, a merged cell is shown exactly when
    it sits at the anchor of its group. *)
Lemma isCellHidden_computed (rows : list TableRow) (cell : CellObject) :
  cell ∈ allCells rows → isMerged cell = true → mergeId cell ≠ "" →
  let span := spanOfPositions (positionsOf (mergeId cell) rows) in
  isCellHidden cell (computeMergeSpans rows)
  = negb ((rowIndex cell =? anchorRow span) && (columnIndex cell =? anchorCol span)).
Proof.
  intros Hin Hm Hid. simpl. unfold isCellHidden.
  apply truthy_spec in Hid as Ht. rewrite Hm, Ht. simpl.
  rewrite computeMergeSpans_group; [done|].
  intros Hnil. assert (Hc : cell ∈ groupCells (mergeId cell) rows)
    by (by apply elem_of_groupCells).
  rewrite Hnil in Hc. by apply elem_of_nil in Hc.
Qed.

(** X3: with the spans computed from the grid, a cell of the grid is shown
    exactly when it is not merged, or has an empty merge id, or no merged
    cell of its group lies above it or to its left. *)
Theorem visible_iff_top_left (rows : list TableRow) (cell : CellObject) :
  cell ∈ allCells rows →
  isCellHidden cell (computeMergeSpans rows) = false
  ↔ isMerged cell = false ∨ mergeId cell = ""
    ∨ ∀ c, c ∈ allCells rows → isMerged c = true → mergeId c = mergeId cell →
        rowIndex cell ≤ rowIndex c ∧ columnIndex cell ≤ columnIndex c.
Proof.
  intros Hin.
  destruct (isMerged cell) eqn:Hm.
  2: { unfold isCellHidden. rewrite Hm. simpl. split; [by left | done]. }
  destruct (decide (mergeId cell = "")) as [Hid|Hid].
  { unfold isCellHidden, truthy. rewrite Hid, bool_decide_eq_true_2 by done. simpl.
    rewrite orb_true_r. split; [by right; left | done]. }
  rewrite isCellHidden_computed by done.
  assert (Hne : groupCells (mergeId cell) rows ≠ []).
  { intros Hnil. assert (Hc : cell ∈ groupCells (mergeId cell) rows)
      by (by apply elem_of_groupCells).
    rewrite Hnil in Hc. by apply elem_of_nil in Hc. }
  destruct (spanOfPositions_group _ rows Hne) as (Hbox & Htop & Hleft & _).
  rewrite negb_false_iff, andb_true_iff, !Z.eqb_eq. split.
  - intros [Hr Hc]. right. right. intros c Hcin Hcm Hcid.
    destruct (Hbox c) as [Hrow Hcol];
      [apply elem_of_groupCells; split_and!; [done | done | congruence | done]|].
    lia.
  - intros [?|[?|Hmin]]; [done..|].
    destruct (Hbox cell) as [Hrow Hcol]; [by apply elem_of_groupCells|].
    destruct Htop as (ct & Hct & Hrt), Hleft as (cl & Hcl & Hll).
    apply elem_of_groupCells in Hct as (? & ? & _ & ?).
    apply elem_of_groupCells in Hcl as (? & ? & _ & ?).
    pose proof (Hmin ct) as Hmt. pose proof (Hmin cl) as Hml.
    split; [destruct Hmt as [? _]; [done..|]; lia
           |destruct Hml as [_ ?]; [done..|]; lia].
Qed.

Lemma visible_iff_top_left_witness :
  isCellHidden (mkCell (cellId 1 1) "-" false true "1112" false 1 1)
    (computeMergeSpans (tableRows mergedRowGrid)) = false.
Proof.
  apply (visible_iff_top_left (tableRows mergedRowGrid)).
  - left.
  - right. right. intros c Hc _ _.
    assert (Hcells : allCells (tableRows mergedRowGrid)
              = [mkCell (cellId 1 1) "-" false true "1112" false 1 1;
                 mkCell (cellId 1 2) "-" false true "1112" false 1 2;
                 defaultCell 1 3])
      by (vm_compute; reflexivity).
    rewrite Hcells in Hc.
    repeat (apply elem_of_cons in Hc as [->|Hc]); try (simpl; lia).
    by apply elem_of_nil in Hc.
Defined.

(** X4: with the spans computed from the grid, the row span and the column
    span that [getCellSpan] gives a cell are at least 1, and they are 1 and
    1 for a hidden cell. *)
Theorem cell_span_positive (rows : list TableRow) (cell : CellObject) :
  1 ≤ (getCellSpan cell (computeMergeSpans rows)).1
  ∧ 1 ≤ (getCellSpan cell (computeMergeSpans rows)).2
  ∧ (isCellHidden cell (computeMergeSpans rows) = true →
     getCellSpan cell (computeMergeSpans rows) = (1, 1)).
Proof.
  unfold getCellSpan, isCellHidden.
  destruct (negb (isMerged cell) || negb (truthy (mergeId cell))); [by simpl|].
  destruct (computeMergeSpans rows !! mergeId cell) as [span|] eqn:Hspan; [|by simpl].
  apply computeMergeSpans_Some in Hspan as [Hne ->].
  destruct (spanOfPositions_group _ rows Hne) as (Hbox & (c & Hc & _) & _).
  destruct (Hbox c Hc) as [Hrow Hcol].
  set (span := spanOfPositions _) in *.
  destruct ((rowIndex cell =? _) && (columnIndex cell =? _)); cbn [fst snd negb].
  - split; [lia|]. split; [lia | done].
  - done.
Qed.

(** X5: on a well-formed grid with the spans computed from it, two merged
    cells that carry the same non-empty merge id and are both shown are
    the same cell: a merge group shows one cell at most. *)
Theorem one_visible_cell_per_group (rows : list TableRow) (c1 c2 : CellObject) :
  wellFormed rows → c1 ∈ allCells rows → c2 ∈ allCells rows →
  isMerged c1 = true → isMerged c2 = true →
  mergeId c1 ≠ "" → mergeId c1 = mergeId c2 →
  isCellHidden c1 (computeMergeSpans rows) = false →
  isCellHidden c2 (computeMergeSpans rows) = false →
  c1 = c2.
Proof.
  intros Hwf Hin1 Hin2 Hm1 Hm2 Hid Heq Hv1 Hv2.
  rewrite isCellHidden_computed in Hv1 by done.
  rewrite isCellHidden_computed in Hv2 by (done || congruence).
  rewrite <- Heq in Hv2.
  apply negb_false_iff, andb_true_iff in Hv1 as [Hr1 Hc1].
  apply negb_false_iff, andb_true_iff in Hv2 as [Hr2 Hc2].
  apply Z.eqb_eq in Hr1, Hc1, Hr2, Hc2.
  pose proof (findCell_wellFormed rows c1 Hwf Hin1) as Hf1.
  pose proof (findCell_wellFormed rows c2 Hwf Hin2) as Hf2.
  rewrite Hr1, Hc1 in Hf1. rewrite Hr2, Hc2 in Hf2. congruence.
Qed.

Lemma wellFormedb_spec (rows : list TableRow) :
  wellFormedb rows = true → wellFormed rows.
Proof.
  unfold wellFormedb, wellFormed. rewrite andb_true_iff, forallb_forall.
  intros [Hnd Hrows]. apply bool_decide_eq_true in Hnd. split; [done|].
  intros row Hrow. apply list_elem_of_In in Hrow. specialize (Hrows row Hrow).
  apply andb_true_iff in Hrows as [Hcols Hcells].
  apply bool_decide_eq_true in Hcols. split; [done|].
  intros cell Hcell. rewrite forallb_forall in Hcells.
  apply list_elem_of_In in Hcell. specialize (Hcells cell Hcell).
  apply andb_true_iff in Hcells as [Hr Hid].
  apply Z.eqb_eq in Hr. by apply bool_decide_eq_true in Hid.
Qed.

Lemma one_visible_cell_per_group_witness :
  mkCell (cellId 1 1) "-" false true "1112" false 1 1
  = mkCell (cellId 1 1) "-" false true "1112" false 1 1.
Proof.
  apply (one_visible_cell_per_group (tableRows mergedRowGrid)).
  - apply wellFormedb_spec. vm_compute. reflexivity.
  - left.
  - left.
  - reflexivity.
  - reflexivity.
  - vm_compute. congruence.
  - reflexivity.
  - vm_compute. reflexivity.
  - vm_compute. reflexivity.
Defined.

(** ** Creating and growing the grid *)

Lemma NoDup_arrayFrom_keys {A : Type} (key : A → Z) (f : Z → A) (n : jsnum) :
  (∀ k, key (f k) = k) → NoDup (map key (arrayFrom n f)).
Proof.
  intros Hkey. unfold arrayFrom.
  change (map key ?l) with (key <$> l). rewrite <- list_fmap_compose.
  apply NoDup_fmap_2_strong; [|apply NoDup_seq].
  intros x y _ _ Heq. simpl in Heq. rewrite !Hkey in Heq. lia.
Qed.

Lemma wellFormed_newTable (rows cols : jsnum) : wellFormed (newTable rows cols).
Proof.
  split; [by apply NoDup_arrayFrom_keys|].
  intros row Hrow. unfold newTable, arrayFrom in Hrow.
  apply list_elem_of_fmap in Hrow as (idx & -> & _). simpl.
  split; [by apply NoDup_arrayFrom_keys|].
  intros cell Hcell. unfold arrayFrom in Hcell.
  apply list_elem_of_fmap in Hcell as (cidx & -> & _). done.
Qed.

Lemma allCells_unmerged_newTable (rows cols : jsnum) (cell : CellObject) :
  cell ∈ allCells (newTable rows cols) → cell = defaultCell (rowIndex cell) (columnIndex cell).
Proof.
  intros Hin. pose proof (newTable_default_cells rows cols) as Hall.
  rewrite Forall_forall in Hall. by apply Hall.
Qed.

Lemma length_allCells_uniform (rows : list TableRow) (m : nat) :
  Forall (λ row, length (cells row) = m) rows →
  length (allCells rows) = (length rows * m)%nat.
Proof.
  unfold allCells. induction 1 as [|row rows Hrow _ IH]; [done|].
  rewrite bind_cons, length_app, IH, Hrow. simpl. lia.
Qed.

Lemma computeMergeSpans_unmerged (rows : list TableRow) :
  (∀ c, c ∈ allCells rows → isMerged c = false) → computeMergeSpans rows = ∅.
Proof.
  intros Hnone. apply map_eq. intros k. rewrite lookup_empty.
  destruct (computeMergeSpans rows !! k) as [span|] eqn:Hspan; [|done].
  apply computeMergeSpans_Some in Hspan as [Hne _].
  destruct (groupCells k rows) as [|c cs] eqn:Hg; [done|].
  assert (Hc : c ∈ groupCells k rows) by (rewrite Hg; left).
  apply elem_of_groupCells in Hc as (Hin & Hm & _).
  rewrite (Hnone c Hin) in Hm. done.
Qed.

Lemma computeMergeSpans_newTable (rows cols : jsnum) :
  computeMergeSpans (newTable rows cols) = ∅.
Proof.
  apply computeMergeSpans_unmerged. intros c Hc.
  by rewrite (allCells_unmerged_newTable rows cols c Hc).
Qed.

(** X6: [createNewTable] leaves the state alone when a dimension is not
    positive.  Otherwise the new grid is well formed, holds the default
    cell at every position of the [rows] x [cols] rectangle and no cell
    anywhere else, has no merge span, and the selection is cleared; the two
    dimension counters are not written. *)
Theorem createNewTable_grid (rows cols : Z) (st : State) :
  let st' := createNewTable (Num rows) (Num cols) st in
  (rows ≤ 0 ∨ cols ≤ 0 → st' = st)
  ∧ (0 < rows ∧ 0 < cols →
       wellFormed (tableRows st')
       ∧ (∀ i j, findCell (tableRows st') i j
                 = if bool_decide (1 ≤ i ≤ rows ∧ 1 ≤ j ≤ cols)
                   then Some (defaultCell i j) else None)
       ∧ length (allCells (tableRows st')) = Z.to_nat (rows * cols)
       ∧ mergeSpans st' = ∅
       ∧ selectedCells st' = [] ∧ isSelectionMode st' = false
       ∧ dataLoaded st' = true
       ∧ rowCount st' = rowCount st ∧ columnCount st' = columnCount st).
Proof.
  simpl. unfold createNewTable, js_le. split.
  - intros [Hr|Hc].
    + destruct (Z.leb_spec rows 0); [done | lia].
    + destruct (Z.leb_spec cols 0); [by rewrite orb_true_r | lia].
  - intros [Hr Hc].
    destruct (Z.leb_spec rows 0); [lia|]. destruct (Z.leb_spec cols 0); [lia|].
    simpl. destruct st; simpl.
    split; [apply wellFormed_newTable|]. split; [apply findCell_newTable|].
    split.
    { rewrite (length_allCells_uniform _ (Z.to_nat cols))
        by apply (newTable_row_lengths (Num rows) (Num cols)).
      rewrite length_newTable. simpl. lia. }
    split; [apply computeMergeSpans_newTable | done].
Qed.

(** ** Grids of the same layout *)

Lemma samePlace_refl (x : CellObject) : samePlace x x.
Proof. done. Qed.

Lemma sameFrame_refl (x : CellObject) : sameFrame x x.
Proof. done. Qed.

Lemma sameFrame_trans (x y z : CellObject) : sameFrame x y → sameFrame y z → sameFrame x z.
Proof. unfold sameFrame, samePlace. intuition congruence. Qed.

Lemma samePlace_trans (x y z : CellObject) : samePlace x y → samePlace y z → samePlace x z.
Proof. unfold samePlace. intuition congruence. Qed.

Lemma rowsRel_refl (R : CellObject → CellObject → Prop) (rows : list TableRow) :
  (∀ x, R x x) → rowsRel R rows rows.
Proof.
  intros Hrefl. apply Forall_Forall2_diag, Forall_forall. intros row _.
  split; [done|]. by apply Forall_Forall2_diag, Forall_forall.
Qed.

Lemma rowsRel_trans (R : CellObject → CellObject → Prop) (rows1 rows2 rows3 : list TableRow) :
  (∀ x y z, R x y → R y z → R x z) →
  rowsRel R rows1 rows2 → rowsRel R rows2 rows3 → rowsRel R rows1 rows3.
Proof.
  intros Htrans. apply Forall2_trans.
  intros r1 r2 r3 [Hi1 Hc1] [Hi2 Hc2]. split; [congruence|].
  by eapply Forall2_trans.
Qed.

Lemma rowsRel_impl (R R' : CellObject → CellObject → Prop) (rows rows' : list TableRow) :
  (∀ x y, R x y → R' x y) → rowsRel R rows rows' → rowsRel R' rows rows'.
Proof.
  intros Himpl Hrel. eapply Forall2_impl; [exact Hrel|].
  intros r1 r2 [Hi Hc]. split; [done|]. by eapply Forall2_impl.
Qed.

Lemma rowsRel_forEachCell (R : CellObject → CellObject → Prop)
    (f : CellObject → CellObject) (rows : list TableRow) :
  (∀ x, R x (f x)) → rowsRel R rows (forEachCell f rows).
Proof.
  intros Hf. unfold rowsRel, forEachCell. change (map ?g ?l) with (g <$> l).
  apply Forall2_fmap_r, Forall_Forall2_diag, Forall_forall. intros row _.
  split; [done|]. simpl. change (map ?g ?l) with (g <$> l).
  apply Forall2_fmap_r, Forall_Forall2_diag, Forall_forall. intros x _. apply Hf.
Qed.

Lemma Forall2_updateFirst {A : Type} (R : A → A → Prop) (p : A → bool) (f : A → A)
    (l : list A) :
  (∀ x, R x x) → (∀ x, p x = true → R x (f x)) → Forall2 R l (updateFirst p f l).
Proof.
  intros Hrefl Hf. induction l as [|x l IH]; [constructor|].
  simpl. destruct (p x) eqn:Hp.
  - constructor; [by apply Hf|]. by apply Forall_Forall2_diag, Forall_forall.
  - by constructor.
Qed.

Lemma rowsRel_updateCell (R : CellObject → CellObject → Prop)
    (f : CellObject → CellObject) (rows : list TableRow) (r c : Z) :
  (∀ x, R x x) → (∀ x, R x (f x)) → rowsRel R rows (updateCell rows r c f).
Proof.
  intros Hrefl Hf. unfold rowsRel, updateCell. apply Forall2_updateFirst.
  - intros row. split; [done|]. by apply Forall_Forall2_diag, Forall_forall.
  - intros row _. split; [done|]. simpl. by apply Forall2_updateFirst.
Qed.

Lemma rowsRel_allCells (R : CellObject → CellObject → Prop) (rows rows' : list TableRow) :
  rowsRel R rows rows' → Forall2 R (allCells rows) (allCells rows').
Proof.
  intros Hrel. unfold allCells. apply Forall2_bind.
  eapply Forall2_impl; [exact Hrel|]. by intros r1 r2 [_ Hc].
Qed.

Lemma Forall2_fmap_eq {A B : Type} (R : A → A → Prop) (g : A → B) (l l' : list A) :
  (∀ x y, R x y → g y = g x) → Forall2 R l l' → g <$> l' = g <$> l.
Proof.
  intros Hg. induction 1 as [|x y l l' Hxy _ IH]; [done|].
  rewrite !fmap_cons, IH, (Hg x y Hxy). done.
Qed.

Lemma Forall2_elem_of_r {A : Type} (R : A → A → Prop) (l l' : list A) (y : A) :
  Forall2 R l l' → y ∈ l' → ∃ x, x ∈ l ∧ R x y.
Proof.
  induction 1 as [|x0 y0 l l' Hxy _ IH]; intros Hin.
  - by apply elem_of_nil in Hin.
  - apply elem_of_cons in Hin as [->|Hin].
    + exists x0. split; [left | done].
    + destruct (IH Hin) as (x & Hx & HR). exists x. split; [by right | done].
Qed.

Lemma wellFormed_rowsRel (rows rows' : list TableRow) :
  rowsRel samePlace rows rows' → wellFormed rows → wellFormed rows'.
Proof.
  intros Hrel [Hnd Hrows]. split.
  - change (map ?g ?l) with (g <$> l) in *.
    rewrite (Forall2_fmap_eq _ row_rowIndex rows rows' (λ r1 r2 H, proj1 H) Hrel). done.
  - intros row' Hrow'.
    destruct (Forall2_elem_of_r _ _ _ _ Hrel Hrow') as (row & Hrow & Hi & Hc).
    destruct (Hrows row Hrow) as [Hcols Hcells]. split.
    + change (map ?g ?l) with (g <$> l) in *.
      rewrite (Forall2_fmap_eq samePlace columnIndex (cells row) (cells row')); [done| |done].
      by intros x y (_ & _ & Hcol).
    + intros cell' Hcell'.
      destruct (Forall2_elem_of_r _ _ _ _ Hc Hcell') as (cell & Hcell & Hid & Hr & Hcol).
      destruct (Hcells cell Hcell) as [H1 H2]. split; congruence.
Qed.

Lemma inGroup_sameFrame (k : string) (x y : CellObject) :
  sameFrame x y → inGroup k y = inGroup k x.
Proof. intros (_ & Hm & Hid). unfold inGroup. by rewrite Hm, Hid. Qed.

Lemma computeMergeSpans_sameLayout (rows rows' : list TableRow) :
  sameLayout rows rows' → computeMergeSpans rows' = computeMergeSpans rows.
Proof.
  intros Hrel. apply rowsRel_allCells in Hrel.
  apply map_eq. intros k. rewrite !computeMergeSpans_lookup.
  replace (positionsOf k rows') with (positionsOf k rows); [done|].
  unfold positionsOf, groupCells.
  induction Hrel as [|x y l l' Hxy _ IH]; [done|].
  rewrite !filter_cons, (inGroup_sameFrame k x y Hxy).
  destruct (decide (inGroup k x = true)); [|done].
  rewrite !fmap_cons, IH. f_equal. unfold positionOf.
  destruct Hxy as ((_ & Hr & Hc) & _). by rewrite Hr, Hc.
Qed.

Lemma find_Forall2 {A : Type} (R : A → A → Prop) (p : A → bool) (l l' : list A) :
  (∀ x y, R x y → p y = p x) → Forall2 R l l' →
  option_Forall2 R (List.find p l) (List.find p l').
Proof.
  intros Hp. induction 1 as [|x y l l' Hxy _ IH]; [constructor|].
  simpl. rewrite (Hp x y Hxy). destruct (p x); [by constructor | done].
Qed.

Lemma findCell_rowsRel (R : CellObject → CellObject → Prop) (rows rows' : list TableRow)
    (r c : Z) :
  (∀ x y, R x y → columnIndex y = columnIndex x) →
  rowsRel R rows rows' →
  option_Forall2 R (findCell rows r c) (findCell rows' r c).
Proof.
  intros Hcol Hrel. unfold findCell.
  pose proof (find_Forall2 _ (λ row, row_rowIndex row =? r) rows rows'
                (λ r1 r2 H, f_equal (λ z, z =? r) (proj1 H)) Hrel) as Hfind.
  destruct Hfind as [row row' [_ Hc]|]; [|constructor]. simpl.
  apply find_Forall2; [|done]. intros x y Hxy. by rewrite (Hcol x y Hxy).
Qed.

Lemma keepsLayout_intro (handler : State → State) :
  (∀ st, sameLayout (tableRows st) (tableRows (handler st))) → keepsLayout handler.
Proof.
  intros Hsame st. split; [done|]. split.
  - by apply computeMergeSpans_sameLayout.
  - apply wellFormed_rowsRel. eapply rowsRel_impl; [|apply Hsame]. by intros x y [H _].
Qed.

Lemma sameFrame_withSequenceNumber (v : string) (x : CellObject) :
  sameFrame x (withSequenceNumber v x).
Proof. done. Qed.

Lemma sameFrame_withBlocked (b : bool) (x : CellObject) : sameFrame x (withBlocked b x).
Proof. done. Qed.

Lemma sameFrame_withBlank (b : bool) (x : CellObject) : sameFrame x (withBlank b x).
Proof. done. Qed.

Lemma sameLayout_forGroup (mid : string) (f : CellObject → CellObject)
    (rows : list TableRow) :
  (∀ x, sameFrame x (f x)) → sameLayout rows (forGroup mid f rows).
Proof.
  intros Hf. apply rowsRel_forEachCell. intros x.
  destruct (bool_decide (mergeId x = mid)); [apply Hf | done].
Qed.

(** The write to one cell followed, when [propagate] holds, by the write
    to its merge group. *)
Lemma sameLayout_propagate (rows : list TableRow) (r c : Z) (mid : string)
    (f : CellObject → CellObject) (propagate : bool) :
  (∀ x, sameFrame x (f x)) →
  sameLayout rows
    (if propagate then forGroup mid f (updateCell rows r c f) else updateCell rows r c f).
Proof.
  intros Hf.
  assert (Hupd : sameLayout rows (updateCell rows r c f))
    by (by apply rowsRel_updateCell).
  destruct propagate; [|done].
  eapply rowsRel_trans; [apply sameFrame_trans | exact Hupd |].
  by apply sameLayout_forGroup.
Qed.

Lemma sameLayout_blankLoop (b : bool) (spans : gmap string MergeSpanInfo)
    (selected : list CellId) (rows : list TableRow) :
  sameLayout rows (blankLoop b spans selected rows).
Proof.
  unfold blankLoop. revert rows.
  induction selected as [|cid selected IH]; intros rows.
  { by apply rowsRel_refl. }
  simpl. eapply rowsRel_trans; [apply sameFrame_trans | | apply IH].
  destruct (findCell rows (id_row cid) (id_col cid)) as [t|]; [|by apply rowsRel_refl].
  destruct (isCellHidden t spans); [by apply rowsRel_refl|].
  apply sameLayout_propagate, sameFrame_withBlank.
Qed.

Lemma sameLayout_fillOne (rows : list TableRow) (fc : FillCell) :
  sameLayout rows (fillOne rows fc).
Proof.
  unfold fillOne.
  destruct (findCell rows (fill_row fc) (fill_col fc)) as [t|]; [|by apply rowsRel_refl].
  apply sameLayout_propagate, sameFrame_withSequenceNumber.
Qed.

Lemma sameLayout_fill (fillCells : list FillCell) (rows : list TableRow) :
  sameLayout rows (foldl fillOne rows fillCells).
Proof.
  revert rows. induction fillCells as [|fc fillCells IH]; intros rows.
  { by apply rowsRel_refl. }
  simpl. eapply rowsRel_trans; [apply sameFrame_trans | apply sameLayout_fillOne | apply IH].
Qed.

Lemma tableRows_resetDragState (st : State) :
  tableRows (resetDragState st) = tableRows st.
Proof. by destruct st. Qed.

Lemma tableRows_cleared (rows : list TableRow) (st : State) :
  tableRows (resetDragState (setIsSelectionMode false
               (setSelectedCells [] (setTableRows rows st)))) = rows.
Proof. by destruct st. Qed.

Lemma sameLayout_setBlank (b : bool) (st : State) :
  sameLayout (tableRows st) (tableRows (setBlankSelectedCells b st)).
Proof.
  unfold setBlankSelectedCells.
  destruct (selectedCells st) as [|cid sel]; [by apply rowsRel_refl|].
  rewrite tableRows_cleared. apply sameLayout_blankLoop.
Qed.

(** X7: set-value, toggle-block, blank, unblank and the autofill commit
    change neither the layout of the grid nor its merge groups: the rows and
    their cells stay in place with their ids, indices, merge flags and merge
    ids, so the merge spans computed from the grid are the same, and a
    well-formed grid stays well formed. *)
Theorem value_mutations_keep_layout (r c : Z) (v : string) :
  keepsLayout (handleCellValueChange r c v)
  ∧ keepsLayout (handleCheckboxChange r c)
  ∧ keepsLayout blankSelectedCells
  ∧ keepsLayout unblankSelectedCells
  ∧ keepsLayout handleAutofillMouseUp.
Proof.
  split; [|split; [|split; [|split]]]; apply keepsLayout_intro; intros st.
  - unfold handleCellValueChange.
    destruct (findCell (tableRows st) r c) as [t|]; [|by apply rowsRel_refl].
    rewrite setTableRows_tableRows.
    apply sameLayout_propagate, sameFrame_withSequenceNumber.
  - unfold handleCheckboxChange.
    destruct (findCell (tableRows st) r c) as [t|]; [|by apply rowsRel_refl].
    rewrite setTableRows_tableRows.
    apply sameLayout_propagate, sameFrame_withBlocked.
  - apply sameLayout_setBlank.
  - apply sameLayout_setBlank.
  - unfold handleAutofillMouseUp.
    destruct (active (autofillDrag st)); [|by apply rowsRel_refl]. simpl.
    assert (Hrows : ∀ s, tableRows (setAutofillPreviewCells []
              (setAutofillDrag noAutofillDrag s)) = tableRows s) by (by intros []).
    rewrite Hrows.
    match goal with |- context [match ?l with [] => _ | _ => _ end] =>
      generalize l end.
    intros fillCells. destruct fillCells as [|fc fillCells]; [by apply rowsRel_refl|].
    rewrite setTableRows_tableRows. apply sameLayout_fill.
Qed.

(** ** Writes on a well-formed grid *)

Lemma updateFirst_fmap {A : Type} (key : A → Z) (k : Z) (g : A → A) (l : list A) :
  NoDup (key <$> l) →
  updateFirst (λ x, key x =? k) g l = (λ x, if key x =? k then g x else x) <$> l.
Proof.
  induction l as [|x l IH]; intros Hnd; [done|].
  rewrite fmap_cons in Hnd. apply NoDup_cons in Hnd as [Hx Hnd].
  cbn [updateFirst fmap list_fmap]. destruct (Z.eqb_spec (key x) k) as [Hk|Hk].
  - f_equal. etrans; [symmetry; apply list_fmap_id|]. apply list_fmap_ext.
    intros i y Hy. apply list_elem_of_lookup_2 in Hy.
    destruct (Z.eqb_spec (key y) k) as [Hy'|]; [|done].
    destruct Hx. rewrite Hk, <- Hy'. by apply list_elem_of_fmap_2.
  - f_equal. by apply IH.
Qed.

Lemma updateCell_wellFormed (rows : list TableRow) (r c : Z) (f : CellObject → CellObject) :
  wellFormed rows →
  updateCell rows r c f
  = forEachCell (λ x, if (rowIndex x =? r) && (columnIndex x =? c) then f x else x) rows.
Proof.
  intros [Hnd Hrows]. unfold updateCell, forEachCell.
  change (map ?g ?l) with (g <$> l) in *.
  rewrite (updateFirst_fmap row_rowIndex) by done.
  apply list_fmap_ext. intros i row Hrow. apply list_elem_of_lookup_2 in Hrow.
  destruct (Hrows row Hrow) as [Hcols Hcells].
  destruct (Z.eqb_spec (row_rowIndex row) r) as [Hr|Hr].
  - f_equal. rewrite (updateFirst_fmap columnIndex) by done.
    apply list_fmap_ext. intros j x Hx. apply list_elem_of_lookup_2 in Hx.
    destruct (Hcells x Hx) as [Hxr _]. rewrite Hxr, Hr, Z.eqb_refl. done.
  - destruct row as [idx cs]. simpl in *. f_equal.
    etrans; [symmetry; apply list_fmap_id|]. apply list_fmap_ext.
    intros j x Hx. apply list_elem_of_lookup_2 in Hx.
    destruct (Hcells x Hx) as [Hxr _]. rewrite Hxr.
    by destruct (Z.eqb_spec idx r).
Qed.

Lemma propagate_wellFormed (rows : list TableRow) (r c : Z)
    (f : CellObject → CellObject) (t : CellObject) :
  valueSetter f → wellFormed rows →
  (if truthy (mergeId t) then forGroup (mergeId t) f (updateCell rows r c f)
   else updateCell rows r c f)
  = forEachCell (writeTo r c t f) rows.
Proof.
  intros (Hid & _ & _ & _ & Hidem) Hwf. rewrite updateCell_wellFormed by done.
  unfold writeTo, reached. destruct (truthy (mergeId t)).
  - unfold forGroup. rewrite forEachCell_compose. apply forEachCell_ext. intros x. simpl.
    destruct ((rowIndex x =? r) && (columnIndex x =? c)); simpl.
    + rewrite Hid. destruct (bool_decide _); [apply Hidem | done].
    + done.
  - apply forEachCell_ext. intros x. simpl. by rewrite orb_false_r.
Qed.

Lemma find_holds {A : Type} (p : A → bool) (l : list A) (x : A) :
  List.find p l = Some x → p x = true.
Proof.
  induction l as [|y l IH]; simpl; [done|].
  destruct (p y) eqn:Hy; [by intros [= <-] | exact IH].
Qed.

Lemma findCell_position (rows : list TableRow) (r c : Z) (x : CellObject) :
  wellFormed rows → findCell rows r c = Some x → rowIndex x = r ∧ columnIndex x = c.
Proof.
  intros [_ Hrows] Hx. unfold findCell in Hx.
  destruct (List.find (λ row, row_rowIndex row =? r) rows) as [row|] eqn:Hrow; [|done].
  simpl in Hx. pose proof (find_holds _ _ _ Hrow) as Hr. apply Z.eqb_eq in Hr.
  pose proof (find_holds _ _ _ Hx) as Hc. apply Z.eqb_eq in Hc.
  apply find_elem_of in Hrow, Hx. destruct (Hrows row Hrow) as [_ Hcells].
  destruct (Hcells x Hx) as [Hxr _]. split; congruence.
Qed.

Lemma forEachCell_id_on (f : CellObject → CellObject) (rows : list TableRow) :
  (∀ x, x ∈ allCells rows → f x = x) → forEachCell f rows = rows.
Proof.
  intros Hf. unfold forEachCell. change (map ?g ?l) with (g <$> l).
  etrans; [|apply list_fmap_id]. apply list_fmap_ext.
  intros i row Hrow. apply list_elem_of_lookup_2 in Hrow.
  destruct row as [idx cs]. simpl. f_equal.
  etrans; [|apply list_fmap_id]. apply list_fmap_ext.
  intros j x Hx. apply list_elem_of_lookup_2 in Hx. apply Hf.
  unfold allCells. apply list_elem_of_bind. by exists (mkRow idx cs).
Qed.

Lemma wellFormed_forEachCell (f : CellObject → CellObject) (rows : list TableRow) :
  (∀ x, samePlace x (f x)) → wellFormed rows → wellFormed (forEachCell f rows).
Proof. intros Hf. by apply wellFormed_rowsRel, rowsRel_forEachCell. Qed.

Lemma reached_target (rows : list TableRow) (r c : Z) (t : CellObject) :
  wellFormed rows → findCell rows r c = Some t → reached r c t t = true.
Proof.
  intros Hwf Ht. destruct (findCell_position rows r c t Hwf Ht) as [Hr Hc].
  unfold reached. by rewrite Hr, Hc, !Z.eqb_refl.
Qed.

Lemma findCell_writeTo (rows : list TableRow) (r c : Z) (t : CellObject)
    (f : CellObject → CellObject) :
  (∀ x, columnIndex (f x) = columnIndex x) →
  wellFormed rows → findCell rows r c = Some t →
  findCell (forEachCell (writeTo r c t f) rows) r c = Some (f t).
Proof.
  intros Hcol Hwf Ht. rewrite findCell_forEachCell.
  - rewrite Ht. simpl. unfold writeTo. by rewrite (reached_target rows).
  - intros x. unfold writeTo. destruct (reached r c t x); [apply Hcol | done].
Qed.

(** X8: on a well-formed grid, set-value on an existing cell writes the
    value into that cell and into every cell carrying its merge id, when it
    has one, and leaves every other cell, the merge spans and the selection
    as they were. *)
Theorem set_value_effect (r c : Z) (v : string) (st : State) (t : CellObject) :
  wellFormed (tableRows st) → findCell (tableRows st) r c = Some t →
  let st' := handleCellValueChange r c v st in
  tableRows st' = forEachCell (writeTo r c t (withSequenceNumber v)) (tableRows st)
  ∧ findCell (tableRows st') r c = Some (withSequenceNumber v t)
  ∧ mergeSpans st' = computeMergeSpans (tableRows st)
  ∧ selectedCells st' = selectedCells st.
Proof.
  intros Hwf Ht. simpl.
  assert (Hrows : tableRows (handleCellValueChange r c v st)
            = forEachCell (writeTo r c t (withSequenceNumber v)) (tableRows st)).
  { unfold handleCellValueChange. rewrite Ht, setTableRows_tableRows.
    apply propagate_wellFormed; [apply valueSetter_withSequenceNumber | done]. }
  split; [done|]. split.
  { rewrite Hrows. by apply findCell_writeTo. }
  split.
  - transitivity (computeMergeSpans (tableRows (handleCellValueChange r c v st))).
    + unfold handleCellValueChange. rewrite Ht. by destruct st.
    + rewrite Hrows. apply computeMergeSpans_sameLayout, rowsRel_forEachCell.
      intros x. unfold writeTo. by destruct (reached r c t x).
  - unfold handleCellValueChange. rewrite Ht. by destruct st.
Qed.

Lemma set_value_effect_witness :
  findCell (tableRows (handleCellValueChange 1 2 "7" mergedRowGrid)) 1 2
  = Some (withSequenceNumber "7" (mkCell (cellId 1 2) "-" false true "1112" false 1 2)).
Proof.
  destruct (set_value_effect 1 2 "7" mergedRowGrid
              (mkCell (cellId 1 2) "-" false true "1112" false 1 2))
    as (_ & Hfound & _).
  - apply wellFormedb_spec. vm_compute. reflexivity.
  - vm_compute. reflexivity.
  - exact Hfound.
Defined.

(** X9: on a well-formed grid whose merge groups agree, toggling the block
    flag of an existing cell flips it, and toggling it a second time gives
    back the grid; when the merge spans were those of the grid, the whole
    state is back. *)
Theorem toggle_block_twice (r c : Z) (st : State) (t : CellObject) :
  wellFormed (tableRows st) → groupAgreement (tableRows st) →
  findCell (tableRows st) r c = Some t →
  let st1 := handleCheckboxChange r c st in
  let st2 := handleCheckboxChange r c st1 in
  findCell (tableRows st1) r c = Some (withBlocked (negb (isBlocked t)) t)
  ∧ tableRows st2 = tableRows st
  ∧ (mergeSpans st = computeMergeSpans (tableRows st) → st2 = st).
Proof.
  intros Hwf Hagree Ht. simpl.
  set (nb := negb (isBlocked t)).
  set (rows1 := forEachCell (writeTo r c t (withBlocked nb)) (tableRows st)).
  assert (Hst1 : handleCheckboxChange r c st = setTableRows rows1 st).
  { unfold handleCheckboxChange. rewrite Ht. f_equal.
    apply propagate_wellFormed; [apply valueSetter_withBlocked | done]. }
  assert (Hfind1 : findCell rows1 r c = Some (withBlocked nb t))
    by (by apply findCell_writeTo).
  assert (Hwf1 : wellFormed rows1).
  { apply wellFormed_forEachCell; [|done].
    intros x. unfold writeTo. by destruct (reached r c t x). }
  assert (Hrows2 : tableRows (handleCheckboxChange r c (setTableRows rows1 st))
            = tableRows st).
  { unfold handleCheckboxChange. rewrite !setTableRows_tableRows, Hfind1.
    rewrite setTableRows_tableRows.
    rewrite propagate_wellFormed; [|apply valueSetter_withBlocked | done].
    unfold rows1. rewrite forEachCell_compose. apply forEachCell_id_on.
    intros x Hx. simpl. unfold writeTo at 2.
    destruct (reached r c t x) eqn:Hreach.
    - unfold writeTo.
      replace (reached r c (withBlocked nb t) (withBlocked nb x)) with true
        by (symmetry; exact Hreach).
      assert (Hb : isBlocked x = isBlocked t).
      { unfold reached in Hreach. apply orb_true_iff in Hreach as [Hpos|Hgroup].
        - apply andb_true_iff in Hpos as [Hr Hc].
          apply Z.eqb_eq in Hr, Hc.
          pose proof (findCell_wellFormed (tableRows st) x Hwf Hx) as Hfx.
          rewrite Hr, Hc, Ht in Hfx. by injection Hfx as ->.
        - apply andb_true_iff in Hgroup as [Hne Heq].
          apply truthy_spec in Hne. apply bool_decide_eq_true in Heq.
          destruct (Hagree t x) as (_ & Hblocked & _);
            [by eapply findCell_elem_of | done | done | done |]. done. }
      unfold nb. simpl. rewrite negb_involutive, <- Hb. by destruct x.
    - unfold writeTo.
      replace (reached r c (withBlocked nb t) x) with false
        by (symmetry; exact Hreach).
      done. }
  rewrite Hst1. split; [by rewrite setTableRows_tableRows|]. split; [done|].
  intros Hsync. revert Hrows2. unfold handleCheckboxChange.
  rewrite !setTableRows_tableRows, Hfind1. destruct st; simpl in *.
  intros ->. by rewrite Hsync.
Qed.

Lemma toggle_block_twice_witness :
  tableRows (handleCheckboxChange 1 2 (handleCheckboxChange 1 2 mergedRowGrid))
  = tableRows mergedRowGrid.
Proof.
  destruct (toggle_block_twice 1 2 mergedRowGrid
              (mkCell (cellId 1 2) "-" false true "1112" false 1 2))
    as (_ & Hback & _).
  - apply wellFormedb_spec. vm_compute. reflexivity.
  - apply groupAgreementb_spec. vm_compute. reflexivity.
  - vm_compute. reflexivity.
  - exact Hback.
Defined.

(** ** Rectangles, drags and clicks *)

Lemma NoDup_rectangleIds (minRow maxRow minCol maxCol : Z) :
  NoDup (rectangleIds minRow maxRow minCol maxCol).
Proof.
  unfold rectangleIds. apply NoDup_bind; [| |apply NoDup_seqZ].
  - intros r1 r2 y _ _ H1 H2.
    apply list_elem_of_bind in H1 as (c1 & H1 & _).
    apply list_elem_of_bind in H2 as (c2 & H2 & _).
    apply list_elem_of_singleton in H1, H2. subst y. by injection H2.
  - intros r _. apply NoDup_bind; [| |apply NoDup_seqZ].
    + intros c1 c2 y _ _ H1 H2.
      apply list_elem_of_singleton in H1, H2. subst y. by injection H2.
    + intros c _. apply NoDup_singleton.
Qed.

Lemma length_bind_uniform {A B : Type} (f : A → list B) (l : list A) (m : nat) :
  (∀ x, length (f x) = m) → length (l ≫= f) = (length l * m)%nat.
Proof.
  intros Hf. induction l as [|x l IH]; [done|].
  rewrite bind_cons, length_app, IH, Hf. simpl. lia.
Qed.

Lemma length_rectangleIds (minRow maxRow minCol maxCol : Z) :
  length (rectangleIds minRow maxRow minCol maxCol)
  = (Z.to_nat (maxRow - minRow + 1) * Z.to_nat (maxCol - minCol + 1))%nat.
Proof.
  unfold rectangleIds, range.
  rewrite (length_bind_uniform _ _ (Z.to_nat (maxCol - minCol + 1))).
  - by rewrite length_seqZ.
  - intros r. rewrite (length_bind_uniform _ _ 1%nat) by done.
    rewrite length_seqZ. lia.
Qed.

(** X10: the drag rectangle between two cells holds exactly the ids within
    the row and column bounds of the two, both endpoints among them, each id
    once, (|r1 - r2| + 1) * (|c1 - c2| + 1) ids in all, and it is the same
    whichever of the two cells is taken as the start. *)
Theorem rectangular_selection (r1 c1 r2 c2 : Z) :
  let sel := getRectangularSelection r1 c1 r2 c2 in
  (∀ cid, cid ∈ sel ↔ Z.min r1 r2 ≤ id_row cid ≤ Z.max r1 r2
                      ∧ Z.min c1 c2 ≤ id_col cid ≤ Z.max c1 c2)
  ∧ cellId r1 c1 ∈ sel ∧ cellId r2 c2 ∈ sel
  ∧ NoDup sel
  ∧ Z.of_nat (length sel) = (Z.abs (r1 - r2) + 1) * (Z.abs (c1 - c2) + 1)
  ∧ getRectangularSelection r2 c2 r1 c1 = sel.
Proof.
  simpl. unfold getRectangularSelection. split_and!.
  - intros cid. apply elem_of_rectangleIds.
  - apply elem_of_rectangleIds. simpl. lia.
  - apply elem_of_rectangleIds. simpl. lia.
  - apply NoDup_rectangleIds.
  - rewrite length_rectangleIds. lia.
  - by rewrite (Z.min_comm r2), (Z.max_comm r2), (Z.min_comm c2), (Z.max_comm c2).
Qed.

Lemma NoDup_set_add (x : CellId) (s : list CellId) : NoDup s → NoDup (set_add x s).
Proof.
  intros Hnd. unfold set_add. destruct (set_has x s) eqn:Hx; [done|].
  apply NoDup_app. split; [done|]. split; [|apply NoDup_singleton].
  intros y Hy Hy'. apply list_elem_of_singleton in Hy' as ->.
  apply set_has_spec in Hy. congruence.
Qed.

Lemma NoDup_set_addAll (l s : list CellId) : NoDup s → NoDup (set_addAll l s).
Proof.
  unfold set_addAll. revert s. induction l as [|x l IH]; intros s Hnd; [done|].
  simpl. by apply IH, NoDup_set_add.
Qed.

(** X11: a press on a cell followed by a move of the pointer over another
    cell selects the ids that were selected before the press together with
    the rectangle between the two cells, with or without the shift key; the
    result depends on the last cell entered only, not on the cells crossed
    before; the release keeps the selection, and a move after the release
    changes nothing. *)
Theorem drag_selection (r0 c0 r c r' c' : Z) (ev : MouseEvent) (st : State) :
  targetIsInput ev = false → active (autofillDrag st) = false →
  let pressed := handleCellMouseDown true r0 c0 ev st in
  let moved := handleCellMouseEnter r c pressed in
  (∀ cid, cid ∈ selectedCells moved
          ↔ cid ∈ selectedCells st ∨ cid ∈ getRectangularSelection r0 c0 r c)
  ∧ (NoDup (selectedCells st) → NoDup (selectedCells moved))
  ∧ handleCellMouseEnter r c (handleCellMouseEnter r' c' pressed) = moved
  ∧ selectedCells (handleMouseUp moved) = selectedCells moved
  ∧ isDragging (handleMouseUp moved) = false
  ∧ handleCellMouseEnter r' c' (handleMouseUp moved) = handleMouseUp moved
  ∧ tableRows (handleMouseUp moved) = tableRows st.
Proof.
  intros Hinput Hactive. simpl.
  unfold handleCellMouseDown. rewrite Hinput, Hactive. simpl.
  destruct st as [rc cc tr ms sc sm dg ds dsel pre ad ap dl pg].
  destruct (shiftKey ev); simpl;
    (split_and!;
       [ intros cid; unfold handleCellMouseEnter; simpl;
         rewrite elem_of_set_addAll; tauto
       | intros Hnd; unfold handleCellMouseEnter; simpl; by apply NoDup_set_addAll
       | done | done | done | done | done ]).
Qed.

Lemma drag_selection_witness :
  cellId 2 2 ∈ selectedCells (dragOnFreshGrid 3 3 1 1 2 2).
Proof.
  destruct (drag_selection 1 1 2 2 1 2 plainEvent
              (createNewTable (Num 3) (Num 3) (initialState (Num 3) (Num 3))))
    as (Hsel & _ & _ & Hup & _).
  - reflexivity.
  - reflexivity.
  - unfold dragOnFreshGrid. rewrite Hup. apply Hsel. right.
    apply list_elem_of_In. vm_compute. tauto.
Defined.

Lemma set_add_member (x : CellId) (s : list CellId) : x ∈ s → set_add x s = s.
Proof. intros Hx. unfold set_add. by apply set_has_spec in Hx as ->. Qed.

Lemma NoDup_set_delete (x : CellId) (s : list CellId) : NoDup s → NoDup (set_delete x s).
Proof. apply NoDup_filter. Qed.

Lemma length_set_delete (x : CellId) (s : list CellId) :
  NoDup s → (1 < length s)%nat → set_delete x s ≠ [].
Proof.
  intros Hnd Hlen Hnil.
  destruct s as [|a [|b s]]; simpl in Hlen; [lia..|].
  assert (Ha : a ∉ set_delete x (a :: b :: s)) by (rewrite Hnil; apply not_elem_of_nil).
  assert (Hb : b ∉ set_delete x (a :: b :: s)) by (rewrite Hnil; apply not_elem_of_nil).
  rewrite elem_of_set_delete in Ha, Hb.
  apply NoDup_cons in Hnd as [Hab _].
  destruct (decide (a = x)) as [->|Hax].
  - destruct (decide (b = x)) as [->|Hbx].
    + apply Hab. left.
    + apply Hb. split; [done|]. right. left.
  - apply Ha. split; [done | left].
Qed.

(** X12: a click on a cell, outside a drag, never leaves the selection
    empty and keeps it free of duplicates.  Without Ctrl or Cmd the clicked
    cell is selected afterwards and, in selection mode, no id leaves the
    selection; with Ctrl or Cmd, in selection mode, only the clicked id can
    enter or leave, and it leaves exactly when it was selected with others. *)
Theorem click_selection (r c : Z) (ev : MouseEvent) (st : State) :
  isDragging st = false → NoDup (selectedCells st) →
  let st' := handleCellClick true r c ev st in
  let cid := cellId r c in
  selectedCells st' ≠ []
  ∧ NoDup (selectedCells st')
  ∧ isSelectionMode st' = true
  ∧ tableRows st' = tableRows st
  ∧ (isSelectionMode st = false → selectedCells st' = [cid])
  ∧ (isSelectionMode st = true → ∀ x, x ≠ cid → x ∈ selectedCells st' ↔ x ∈ selectedCells st)
  ∧ (ctrlKey ev || metaKey ev = false → cid ∈ selectedCells st')
  ∧ (isSelectionMode st = true → ctrlKey ev || metaKey ev = true →
       (cid ∈ selectedCells st'
        ↔ ¬ (cid ∈ selectedCells st ∧ (1 < length (selectedCells st))%nat))).
Proof.
  intros Hdrag Hnd. simpl. unfold handleCellClick. rewrite Hdrag. simpl.
  destruct st as [rc cc tr ms sc sm dg ds dsel pre ad ap dl pg]. simpl in *.
  destruct sm; simpl.
  2: { split_and!; try done.
       - apply NoDup_singleton.
       - intros _. left. }
  set (cid := cellId r c).
  destruct (ctrlKey ev || metaKey ev); simpl.
  - destruct (set_has cid sc) eqn:Hhas; simpl.
    + apply set_has_spec in Hhas.
      destruct (Nat.ltb_spec 1 (length sc)) as [Hlen|Hlen].
      * split_and!; try done.
        -- by apply length_set_delete.
        -- by apply NoDup_set_delete.
        -- intros _ x Hx. rewrite elem_of_set_delete. tauto.
        -- intros _ _. rewrite elem_of_set_delete. tauto.
      * split_and!; try done.
        -- rewrite set_add_member by done. intros ->. by apply elem_of_nil in Hhas.
        -- by apply NoDup_set_add.
        -- intros _ x Hx. rewrite elem_of_set_add. tauto.
        -- intros _ _. rewrite elem_of_set_add. split; [lia | tauto].
    + assert (Hnot : cid ∉ sc) by (rewrite <- set_has_spec; congruence).
      split_and!; try done.
      * unfold set_add. rewrite Hhas. by destruct sc.
      * by apply NoDup_set_add.
      * intros _ x Hx. rewrite elem_of_set_add. tauto.
      * intros _ _. rewrite elem_of_set_add. tauto.
  - destruct (set_has cid sc) eqn:Hhas; simpl.
    + apply set_has_spec in Hhas.
      assert (Hne : sc ≠ []) by (intros ->; by apply elem_of_nil in Hhas).
      destruct (length sc =? 1)%nat.
      * split_and!; try done.
      * split_and!; try done.
        -- by rewrite set_add_member.
        -- by apply NoDup_set_add.
        -- intros _ x Hx. rewrite elem_of_set_add. tauto.
        -- intros _. apply elem_of_set_add. by left.
    + split_and!; try done.
      * unfold set_add. rewrite Hhas. by destruct sc.
      * by apply NoDup_set_add.
      * intros _ x Hx. rewrite elem_of_set_add. tauto.
      * intros _. apply elem_of_set_add. by left.
Qed.

Lemma click_selection_witness :
  selectedCells (handleCellClick true 3 3 plainEvent squareSelection) ≠ [].
Proof.
  destruct (click_selection 3 3 plainEvent squareSelection) as (Hne & _).
  - reflexivity.
  - vm_compute. apply NoDup_ListNoDup. repeat constructor; simpl; intuition discriminate.
  - exact Hne.
Defined.

Lemma id_inj_wellFormed (rows : list TableRow) (x y : CellObject) :
  wellFormed rows → x ∈ allCells rows → y ∈ allCells rows → id x = id y → x = y.
Proof.
  intros Hwf Hx Hy Hid.
  pose proof (findCell_wellFormed rows x Hwf Hx) as Hfx.
  pose proof (findCell_wellFormed rows y Hwf Hy) as Hfy.
  assert (Hidx : id x = cellId (rowIndex x) (columnIndex x)).
  { unfold allCells in Hx. apply list_elem_of_bind in Hx as (row & Hcell & Hrow).
    destruct Hwf as [_ Hrows]. destruct (Hrows row Hrow) as [_ Hcells].
    by destruct (Hcells x Hcell). }
  assert (Hidy : id y = cellId (rowIndex y) (columnIndex y)).
  { unfold allCells in Hy. apply list_elem_of_bind in Hy as (row & Hcell & Hrow).
    destruct Hwf as [_ Hrows]. destruct (Hrows row Hrow) as [_ Hcells].
    by destruct (Hcells y Hcell). }
  rewrite Hidx, Hidy in Hid. injection Hid as Hr Hc.
  rewrite Hr, Hc, Hfy in Hfx. by injection Hfx.
Qed.

Lemma NoDup_allCells (rows : list TableRow) : wellFormed rows → NoDup (allCells rows).
Proof.
  intros [Hnd Hrows]. unfold allCells. apply NoDup_bind.
  - intros row1 row2 x Hrow1 Hrow2 Hx1 Hx2.
    destruct (Hrows row1 Hrow1) as [_ Hc1]. destruct (Hrows row2 Hrow2) as [_ Hc2].
    destruct (Hc1 x Hx1) as [Hr1 _]. destruct (Hc2 x Hx2) as [Hr2 _].
    assert (Hidx : row_rowIndex row1 = row_rowIndex row2) by congruence.
    apply list_elem_of_lookup in Hrow1 as [i Hi]. apply list_elem_of_lookup in Hrow2 as [j Hj].
    change (map ?g ?l) with (g <$> l) in Hnd.
    assert (i = j) as ->; [|congruence].
    eapply NoDup_lookup; [exact Hnd| |].
    + rewrite list_lookup_fmap, Hi. reflexivity.
    + rewrite list_lookup_fmap, Hj. simpl. by rewrite Hidx.
  - intros row Hrow. destruct (Hrows row Hrow) as [Hcols _].
    change (map ?g ?l) with (g <$> l) in Hcols. by apply NoDup_fmap_1 in Hcols.
  - change (map ?g ?l) with (g <$> l) in Hnd. by apply NoDup_fmap_1 in Hnd.
Qed.

Lemma NoDup_ids (rows : list TableRow) : wellFormed rows → NoDup (id <$> allCells rows).
Proof.
  intros Hwf. apply NoDup_fmap_2_strong; [|by apply NoDup_allCells].
  intros x y Hx Hy. by apply (id_inj_wellFormed rows).
Qed.

Lemma selectAll_fold (spans : gmap string MergeSpanInfo) (cs : list CellObject)
    (acc : list CellId) :
  NoDup (acc ++ (id <$> cs)) →
  foldl (λ all cell, if negb (isCellHidden cell spans) then set_add (id cell) all else all)
        acc cs
  = acc ++ (id <$> filter (λ c, isCellHidden c spans = false) cs).
Proof.
  revert acc. induction cs as [|c cs IH]; intros acc Hnd.
  { simpl. by rewrite app_nil_r. }
  rewrite fmap_cons in Hnd. cbn [foldl]. rewrite filter_cons.
  assert (Hc : id c ∉ acc).
  { apply NoDup_app in Hnd as (_ & Hdisj & _). intros Hin.
    apply (Hdisj _ Hin). left. }
  assert (Hrest : NoDup ((acc ++ [id c]) ++ (id <$> cs))).
  { by rewrite <- app_assoc. }
  destruct (isCellHidden c spans) eqn:Hhidden; cbn [negb].
  - rewrite decide_False by done. apply IH.
    apply NoDup_app in Hrest as (Hacc & Hdisj & Hcs).
    apply NoDup_app. split; [by apply NoDup_app in Hacc as [? _]|]. split; [|done].
    intros x Hx. apply Hdisj. apply elem_of_app. by left.
  - rewrite decide_True by done. rewrite fmap_cons.
    unfold set_add.
    replace (set_has (id c) acc) with false.
    + rewrite IH by done. by rewrite <- app_assoc.
    + symmetry. destruct (set_has (id c) acc) eqn:Hhas; [|done].
      by apply set_has_spec in Hhas.
Qed.

(** X13: select-all on a well-formed grid selects the ids of the cells
    that are not hidden, in grid order and each once, and so as many ids as
    there are shown cells; it switches selection mode on and leaves the
    grid alone.  When selection is not allowed it does nothing. *)
Theorem select_all_shown_cells (st : State) :
  wellFormed (tableRows st) →
  let st' := selectAllCells true st in
  selectedCells st' = id <$> visibleCells (tableRows st) (mergeSpans st)
  ∧ NoDup (selectedCells st')
  ∧ length (selectedCells st') = length (visibleCells (tableRows st) (mergeSpans st))
  ∧ isSelectionMode st' = true
  ∧ tableRows st' = tableRows st
  ∧ selectAllCells false st = st.
Proof.
  intros Hwf. simpl.
  assert (Hsel : selectedCells (selectAllCells true st)
            = id <$> visibleCells (tableRows st) (mergeSpans st)).
  { unfold selectAllCells. simpl.
    transitivity (foldl (λ all cell, if negb (isCellHidden cell (mergeSpans st))
                                     then set_add (id cell) all else all)
                        [] (allCells (tableRows st))).
    - by destruct st.
    - rewrite selectAll_fold; [done|]. simpl. by apply NoDup_ids. }
  split_and!.
  - done.
  - rewrite Hsel. unfold visibleCells.
    apply NoDup_fmap_2_strong.
    + intros x y Hx Hy. apply list_elem_of_filter in Hx as [_ Hx], Hy as [_ Hy].
      by apply (id_inj_wellFormed (tableRows st)).
    + by apply NoDup_filter, NoDup_allCells.
  - by rewrite Hsel, length_fmap.
  - by destruct st.
  - by destruct st.
  - done.
Qed.

Lemma select_all_shown_cells_witness :
  selectedCells (selectAllCells true mergedRowGrid) = [cellId 1 1; cellId 1 3].
Proof.
  destruct (select_all_shown_cells mergedRowGrid) as (Hsel & _).
  - apply wellFormedb_spec. vm_compute. reflexivity.
  - rewrite Hsel. vm_compute. reflexivity.
Defined.

(** ** Unmerge *)

Lemma positionsOf_forEachCell (k : string) (g : CellObject → CellObject)
    (rows : list TableRow) :
  (∀ x, inGroup k (g x) = inGroup k x) → (∀ x, positionOf (g x) = positionOf x) →
  positionsOf k (forEachCell g rows) = positionsOf k rows.
Proof.
  intros Hin Hpos. unfold positionsOf, groupCells. rewrite allCells_forEachCell.
  induction (allCells rows) as [|x l IH]; [done|].
  rewrite fmap_cons, !filter_cons, Hin.
  destruct (decide (inGroup k x = true)); [|done].
  by rewrite !fmap_cons, IH, Hpos.
Qed.

Lemma computeMergeSpans_unmerge (mid : string) (rows : list TableRow) :
  computeMergeSpans (forGroup mid unmerged rows) = delete mid (computeMergeSpans rows).
Proof.
  apply map_eq. intros k. destruct (decide (mid = k)) as [<-|Hk].
  - rewrite lookup_delete_eq, computeMergeSpans_lookup. unfold positionsOf.
    destruct (groupCells mid (forGroup mid unmerged rows)) as [|y ys] eqn:Hg; [done|].
    assert (Hy : y ∈ groupCells mid (forGroup mid unmerged rows)) by (rewrite Hg; left).
    apply elem_of_groupCells in Hy as (Hy & Hm & _ & Hid).
    unfold forGroup in Hy. rewrite allCells_forEachCell in Hy.
    apply list_elem_of_fmap in Hy as (x & -> & _).
    destruct (decide (mergeId x = mid)) as [Hx|Hx].
    + rewrite bool_decide_eq_true_2 in Hm by done. done.
    + rewrite bool_decide_eq_false_2 in Hid by done. done.
  - rewrite lookup_delete_ne by done. rewrite !computeMergeSpans_lookup.
    unfold forGroup. rewrite positionsOf_forEachCell; [done| |].
    + intros x. destruct (decide (mergeId x = mid)) as [Hx|Hx].
      * rewrite bool_decide_eq_true_2 by done. unfold inGroup. simpl.
        rewrite Hx, (bool_decide_eq_false_2 (mid = k)) by done.
        by rewrite !andb_false_r.
      * by rewrite bool_decide_eq_false_2.
    + intros x. by destruct (bool_decide (mergeId x = mid)).
Qed.

(** X14: unmerge acts on the group of the first selected cell, when that
    cell is merged: every cell carrying its merge id loses the merged flag
    and the id, all cells keep their place and their values, the span of the
    group leaves the span index and the other spans stay; the selection is
    kept, the drag state is reset. *)
Theorem unmerge_effect (st : State) (cid : CellId) (rest : list CellId)
    (target : CellObject) :
  selectedCells st = cid :: rest →
  findCell (tableRows st) (id_row cid) (id_col cid) = Some target →
  isMerged target = true →
  let st' := unmergeCells st in
  let mid := mergeId target in
  (∀ r c, findCell (tableRows st') r c
          = (λ x, if bool_decide (mergeId x = mid) then unmerged x else x)
              <$> findCell (tableRows st) r c)
  ∧ (∀ y, y ∈ allCells (tableRows st') → isMerged y = true → mergeId y ≠ mid)
  ∧ rowsRel sameContent (tableRows st) (tableRows st')
  ∧ mergeSpans st' = delete mid (computeMergeSpans (tableRows st))
  ∧ selectedCells st' = selectedCells st
  ∧ isDragging st' = false ∧ dragStartCell st' = None.
Proof.
  intros Hsel Htarget Hmerged. simpl.
  assert (Hst' : unmergeCells st
            = resetDragState
                (setTableRows (forGroup (mergeId target) unmerged (tableRows st)) st)).
  { unfold unmergeCells. by rewrite Hsel, Htarget, Hmerged. }
  rewrite Hst'. rewrite tableRows_resetDragState, setTableRows_tableRows.
  split_and!.
  - intros r c. unfold forGroup. apply findCell_forEachCell.
    intros x. by destruct (bool_decide _).
  - intros y Hy Hm Hid. unfold forGroup in Hy. rewrite allCells_forEachCell in Hy.
    apply list_elem_of_fmap in Hy as (x & -> & _).
    destruct (decide (mergeId x = mergeId target)) as [Hx|Hx].
    + rewrite bool_decide_eq_true_2 in Hm by done. done.
    + rewrite bool_decide_eq_false_2 in Hid by done. done.
  - apply rowsRel_forEachCell. intros x. by destruct (bool_decide _).
  - transitivity (computeMergeSpans (forGroup (mergeId target) unmerged (tableRows st))).
    + by destruct st.
    + apply computeMergeSpans_unmerge.
  - by destruct st.
  - by destruct st.
  - by destruct st.
Qed.

Lemma unmerge_effect_witness :
  mergeSpans (unmergeCells anchorSelected)
  = delete "1112" (computeMergeSpans (tableRows anchorSelected)).
Proof.
  destruct (unmerge_effect anchorSelected (cellId 1 1) []
              (mkCell (cellId 1 1) "-" false true "1112" false 1 1))
    as (_ & _ & _ & Hspans & _).
  - vm_compute. reflexivity.
  - vm_compute. reflexivity.
  - reflexivity.
  - exact Hspans.
Defined.

(** ** The span of a new merge group *)

Lemma samePlace_assignGroup (rect : list CellId) (topLeft : CellObject) (mid : string)
    (rows : list TableRow) :
  rowsRel samePlace rows (assignGroup rect topLeft mid rows).
Proof.
  unfold assignGroup. revert rows. induction rect as [|cid rect IH]; intros rows.
  { by apply rowsRel_refl. }
  simpl. eapply rowsRel_trans; [apply samePlace_trans | | apply IH].
  by apply rowsRel_updateCell.
Qed.

(** X15: on a well-formed grid, when the merge goes through, the two
    corner cells of the bounding rectangle exist and no cell carries the new
    merge id yet, the span recorded for the new id is the bounding
    rectangle of the selection, anchored at its top-left corner; of the
    cells of the rectangle, the top-left one alone is shown; and the grid
    stays well formed. *)
Theorem merge_span (st : State) (topLeft bottomRight : CellObject) :
  let sel := selectedCells st in
  let r1 := Math_min (map id_row sel) in
  let c1 := Math_min (map id_col sel) in
  let r2 := Math_max (map id_row sel) in
  let c2 := Math_max (map id_col sel) in
  let mid := createMergeId r1 c1 r2 c2 in
  let st' := fst (mergeCells st) in
  mergeSucceeds st → wellFormed (tableRows st) →
  (∀ x, x ∈ allCells (tableRows st) → mergeId x ≠ mid) →
  findCell (tableRows st) r1 c1 = Some topLeft →
  findCell (tableRows st) r2 c2 = Some bottomRight →
  mergeSpans st' !! mid = Some (mkSpan (r2 - r1 + 1) (c2 - c1 + 1) r1 c1)
  ∧ (∀ r c cell, findCell (tableRows st') r c = Some cell →
       r1 ≤ r ≤ r2 → c1 ≤ c ≤ c2 →
       isCellHidden cell (mergeSpans st') = negb ((r =? r1) && (c =? c1))
       ∧ getCellSpan cell (mergeSpans st')
         = if (r =? r1) && (c =? c1) then (r2 - r1 + 1, c2 - c1 + 1) else (1, 1))
  ∧ wellFormed (tableRows st').
Proof.
  intros sel r1 c1 r2 c2 mid st' Hok Hwf Hfresh Htl Hbr.
  destruct (mergeCells_succeeds st Hok) as [Hne Hfst].
  fold sel r1 c1 r2 c2 mid in Hfst.
  set (rect := boundingRectangle sel) in *.
  set (g := λ x, if touched (tableRows st) rect x then unmerged x else x).
  assert (Hg : ∀ x, columnIndex (g x) = columnIndex x).
  { intros x. unfold g. by destruct (touched _ _ x). }
  rewrite dissolveGroups_spec in Hfst. fold g in Hfst.
  set (rows0 := forEachCell g (tableRows st)) in *.
  set (rows' := assignGroup rect (g topLeft) mid rows0).
  assert (Hst' : tableRows st' = rows' ∧ mergeSpans st' = computeMergeSpans rows').
  { unfold st'. rewrite Hfst. unfold rows0. rewrite findCell_forEachCell by done.
    rewrite Htl. simpl. fold rows0 rows'. by destruct st. }
  destruct Hst' as [Hrows Hspans]. rewrite Hrows, Hspans. clear Hfst.
  assert (Hwf0 : wellFormed rows0).
  { apply wellFormed_forEachCell; [|done]. intros x. unfold g.
    by destruct (touched _ _ x). }
  assert (Hwf' : wellFormed rows').
  { eapply wellFormed_rowsRel; [apply samePlace_assignGroup | done]. }
  assert (Hfind : ∀ r c, findCell rows' r c
            = if bool_decide (cellId r c ∈ rect)
              then mergedFrom (g topLeft) mid <$> (g <$> findCell (tableRows st) r c)
              else g <$> findCell (tableRows st) r c).
  { intros r c. unfold rows'. rewrite findCell_assignGroup. unfold rows0.
    by rewrite findCell_forEachCell. }
  assert (Hrect : ∀ r c, cellId r c ∈ rect ↔ (r1 ≤ r ≤ r2 ∧ c1 ≤ c ≤ c2)).
  { intros r c. unfold rect, boundingRectangle. by rewrite elem_of_rectangleIds. }
  assert (Hgroup : ∀ y, y ∈ groupCells mid rows'
            ↔ y ∈ allCells rows'
              ∧ (r1 ≤ rowIndex y ≤ r2 ∧ c1 ≤ columnIndex y ≤ c2)).
  { intros y. rewrite elem_of_groupCells. split.
    - intros (Hy & Hm & Hid & Hmid). split; [done|].
      pose proof (findCell_wellFormed rows' y Hwf' Hy) as Hfy. rewrite Hfind in Hfy.
      destruct (decide (cellId (rowIndex y) (columnIndex y) ∈ rect)) as [Hin|Hout].
      { by apply Hrect. }
      rewrite bool_decide_eq_false_2 in Hfy by done.
      destruct (findCell (tableRows st) (rowIndex y) (columnIndex y)) as [x|] eqn:Hx;
        [|done].
      simpl in Hfy. injection Hfy as Hfy. exfalso.
      apply findCell_elem_of in Hx. rewrite <- Hfy in Hmid. unfold g in Hmid.
      destruct (touched (tableRows st) rect x); simpl in Hmid.
      + symmetry in Hmid. by apply createMergeId_nonempty in Hmid.
      + by apply (Hfresh x).
    - intros (Hy & Hpos). split; [done|].
      pose proof (findCell_wellFormed rows' y Hwf' Hy) as Hfy. rewrite Hfind in Hfy.
      rewrite bool_decide_eq_true_2 in Hfy by (by apply Hrect).
      destruct (findCell (tableRows st) (rowIndex y) (columnIndex y)) as [x|]; [|done].
      simpl in Hfy. injection Hfy as Hfy. rewrite <- Hfy. simpl.
      split; [done|]. split; [apply createMergeId_nonempty | done]. }
  assert (Hr12 : r1 ≤ r2 ∧ c1 ≤ c2).
  { assert (Hrn : map id_row sel ≠ [])
      by (intros Hnil; apply Hne; exact (map_eq_nil _ _ Hnil)).
    assert (Hcn : map id_col sel ≠ [])
      by (intros Hnil; apply Hne; exact (map_eq_nil _ _ Hnil)).
    destruct (Math_min_spec _ Hrn) as [Hr1 _], (Math_max_spec _ Hrn) as [_ Hr2].
    destruct (Math_min_spec _ Hcn) as [Hc1 _], (Math_max_spec _ Hcn) as [_ Hc2].
    split; [by apply Hr2 | by apply Hc2]. }
  assert (Hcorner : ∀ r c x, findCell (tableRows st) r c = Some x →
            r1 ≤ r ≤ r2 → c1 ≤ c ≤ c2 →
            ∃ y, y ∈ groupCells mid rows' ∧ rowIndex y = r ∧ columnIndex y = c).
  { intros r c x Hx Hr Hc.
    assert (Hy : findCell rows' r c = Some (mergedFrom (g topLeft) mid (g x))).
    { rewrite Hfind, Hx. rewrite bool_decide_eq_true_2 by (by apply Hrect). done. }
    destruct (findCell_position rows' r c _ Hwf' Hy) as [Hyr Hyc].
    eexists. split; [|split; [exact Hyr | exact Hyc]].
    apply Hgroup. split; [by eapply findCell_elem_of|]. rewrite Hyr, Hyc. done. }
  destruct (Hcorner r1 c1 topLeft Htl) as (y1 & Hy1 & Hy1r & Hy1c); [lia..|].
  destruct (Hcorner r2 c2 bottomRight Hbr) as (y2 & Hy2 & Hy2r & Hy2c); [lia..|].
  assert (Hnonempty : groupCells mid rows' ≠ []).
  { intros Hnil. rewrite Hnil in Hy1. by apply elem_of_nil in Hy1. }
  destruct (spanOfPositions_group mid rows' Hnonempty)
    as (Hbox & (ga & Ha & Har) & (gb & Hb & Hbc) & (gc & Hc & Hcr) & (gd & Hd & Hdc)).
  set (span := spanOfPositions (positionsOf mid rows')) in *.
  assert (Hspan : span = mkSpan (r2 - r1 + 1) (c2 - c1 + 1) r1 c1).
  { pose proof (Hbox y1 Hy1) as Hb1. pose proof (Hbox y2 Hy2) as Hb2.
    apply Hgroup in Ha as [_ Ha], Hb as [_ Hb], Hc as [_ Hc], Hd as [_ Hd].
    destruct span as [rs cs ar ac]. simpl in *. f_equal; lia. }
  assert (Hlookup : computeMergeSpans rows' !! mid = Some span)
    by (by apply computeMergeSpans_group).
  split_and!.
  - by rewrite Hlookup, Hspan.
  - intros r c cell Hcell Hr Hc'.
    destruct (findCell_position rows' r c cell Hwf' Hcell) as [Hcr' Hcc'].
    assert (Hin : cell ∈ groupCells mid rows').
    { apply Hgroup. split; [by eapply findCell_elem_of|]. by rewrite Hcr', Hcc'. }
    apply elem_of_groupCells in Hin as (_ & Hm & Hid & Hmid).
    apply truthy_spec in Hid.
    unfold getCellSpan, isCellHidden. rewrite Hm, Hid, Hmid, Hlookup, Hspan. simpl.
    rewrite Hcr', Hcc'. by destruct ((r =? r1) && (c =? c1)).
  - done.
Qed.

Lemma merge_span_witness :
  mergeSpans (fst (mergeCells squareSelection)) !! "1122" = Some (mkSpan 2 2 1 1).
Proof.
  destruct (merge_span squareSelection (defaultCell 1 1) (defaultCell 2 2))
    as (Hspan & _).
  - exists (fst (mergeCells squareSelection)). vm_compute.
    split; [reflexivity|]. split; [discriminate | reflexivity].
  - apply wellFormedb_spec. vm_compute. reflexivity.
  - intros x Hx. vm_compute in Hx.
    apply list_elem_of_In in Hx. simpl in Hx.
    repeat (destruct Hx as [<-|Hx]; [vm_compute; discriminate|]). destruct Hx.
  - vm_compute. reflexivity.
  - vm_compute. reflexivity.
  - exact Hspan.
Defined.

(** ** Blank and unblank *)

Lemma isCellHidden_sameFrame (spans : gmap string MergeSpanInfo) (x y : CellObject) :
  sameFrame x y → isCellHidden y spans = isCellHidden x spans.
Proof.
  intros ((_ & Hr & Hc) & Hm & Hid). unfold isCellHidden. by rewrite Hm, Hid, Hr, Hc.
Qed.

Lemma reached_sameFrame (r c : Z) (t t' x x' : CellObject) :
  sameFrame t t' → sameFrame x x' → reached r c t' x' = reached r c t x.
Proof.
  intros (_ & _ & Hid) ((_ & Hr & Hc) & _ & Hidx). unfold reached.
  by rewrite Hid, Hidx, Hr, Hc.
Qed.

Lemma blankTarget_sameFrame (spans : gmap string MergeSpanInfo) (rows : list TableRow)
    (g : CellObject → CellObject) (cid : CellId) (x : CellObject) :
  (∀ y, sameFrame y (g y)) →
  blankTarget spans (forEachCell g rows) cid (g x) = blankTarget spans rows cid x.
Proof.
  intros Hg. unfold blankTarget.
  rewrite findCell_forEachCell by (intros y; by destruct (Hg y) as ((_ & _ & ?) & _)).
  destruct (findCell rows (id_row cid) (id_col cid)) as [t|]; [|done]. simpl.
  by rewrite (isCellHidden_sameFrame spans t (g t)), (reached_sameFrame _ _ t (g t) x (g x)).
Qed.

Lemma blankStep_wellFormed (b : bool) (spans : gmap string MergeSpanInfo)
    (cid : CellId) (rows : list TableRow) :
  wellFormed rows →
  match findCell rows (id_row cid) (id_col cid) with
  | None => rows
  | Some cell =>
      if isCellHidden cell spans then rows
      else
        let newRows := updateCell rows (id_row cid) (id_col cid) (withBlank b) in
        if truthy (mergeId cell)
        then forGroup (mergeId cell) (withBlank b) newRows
        else newRows
  end
  = forEachCell (λ x, if blankTarget spans rows cid x then withBlank b x else x) rows.
Proof.
  intros Hwf. unfold blankTarget.
  destruct (findCell rows (id_row cid) (id_col cid)) as [t|].
  - destruct (isCellHidden t spans); simpl.
    + symmetry. by apply forEachCell_id_on.
    + rewrite propagate_wellFormed; [done | apply valueSetter_withBlank | done].
  - symmetry. by apply forEachCell_id_on.
Qed.

Lemma blankLoop_cons (b : bool) (spans : gmap string MergeSpanInfo)
    (cid : CellId) (selected : list CellId) (rows : list TableRow) :
  blankLoop b spans (cid :: selected) rows
  = blankLoop b spans selected
      match findCell rows (id_row cid) (id_col cid) with
      | None => rows
      | Some cell =>
          if isCellHidden cell spans then rows
          else
            let newRows := updateCell rows (id_row cid) (id_col cid) (withBlank b) in
            if truthy (mergeId cell)
            then forGroup (mergeId cell) (withBlank b) newRows
            else newRows
      end.
Proof. reflexivity. Qed.

Lemma blankLoop_wellFormed (b : bool) (spans : gmap string MergeSpanInfo)
    (selected : list CellId) (rows : list TableRow) :
  wellFormed rows →
  blankLoop b spans selected rows
  = forEachCell (λ x, if blankTargets spans rows selected x then withBlank b x else x) rows.
Proof.
  revert rows. induction selected as [|cid selected IH]; intros rows Hwf.
  { symmetry. by apply forEachCell_id_on. }
  rewrite blankLoop_cons, blankStep_wellFormed by done.
  set (h := λ x, if blankTarget spans rows cid x then withBlank b x else x).
  assert (Hh : ∀ y, sameFrame y (h y)).
  { intros y. unfold h. by destruct (blankTarget spans rows cid y). }
  rewrite IH.
  2: { apply wellFormed_forEachCell; [|done]. intros y. by destruct (Hh y). }
  rewrite forEachCell_compose. apply forEachCell_ext. intros x. simpl.
  assert (Hrest : blankTargets spans (forEachCell h rows) selected (h x)
                  = blankTargets spans rows selected x).
  { unfold blankTargets. clear IH. induction selected as [|cid' selected IH']; [done|].
    simpl. by rewrite blankTarget_sameFrame, IH'. }
  rewrite Hrest. unfold h.
  destruct (blankTarget spans rows cid x), (blankTargets spans rows selected x); done.
Qed.

(** X16: on a well-formed grid, blank (with [b] true) and unblank (with
    [b] false) set the blank flag to [b] on the cell of every selected id
    that is found and not hidden, and on every cell carrying the merge id of
    such a cell; nothing else in the grid changes, and the selection is
    cleared. *)
Theorem blank_effect (b : bool) (st : State) :
  wellFormed (tableRows st) → selectedCells st ≠ [] →
  let st' := setBlankSelectedCells b st in
  tableRows st'
  = forEachCell (λ x, if blankTargets (mergeSpans st) (tableRows st) (selectedCells st) x
                      then withBlank b x else x) (tableRows st)
  ∧ (∀ cid t, cid ∈ selectedCells st →
       findCell (tableRows st) (id_row cid) (id_col cid) = Some t →
       isCellHidden t (mergeSpans st) = false →
       findCell (tableRows st') (id_row cid) (id_col cid) = Some (withBlank b t))
  ∧ selectedCells st' = [] ∧ isSelectionMode st' = false
  ∧ blankSelectedCells st = setBlankSelectedCells true st
  ∧ unblankSelectedCells st = setBlankSelectedCells false st.
Proof.
  intros Hwf Hne. simpl.
  assert (Hrows : tableRows (setBlankSelectedCells b st)
            = forEachCell (λ x, if blankTargets (mergeSpans st) (tableRows st)
                                     (selectedCells st) x
                                then withBlank b x else x) (tableRows st)).
  { unfold setBlankSelectedCells. destruct (selectedCells st) as [|cid sel] eqn:Hsel; [done|].
    rewrite tableRows_cleared. by apply blankLoop_wellFormed. }
  split_and!.
  - done.
  - intros cid t Hcid Ht Hshown. rewrite Hrows, findCell_forEachCell.
    2: { intros x. by destruct (blankTargets _ _ _ x). }
    rewrite Ht. simpl.
    replace (blankTargets (mergeSpans st) (tableRows st) (selectedCells st) t) with true;
      [done|].
    symmetry. unfold blankTargets. apply existsb_exists. exists cid.
    split; [by apply list_elem_of_In|]. unfold blankTarget.
    by rewrite Ht, Hshown, (reached_target (tableRows st)).
  - unfold setBlankSelectedCells. destruct (selectedCells st); [done|]. by destruct st.
  - unfold setBlankSelectedCells. destruct (selectedCells st); [done|]. by destruct st.
  - done.
  - done.
Qed.

Lemma blank_effect_witness :
  findCell (tableRows (setBlankSelectedCells true anchorSelected)) 1 1
  = Some (withBlank true (mkCell (cellId 1 1) "-" false true "1112" false 1 1)).
Proof.
  destruct (blank_effect true anchorSelected) as (_ & Hcell & _).
  - apply wellFormedb_spec. vm_compute. reflexivity.
  - vm_compute. discriminate.
  - apply (Hcell (cellId 1 1)).
    + vm_compute. left.
    + vm_compute. reflexivity.
    + vm_compute. reflexivity.
Defined.

(** ** The autofill drag *)

(** X17: a press on the autofill handle of a cell starts a drag exactly
    when the cell exists and holds an integer, white space around it
    aside: the drag then records the cell as source, as its value the
    Number nearest to the integer [z] that the text denotes (never NaN,
    and [z] itself below 2^53 in magnitude), no direction and an empty
    preview, and a press on a cell is ignored while it lasts.  Otherwise
    the press changes nothing.  The grid and the selection are never
    touched. *)
Theorem autofill_press (r c : Z) (st : State) :
  let st' := handleAutofillHandleMouseDown r c st in
  (∀ src, findCell (tableRows st) r c = Some src →
     isInteger (sequenceNumber src) = true →
     ∃ z, denotes (trim (sequenceNumber src)) z
       ∧ autofillDrag st' = mkDrag true r c (toDouble z) None r c
       ∧ toDouble z ≠ NaN
       ∧ (safeInteger z → sourceValue (autofillDrag st') = Num z)
       ∧ autofillPreviewCells st' = []
       ∧ ∀ r' c' ev, handleCellMouseDown true r' c' ev st' = st')
  ∧ (findCell (tableRows st) r c = None → st' = st)
  ∧ (∀ src, findCell (tableRows st) r c = Some src →
       isInteger (sequenceNumber src) = false → st' = st)
  ∧ tableRows st' = tableRows st
  ∧ selectedCells st' = selectedCells st.
Proof.
  simpl. unfold handleAutofillHandleMouseDown. split_and!.
  - intros src Hsrc Hint. rewrite Hsrc, Hint. cbn [negb].
    destruct (isInteger_denotes _ Hint) as [z Hz]. exists z.
    unfold parseInt. rewrite (mathInt_denotes _ _ Hz).
    split; [done|]. split; [by destruct st|].
    split; [apply toDouble_not_NaN|].
    split; [intros Hsafe; destruct st; simpl; by apply toDouble_safe|].
    split; [by destruct st|].
    intros r' c' ev. unfold handleCellMouseDown. simpl.
    destruct (targetIsInput ev); [done|]. by destruct st.
  - by intros ->.
  - intros src Hsrc Hint. by rewrite Hsrc, Hint.
  - destruct (findCell (tableRows st) r c) as [src|]; [|done].
    destruct (isInteger (sequenceNumber src)); [|done]. by destruct st.
  - destruct (findCell (tableRows st) r c) as [src|]; [|done].
    destruct (isInteger (sequenceNumber src)); [|done]. by destruct st.
Qed.

(** X18: during an autofill drag, the cells previewed when the pointer
    enters a cell are the cells of the run that a release at that moment
    commits; the move itself leaves the grid and the source alone; the
    release writes the run into the grid, ends the drag and empties the
    preview, and a second release changes nothing. *)
Theorem autofill_preview_is_commit (r c : Z) (st : State) :
  active (autofillDrag st) = true →
  let st1 := handleCellMouseEnterAutofill r c st in
  let st2 := handleAutofillMouseUp st1 in
  (∀ cid, cid ∈ autofillPreviewCells st1 ↔ ∃ fc, fc ∈ commitCells st1 ∧ cid = fillId fc)
  ∧ tableRows st1 = tableRows st
  ∧ sourceRow (autofillDrag st1) = sourceRow (autofillDrag st)
  ∧ sourceCol (autofillDrag st1) = sourceCol (autofillDrag st)
  ∧ currentRow (autofillDrag st1) = r ∧ currentCol (autofillDrag st1) = c
  ∧ tableRows st2 = foldl fillOne (tableRows st) (commitCells st1)
  ∧ active (autofillDrag st2) = false
  ∧ autofillPreviewCells st2 = []
  ∧ selectedCells st2 = selectedCells st
  ∧ handleAutofillMouseUp st2 = st2.
Proof.
  intros Hactive. simpl.
  assert (Hst1 : active (autofillDrag (handleCellMouseEnterAutofill r c st)) = true
                 ∧ tableRows (handleCellMouseEnterAutofill r c st) = tableRows st
                 ∧ selectedCells (handleCellMouseEnterAutofill r c st) = selectedCells st).
  { unfold handleCellMouseEnterAutofill. rewrite Hactive. by destruct st. }
  destruct Hst1 as (Hactive1 & Hrows1 & Hsel1).
  assert (Hpreview : autofillPreviewCells (handleCellMouseEnterAutofill r c st)
            = set_addAll (map fillId (commitCells (handleCellMouseEnterAutofill r c st))) []).
  { unfold commitCells, handleCellMouseEnterAutofill. rewrite Hactive. by destruct st. }
  assert (Hup : ∀ s, active (autofillDrag s) = true →
            tableRows (handleAutofillMouseUp s) = foldl fillOne (tableRows s) (commitCells s)
            ∧ active (autofillDrag (handleAutofillMouseUp s)) = false
            ∧ autofillPreviewCells (handleAutofillMouseUp s) = []
            ∧ selectedCells (handleAutofillMouseUp s) = selectedCells s).
  { intros s Hs. unfold handleAutofillMouseUp. rewrite Hs. simpl. fold (commitCells s).
    destruct (commitCells s) as [|fc fcs]; by destruct s. }
  destruct (Hup _ Hactive1) as (Hrows2 & Hactive2 & Hpreview2 & Hsel2).
  split_and!.
  - intros cid. rewrite Hpreview, elem_of_set_addAll.
    change (map ?f ?l) with (f <$> l). rewrite list_elem_of_fmap.
    split.
    + intros [(fc & -> & Hin)|Hin]; [eauto | by apply elem_of_nil in Hin].
    + intros (fc & Hin & ->). left. eauto.
  - done.
  - unfold handleCellMouseEnterAutofill. rewrite Hactive. by destruct st.
  - unfold handleCellMouseEnterAutofill. rewrite Hactive. by destruct st.
  - unfold handleCellMouseEnterAutofill. rewrite Hactive. by destruct st.
  - unfold handleCellMouseEnterAutofill. rewrite Hactive. by destruct st.
  - by rewrite Hrows2, Hrows1.
  - done.
  - done.
  - by rewrite Hsel2.
  - unfold handleAutofillMouseUp at 1. by rewrite Hactive2.
Qed.

Lemma autofill_preview_is_commit_witness :
  tableRows (handleAutofillMouseUp (handleCellMouseEnterAutofill 2 3 dragFromCentre))
  = foldl fillOne (tableRows dragFromCentre)
      (commitCells (handleCellMouseEnterAutofill 2 3 dragFromCentre)).
Proof.
  destruct (autofill_preview_is_commit 2 3 dragFromCentre)
    as (_ & _ & _ & _ & _ & _ & Hrows & _).
  - reflexivity.
  - exact Hrows.
Defined.

(** ** Round trips of numbers and ids *)

Lemma allDigits_cons (c : ascii) (s : string) :
  is_Some (digitValue c) → s = "" ∨ allDigits s = true → allDigits (String c s) = true.
Proof.
  intros Hc Hs. simpl. destruct s as [|c' s'].
  - by apply bool_decide_eq_true.
  - destruct Hs as [?|Hs]; [done|]. apply andb_true_iff. split; [|done].
    by apply bool_decide_eq_true.
Qed.

Lemma allDigits_pretty_N_go (x : N) :
  (0 < x)%N → ∀ s, s = "" ∨ allDigits s = true → allDigits (pretty_N_go x s) = true.
Proof.
  induction (N.lt_wf_0 x) as [x _ IH]. intros Hx s Hs.
  rewrite pretty_N_go_step by done.
  assert (Hdigit : is_Some (digitValue (pretty_N_char (x `mod` 10)))).
  { rewrite digitValue_pretty_N_char by (apply N.mod_lt; lia). eauto. }
  destruct (decide (x `div` 10 = 0)%N) as [Hz|Hnz].
  - rewrite Hz, pretty_N_go_0. by apply allDigits_cons.
  - apply IH; [apply N.div_lt; lia | by apply N.neq_0_lt_0 |].
    right. by apply allDigits_cons.
Qed.

Lemma trimEnd_allDigits (s : string) : allDigits s = true → trimEnd s = s.
Proof.
  induction s as [|c s IH]; [done|]. intros Hd.
  destruct (allDigits_head _ Hd) as (c' & s' & [= <- <-] & Hc).
  rewrite trimEnd_cons, (trimStart_digit c s Hc).
  rewrite bool_decide_eq_false_2 by done. f_equal.
  destruct s as [|c2 s2]; [done|]. apply IH.
  simpl in Hd. by apply andb_true_iff in Hd as [_ Hd].
Qed.

Lemma isInteger_digits (s : string) : allDigits s = true → isInteger s = true.
Proof.
  intros Hd. destruct (allDigits_head _ Hd) as (c & t & -> & Hc).
  unfold isInteger, trim.
  rewrite (trimStart_digit c t Hc), (trimEnd_allDigits _ Hd).
  assert (Hminus : bool_decide (c = "-"%char) = false).
  { apply bool_decide_eq_false. intros ->. by destruct Hc. }
  unfold matchesInteger. rewrite Hminus, Hd.
  rewrite !bool_decide_eq_false_2; [done| |done].
  intros [= -> ->]. by destruct Hc.
Qed.

Lemma isInteger_minus_digits (s : string) :
  allDigits s = true → isInteger (String "-"%char s) = true.
Proof.
  intros Hd. destruct (allDigits_head _ Hd) as (c & t & -> & Hc).
  unfold isInteger, trim.
  rewrite trimStart_minus.
  assert (Hend : trimEnd (String "-"%char (String c t)) = String "-"%char (String c t)).
  { rewrite trimEnd_cons, trimStart_minus.
    rewrite bool_decide_eq_false_2 by done.
    by rewrite (trimEnd_allDigits _ Hd). }
  rewrite Hend. unfold matchesInteger.
  rewrite (bool_decide_eq_true_2 ("-"%char = "-"%char)) by done. rewrite Hd.
  by rewrite !bool_decide_eq_false_2.
Qed.

Lemma isInteger_pretty (z : Z) : isInteger (pretty z) = true.
Proof.
  destruct z as [|p|p].
  - reflexivity.
  - apply isInteger_digits.
    change (pretty (Z.pos p)) with (pretty_N_go (N.pos p) "").
    apply allDigits_pretty_N_go; [lia | by left].
  - change (pretty (Z.neg p)) with (String "-"%char (pretty_N_go (N.pos p) "")).
    apply isInteger_minus_digits, allDigits_pretty_N_go; [lia | by left].
Qed.

Lemma js_String_safe (z : Z) : safeInteger z → js_String (Num z) = pretty z.
Proof.
  unfold safeInteger. intros Hz. simpl.
  by destruct (Z.ltb_spec (Z.abs z) (2 ^ 53)); [|lia].
Qed.

Lemma parseInt_pretty (z : Z) : safeInteger z → parseInt (pretty z) = Num z.
Proof. intros Hz. unfold parseInt. rewrite mathInt_pretty. by apply toDouble_safe. Qed.

(** X19: below 2^53 in magnitude, the string that the autofill commit
    writes for a number, [String(n)], is its decimal rendering; it is
    accepted by [isInteger] and read back by [parseInt] as the same
    number: a cell filled by autofill can be the source of the next
    autofill, which continues the sequence as long as the values stay
    below 2^53. *)
Theorem autofill_value_round_trip (z k : Z) :
  safeInteger z → safeInteger (z + k) →
  js_String (Num z) = pretty z
  ∧ isInteger (js_String (Num z)) = true
  ∧ parseInt (js_String (Num z)) = Num z
  ∧ js_String (js_add (parseInt (js_String (Num z))) (Num k)) = pretty (z + k).
Proof.
  intros Hz Hk. rewrite (js_String_safe z Hz).
  split; [done|]. split; [apply isInteger_pretty|].
  rewrite (parseInt_pretty z Hz). split; [done|].
  rewrite (js_add_safe z k Hk). by apply js_String_safe.
Qed.

Lemma autofill_value_round_trip_witness :
  js_String (Num 99) = "99"
  ∧ isInteger (js_String (Num 99)) = true
  ∧ parseInt (js_String (Num 99)) = Num 99
  ∧ js_String (js_add (parseInt (js_String (Num 99))) (Num 1)) = "100".
Proof.
  apply (autofill_value_round_trip 99 1); unfold safeInteger; simpl; lia.
Defined.

(** Beyond 2^53 the sum of the run is rounded, and from 10^21 on the text
    that the commit writes is no integer string any more. *)
Example autofill_value_rounded :
  js_add (Num (2 ^ 53)) (Num 1) = Num (2 ^ 53)
  ∧ js_String (Num (2 ^ 60)) = "1152921504606847000"
  ∧ js_String (Num (10 ^ 21)) = "1e+21"
  ∧ isInteger (js_String (Num (10 ^ 21))) = false.
Proof. vm_compute. done. Qed.

(** X20: the text of a cell id, [cell_r_c], is read back into its two
    numbers by the replace, split and parseInt that the handlers apply to
    it, so two positions never share an id text. *)
Theorem cell_id_round_trip (a b : CellId) :
  parseCellId (cellIdString a) = (Num (id_row a), Num (id_col a))
  ∧ (cellIdString a = cellIdString b → a = b).
Proof.
  split; [apply parseCellId_cellIdString | apply cellIdString_inj].
Qed.

(** ** Generation through the host action *)

(** X21: with a host generate action the request is only recorded, and
    the grid is left alone until the action reports.  A reported success
    then gives the alert and the grid that the direct creation gives, and
    clears the request; a reported failure clears the request and creates
    nothing; without a report, or without a pending request, the effect
    does nothing. *)
Theorem deferred_generation (st : State) :
  let requested := fst (applyDimensions true st) in
  snd (applyDimensions true st) = None
  ∧ tableRows requested = tableRows st
  ∧ pendingGenerate requested = true
  ∧ snd (generateResultEffect (Some true) requested) = snd (applyDimensions false st)
  ∧ tableRows (fst (generateResultEffect (Some true) requested))
    = tableRows (fst (applyDimensions false st))
  ∧ pendingGenerate (fst (generateResultEffect (Some true) requested)) = false
  ∧ generateResultEffect (Some false) requested = (setPendingGenerate false requested, None)
  ∧ generateResultEffect None requested = (requested, None)
  ∧ (∀ result, pendingGenerate st = false → generateResultEffect result st = (st, None)).
Proof.
  simpl. split_and!; try (by destruct st).
  - unfold generateResultEffect. replace (pendingGenerate (setPendingGenerate true st))
      with true by (by destruct st). simpl.
    unfold generateTable.
    replace (rowCount (setPendingGenerate false (setPendingGenerate true st)))
      with (rowCount st) by (by destruct st).
    replace (columnCount (setPendingGenerate false (setPendingGenerate true st)))
      with (columnCount st) by (by destruct st).
    by repeat destruct (_ || _).
  - unfold generateResultEffect. replace (pendingGenerate (setPendingGenerate true st))
      with true by (by destruct st). simpl.
    unfold generateTable.
    replace (rowCount (setPendingGenerate false (setPendingGenerate true st)))
      with (rowCount st) by (by destruct st).
    replace (columnCount (setPendingGenerate false (setPendingGenerate true st)))
      with (columnCount st) by (by destruct st).
    repeat destruct (_ || _); try (by destruct st).
    unfold createNewTable. destruct (_ || _); by destruct st.
  - unfold generateResultEffect. replace (pendingGenerate (setPendingGenerate true st))
      with true by (by destruct st). simpl.
    unfold generateTable.
    repeat destruct (_ || _); try (by destruct st).
    unfold createNewTable. destruct (_ || _); by destruct st.
  - intros result Hp. unfold generateResultEffect. by rewrite Hp.
Qed.

(** ** Saving and loading *)

Lemma positional_wellFormed (rows : list TableRow) : positional rows → wellFormed rows.
Proof.
  intros Hpos. split.
  - change (map ?g ?l) with (g <$> l). apply NoDup_alt. intros i j x Hi Hj.
    rewrite list_lookup_fmap in Hi, Hj.
    destruct (rows !! i) as [rowi|] eqn:Hrowi; [|done].
    destruct (rows !! j) as [rowj|] eqn:Hrowj; [|done].
    simpl in Hi, Hj. destruct (Hpos i rowi Hrowi) as [Hri _].
    destruct (Hpos j rowj Hrowj) as [Hrj _].
    assert (Z.of_nat i + 1 = Z.of_nat j + 1) by congruence. lia.
  - intros row Hrow. apply list_elem_of_lookup in Hrow as [i Hi].
    destruct (Hpos i row Hi) as [Hr Hcells]. split.
    + change (map ?g ?l) with (g <$> l). apply NoDup_alt. intros j1 j2 x Hj1 Hj2.
      rewrite list_lookup_fmap in Hj1, Hj2.
      destruct (cells row !! j1) as [c1|] eqn:Hc1; [|done].
      destruct (cells row !! j2) as [c2|] eqn:Hc2; [|done].
      simpl in Hj1, Hj2. destruct (Hcells j1 c1 Hc1) as (_ & Hcol1 & _).
      destruct (Hcells j2 c2 Hc2) as (_ & Hcol2 & _).
      assert (Z.of_nat j1 + 1 = Z.of_nat j2 + 1) by congruence. lia.
    + intros cell Hcell. apply list_elem_of_lookup in Hcell as [j Hj].
      destruct (Hcells j cell Hj) as (Hcr & Hcc & Hid). split; congruence.
Qed.

Lemma positional_validatedRows (rawRows : list RawRow) (rows : list TableRow) :
  validatedRows rawRows = Some rows → positional rows.
Proof.
  intros Hv. apply validatedRows_lookup in Hv as [Hlen Hv].
  intros i row Hi.
  destruct (lookup_lt_is_Some_2 rawRows i) as [rawRow Hraw].
  { rewrite <- Hlen. by eapply lookup_lt_Some. }
  destruct (Hv i rawRow Hraw) as (cs & _ & Hrow).
  rewrite Hi in Hrow. injection Hrow as ->. split; [done|].
  intros j cell Hj. simpl in Hj. unfold mapIndexed in Hj.
  rewrite list_lookup_imap in Hj.
  destruct (cs !! j) as [rc|]; [|done]. simpl in Hj. injection Hj as <-. done.
Qed.

Lemma validatedCell_savedCell (r c : Z) (cell : CellObject) :
  rowIndex cell = r → columnIndex cell = c → id cell = cellId r c →
  validatedCell r c (savedCell cell) = dashed cell.
Proof.
  intros Hr Hc Hid. unfold validatedCell, savedCell, dashed. simpl.
  destruct cell. simpl in *. subst. by destruct (truthy _).
Qed.

Lemma validatedRows_saved (rows : list TableRow) :
  positional rows → validatedRows (savedRow <$> rows) = Some (forEachCell dashed rows).
Proof.
  intros Hpos.
  destruct (validatedRows_total (savedRow <$> rows)) as [rows' Hv].
  { apply Forall_forall. intros raw Hraw.
    apply list_elem_of_fmap in Hraw as (row & -> & _). by eexists. }
  rewrite Hv. f_equal. apply validatedRows_lookup in Hv as [Hlen Hv].
  rewrite length_fmap in Hlen. apply list_eq. intros i.
  unfold forEachCell. change (map ?g ?l) with (g <$> l). rewrite list_lookup_fmap.
  destruct (rows !! i) as [row|] eqn:Hrow.
  - destruct (Hv i (savedRow row)) as (cs & Hcs & Hrow').
    { by rewrite list_lookup_fmap, Hrow. }
    simpl in Hcs. injection Hcs as <-. rewrite Hrow'. simpl. f_equal.
    destruct (Hpos i row Hrow) as [Hr Hcells]. rewrite Hr. f_equal.
    apply list_eq. intros j. unfold mapIndexed.
    rewrite list_lookup_imap, !list_lookup_fmap.
    destruct (cells row !! j) as [cell|] eqn:Hcell; [|done]. simpl. f_equal.
    destruct (Hcells j cell Hcell) as (Hcr & Hcc & Hid).
    by apply validatedCell_savedCell.
  - apply lookup_ge_None. rewrite Hlen. by apply lookup_ge_None.
Qed.

(** X22: when the snapshot written by [saveToBackend] for a grid whose
    indices are its array positions is loaded, the grid comes back with
    the two counters that were saved with it, except that a cell with an
    empty sequence number comes back with a dash; a grid without empty
    sequence numbers comes back unchanged. *)
Theorem save_load_round_trip (rows : list TableRow) (r c : Z) (st : State) :
  0 < r → 0 < c → positional rows →
  let st' := loadEffect (Parsed (savedTableData rows (Num r) (Num c))) st in
  tableRows st' = forEachCell dashed rows
  ∧ ((∀ cell, cell ∈ allCells rows → sequenceNumber cell ≠ "") → tableRows st' = rows)
  ∧ rowCount st' = Num r ∧ columnCount st' = Num c
  ∧ mergeSpans st' = computeMergeSpans rows
  ∧ selectedCells st' = [] ∧ isSelectionMode st' = false
  ∧ dataLoaded st' = true.
Proof.
  intros Hr Hc Hpos st'.
  assert (Hst' : loadEffect (Parsed (savedTableData rows (Num r) (Num c))) st
            = setDataLoaded true (setIsSelectionMode false (setSelectedCells []
                (setTableRows (forEachCell dashed rows)
                   (setColumnCount (Num c) (setRowCount (Num r) st)))))).
  { unfold loadEffect. simpl.
    destruct (Z.ltb_spec 0 r); [|lia]. destruct (Z.ltb_spec 0 c); [|lia]. simpl.
    by rewrite validatedRows_saved. }
  unfold st'. rewrite Hst'. clear st' Hst'. split_and!; try (by destruct st).
  - intros Hseq. transitivity (forEachCell dashed rows); [by destruct st|].
    apply forEachCell_id_on. intros x Hx. unfold dashed.
    specialize (Hseq x Hx). apply truthy_spec in Hseq. by rewrite Hseq.
  - transitivity (computeMergeSpans (forEachCell dashed rows)); [by destruct st|].
    apply computeMergeSpans_sameLayout, rowsRel_forEachCell.
    intros x. unfold dashed. by destruct (truthy _).
Qed.

Lemma save_load_round_trip_witness :
  tableRows (loadEffect
               (Parsed (savedTableData (tableRows mergedRowGrid) (Num 1) (Num 3)))
               (initialState (Num 3) (Num 3)))
  = tableRows mergedRowGrid.
Proof.
  destruct (save_load_round_trip (tableRows mergedRowGrid) 1 3
              (initialState (Num 3) (Num 3))) as (_ & Hrows & _).
  - lia.
  - lia.
  - intros i row Hi. vm_compute in Hi.
    destruct i as [|i]; [|discriminate Hi]. injection Hi as <-.
    split; [reflexivity|]. intros j cell Hj.
    destruct j as [|[|[|j]]]; try discriminate Hj; injection Hj as <-; done.
  - apply Hrows. intros cell Hcell. vm_compute in Hcell.
    apply list_elem_of_In in Hcell. simpl in Hcell.
    repeat (destruct Hcell as [<-|Hcell]; [discriminate|]). destruct Hcell.
Defined.

(** X23: loading never leaves a grid whose indices are out of place: when
    those of the current grid are their array positions, so are those of
    the grid after the load effect, whatever the snapshot holds, and the
    grid is well formed. *)
Theorem load_keeps_positional (incoming : Incoming) (st : State) :
  positional (tableRows st) →
  positional (tableRows (loadEffect incoming st))
  ∧ wellFormed (tableRows (loadEffect incoming st)).
Proof.
  intros Hpos.
  assert (Hgoal : positional (tableRows (loadEffect incoming st))).
  { unfold loadEffect. destruct incoming as [| |t]; [done..|].
    destruct (raw_tableRows t) as [rawRows|]; [|done].
    destruct (isPositive (raw_rows t) && isPositive (raw_columns t)); [|done].
    destruct (validatedRows rawRows) as [rows|] eqn:Hv; [|done].
    replace (tableRows _) with rows by (by destruct st).
    by eapply positional_validatedRows. }
  split; [done | by apply positional_wellFormed].
Qed.

Lemma load_keeps_positional_witness :
  wellFormed (tableRows (loadEffect (Parsed sampleSnapshot) (initialState (Num 3) (Num 3)))).
Proof.
  destruct (load_keeps_positional (Parsed sampleSnapshot) (initialState (Num 3) (Num 3)))
    as [_ Hwf].
  - intros i row Hi. destruct i; discriminate Hi.
  - exact Hwf.
Defined.

(** ** Growing the grid *)

Lemma find_app_Some {A : Type} (p : A → bool) (l k : list A) (x : A) :
  List.find p l = Some x → List.find p (l ++ k) = Some x.
Proof.
  induction l as [|y l IH]; [done|]. simpl. by destruct (p y).
Qed.

Lemma find_app_None {A : Type} (p : A → bool) (l k : list A) :
  List.find p l = None → List.find p (l ++ k) = List.find p k.
Proof.
  induction l as [|y l IH]; [done|]. simpl. by destruct (p y).
Qed.

Lemma find_None_keys {A : Type} (key : A → Z) (k : Z) (l : list A) :
  (∀ x, x ∈ l → key x ≠ k) → List.find (λ x, key x =? k) l = None.
Proof.
  intros Hl. induction l as [|y l IH]; [done|]. simpl.
  destruct (Z.eqb_spec (key y) k) as [Hk|_].
  - destruct (Hl y); [left | done].
  - apply IH. intros x Hx. apply Hl. by right.
Qed.

Lemma positionsOf_app_unmerged (k : string) (rows : list TableRow) (row : TableRow) :
  (∀ x, x ∈ cells row → isMerged x = false) →
  positionsOf k (rows ++ [row]) = positionsOf k rows.
Proof.
  intros Hrow. unfold positionsOf, groupCells, allCells.
  rewrite bind_app, filter_app, fmap_app. rewrite bind_cons. csimpl. rewrite app_nil_r.
  replace (filter (λ cell, inGroup k cell = true) (cells row)) with (@nil CellObject).
  { by rewrite app_nil_r. }
  symmetry. induction (cells row) as [|x l IH]; [done|].
  rewrite filter_cons_False.
  - apply IH. intros y Hy. apply Hrow. by right.
  - unfold inGroup. rewrite (Hrow x) by left. done.
Qed.

Lemma arrayFrom_lookup {A : Type} (m : Z) (f : Z → A) (j : nat) :
  arrayFrom (Num m) f !! j
  = if bool_decide (Z.of_nat j < m) then Some (f (Z.of_nat j + 1)) else None.
Proof.
  unfold arrayFrom. change (map ?g ?l) with (g <$> l). rewrite list_lookup_fmap.
  simpl. destruct (decide (Z.of_nat j < m)) as [Hj|Hj].
  - rewrite bool_decide_eq_true_2 by done. rewrite lookup_seq_lt by lia. done.
  - rewrite bool_decide_eq_false_2 by done. rewrite lookup_seq_ge by lia. done.
Qed.

(** X24: [addRow] appends one row of default cells, indexed by the row
    counter plus one.  Every cell that could be found is still found and
    unchanged, the merge spans and the selection are unchanged; the cells
    of the new row are found when no row carried the new index, and the
    grid stays well formed exactly in that case; it keeps its indices at
    their array positions exactly when the counter was the number of
    rows. *)
Theorem addRow_grows (n : Z) (st : State) :
  rowCount st = Num n → n + 1 ≤ 100 →
  ∃ st', addRow st = Some (st', None)
    ∧ (∀ r c x, findCell (tableRows st) r c = Some x →
         findCell (tableRows st') r c = Some x)
    ∧ ((∀ row, row ∈ tableRows st → row_rowIndex row ≠ n + 1) →
       ∀ m c, columnCount st = Num m →
         findCell (tableRows st') (n + 1) c
         = if bool_decide (1 ≤ c ≤ m) then Some (defaultCell (n + 1) c) else None)
    ∧ mergeSpans st' = computeMergeSpans (tableRows st)
    ∧ selectedCells st' = selectedCells st
    ∧ columnCount st' = columnCount st
    ∧ (wellFormed (tableRows st) →
       (wellFormed (tableRows st')
        ↔ ∀ row, row ∈ tableRows st → row_rowIndex row ≠ n + 1))
    ∧ (positional (tableRows st) → ∀ m, columnCount st = Num m →
       (positional (tableRows st') ↔ Z.of_nat (length (tableRows st)) = n)).
Proof.
  intros Hn Hle. unfold addRow. rewrite Hn. simpl.
  destruct (Z.ltb_spec 100 (n + 1)); [lia|].
  set (newRow := mkRow (n + 1) (arrayFrom (columnCount st) (defaultCell (n + 1)))).
  eexists. split; [reflexivity|].
  replace (tableRows (setTableRows (tableRows st ++ [newRow]) (setRowCount (Num (n + 1)) st)))
    with (tableRows st ++ [newRow]) by (by destruct st).
  assert (Hnew : ∀ x, x ∈ cells newRow → x = defaultCell (n + 1) (columnIndex x)).
  { intros x Hx. simpl in Hx. unfold arrayFrom in Hx.
    by apply list_elem_of_fmap in Hx as (idx & -> & _). }
  split_and!.
  - intros r c x Hx. unfold findCell in *.
    destruct (List.find (λ row, row_rowIndex row =? r) (tableRows st)) as [row|] eqn:Hrow;
      [|done].
    by rewrite (find_app_Some _ _ _ _ Hrow).
  - intros Hfresh m c Hm. unfold findCell.
    rewrite find_app_None by (by apply find_None_keys).
    simpl. rewrite Z.eqb_refl. simpl. rewrite Hm.
    rewrite (find_arrayFrom columnIndex) by done.
    destruct (decide (1 ≤ c ≤ m)).
    + by rewrite !bool_decide_eq_true_2.
    + by rewrite !bool_decide_eq_false_2.
  - transitivity (computeMergeSpans (tableRows st ++ [newRow])); [by destruct st|].
    apply map_eq. intros k. rewrite !computeMergeSpans_lookup.
    rewrite positionsOf_app_unmerged; [done|].
    intros x Hx. by rewrite (Hnew x Hx).
  - by destruct st.
  - by destruct st.
  - intros [Hnd Hrows]. split.
    + intros [Hnd' _] row Hrow Hidx.
      change (map ?g ?l) with (g <$> l) in Hnd'. rewrite fmap_app in Hnd'.
      apply NoDup_app in Hnd' as (_ & Hdisj & _).
      apply (Hdisj (row_rowIndex row)); [by apply list_elem_of_fmap_2|].
      rewrite Hidx. simpl. left.
    + intros Hfresh. split.
      * change (map ?g ?l) with (g <$> l) in *. rewrite fmap_app.
        apply NoDup_app. split; [done|]. split; [|apply NoDup_singleton].
        intros idx Hidx Hidx'. apply list_elem_of_singleton in Hidx'. simpl in Hidx'.
        apply list_elem_of_fmap in Hidx as (row & -> & Hrow). by apply (Hfresh row).
      * intros row Hrow. apply elem_of_app in Hrow as [Hrow|Hrow]; [by apply Hrows|].
        apply list_elem_of_singleton in Hrow as ->. split.
        -- simpl. by apply NoDup_arrayFrom_keys.
        -- intros x Hx. by rewrite (Hnew x Hx).
  - intros Hpos m Hm. split.
    + intros Hpos'.
      destruct (Hpos' (length (tableRows st)) newRow) as [Hidx _].
      { rewrite lookup_app_r by done. by rewrite Nat.sub_diag. }
      simpl in Hidx. lia.
    + intros Hlen i row Hi.
      destruct (decide (i < length (tableRows st))%nat) as [Hlt|Hge].
      * rewrite lookup_app_l in Hi by done. by apply Hpos.
      * rewrite lookup_app_r in Hi by lia.
        destruct (i - length (tableRows st))%nat as [|d] eqn:Hd; [|done].
        simpl in Hi. injection Hi as <-. assert (Z.of_nat i = n) as Hin by lia.
        split; [simpl; lia|]. intros j x Hx. simpl in Hx. rewrite Hm in Hx.
        rewrite arrayFrom_lookup in Hx.
        destruct (bool_decide (Z.of_nat j < m)); [|done]. injection Hx as <-.
        simpl. rewrite Hin. done.
Qed.

Lemma addRow_grows_witness :
  ∃ st', addRow fiveAtStart = Some (st', None)
    ∧ mergeSpans st' = computeMergeSpans (tableRows fiveAtStart).
Proof.
  destruct (addRow_grows 1 fiveAtStart) as (st' & Hadd & _ & _ & Hspans & _).
  - reflexivity.
  - lia.
  - exists st'. split; [exact Hadd | exact Hspans].
Defined.

Lemma positionsOf_addColumn (k : string) (c : Z) (rows : list TableRow) :
  positionsOf k (map (λ row, mkRow (row_rowIndex row)
                               (cells row ++ [defaultCell (row_rowIndex row) c])) rows)
  = positionsOf k rows.
Proof.
  unfold positionsOf, groupCells, allCells.
  induction rows as [|row rows IH]; [done|].
  cbn [map]. rewrite !bind_cons, !filter_app, !fmap_app, IH.
  f_equal. cbn [cells]. rewrite filter_app, fmap_app.
  rewrite (filter_cons_False _ (defaultCell _ _)) by done.
  rewrite filter_nil. by rewrite app_nil_r.
Qed.

(** X25: [addColumn] appends to every row one default cell, indexed by
    the column counter plus one and by the index of the row.  Every cell
    that could be found is still found and unchanged, as are the merge
    spans and the selection; the grid stays well formed exactly when no
    cell carried the new column index, and then the new cell of every row
    is found; it keeps its indices at their array positions exactly when
    every row had as many cells as the counter said. *)
Theorem addColumn_grows (m : Z) (st : State) :
  columnCount st = Num m → m + 1 ≤ 100 →
  ∃ st', addColumn st = Some (st', None)
    ∧ (∀ r c x, findCell (tableRows st) r c = Some x →
         findCell (tableRows st') r c = Some x)
    ∧ mergeSpans st' = computeMergeSpans (tableRows st)
    ∧ selectedCells st' = selectedCells st
    ∧ rowCount st' = rowCount st
    ∧ (wellFormed (tableRows st) →
       (wellFormed (tableRows st')
        ↔ ∀ x, x ∈ allCells (tableRows st) → columnIndex x ≠ m + 1))
    ∧ (wellFormed (tableRows st) →
       (∀ x, x ∈ allCells (tableRows st) → columnIndex x ≠ m + 1) →
       ∀ row, row ∈ tableRows st →
         findCell (tableRows st') (row_rowIndex row) (m + 1)
         = Some (defaultCell (row_rowIndex row) (m + 1)))
    ∧ (positional (tableRows st) →
       (positional (tableRows st')
        ↔ ∀ row, row ∈ tableRows st → Z.of_nat (length (cells row)) = m)).
Proof.
  intros Hm Hle. unfold addColumn. rewrite Hm. simpl.
  destruct (Z.ltb_spec 100 (m + 1)); [lia|].
  set (g := λ row, mkRow (row_rowIndex row)
                     (cells row ++ [defaultCell (row_rowIndex row) (m + 1)])).
  eexists. split; [reflexivity|].
  replace (tableRows (setTableRows (map g (tableRows st))
                        (setColumnCount (Num (m + 1)) st)))
    with (g <$> tableRows st) by (by destruct st).
  assert (Hindices : row_rowIndex <$> (g <$> tableRows st) = row_rowIndex <$> tableRows st).
  { rewrite <- list_fmap_compose. by apply list_fmap_ext. }
  split_and!.
  - intros r c x Hx. unfold findCell in *.
    rewrite (find_fmap (λ row, row_rowIndex row =? r) g) by done.
    destruct (List.find (λ row, row_rowIndex row =? r) (tableRows st)) as [row|]; [|done].
    simpl in *. by apply find_app_Some.
  - transitivity (computeMergeSpans (map g (tableRows st))); [by destruct st|].
    apply map_eq. intros k. rewrite !computeMergeSpans_lookup.
    unfold g. by rewrite positionsOf_addColumn.
  - by destruct st.
  - by destruct st.
  - intros [Hnd Hrows]. split.
    + intros [_ Hrows'] x Hx Hcol. unfold allCells in Hx.
      apply list_elem_of_bind in Hx as (row & Hx & Hrow).
      destruct (Hrows' (g row)) as [Hcols _]; [by apply list_elem_of_fmap_2|].
      simpl in Hcols. change (map ?f ?l) with (f <$> l) in Hcols.
      rewrite fmap_app in Hcols. apply NoDup_app in Hcols as (_ & Hdisj & _).
      apply (Hdisj (columnIndex x)); [by apply list_elem_of_fmap_2|].
      rewrite Hcol. simpl. left.
    + intros Hfresh. split.
      * change (map ?f ?l) with (f <$> l) in *. by rewrite Hindices.
      * intros row' Hrow'. apply list_elem_of_fmap in Hrow' as (row & -> & Hrow).
        destruct (Hrows row Hrow) as [Hcols Hcells]. simpl. split.
        -- change (map ?f ?l) with (f <$> l) in *. rewrite fmap_app.
           apply NoDup_app. split; [done|]. split; [|apply NoDup_singleton].
           intros idx Hidx Hidx'. apply list_elem_of_singleton in Hidx'. simpl in Hidx'.
           apply list_elem_of_fmap in Hidx as (x & -> & Hx).
           apply (Hfresh x); [|done]. unfold allCells. apply list_elem_of_bind. eauto.
        -- intros x Hx. apply elem_of_app in Hx as [Hx|Hx]; [by apply Hcells|].
           by apply list_elem_of_singleton in Hx as ->.
  - intros [Hnd Hrows] Hfresh row Hrow. unfold findCell.
    rewrite (find_fmap (λ r, row_rowIndex r =? row_rowIndex row) g) by done.
    rewrite (find_unique row_rowIndex _ row Hnd Hrow). simpl.
    rewrite find_app_None.
    + simpl. by rewrite Z.eqb_refl.
    + apply find_None_keys. intros x Hx. apply Hfresh.
      unfold allCells. apply list_elem_of_bind. eauto.
  - intros Hpos. split.
    + intros Hpos' row Hrow. apply list_elem_of_lookup in Hrow as [i Hi].
      destruct (Hpos' i (g row)) as [_ Hcells']; [by rewrite list_lookup_fmap, Hi|].
      destruct (Hcells' (length (cells row)) (defaultCell (row_rowIndex row) (m + 1)))
        as (_ & Hcol & _).
      { simpl. rewrite lookup_app_r by done. by rewrite Nat.sub_diag. }
      simpl in Hcol. lia.
    + intros Hlen i row' Hi. rewrite list_lookup_fmap in Hi.
      destruct (tableRows st !! i) as [row|] eqn:Hrow; [|done].
      simpl in Hi. injection Hi as <-. destruct (Hpos i row Hrow) as [Hidx Hcells].
      split; [done|]. intros j x Hx. simpl in Hx.
      destruct (decide (j < length (cells row))%nat) as [Hlt|Hge].
      * rewrite lookup_app_l in Hx by done. by apply Hcells.
      * rewrite lookup_app_r in Hx by lia.
        destruct (j - length (cells row))%nat as [|d] eqn:Hd; [|done].
        simpl in Hx. injection Hx as <-.
        assert (Z.of_nat (length (cells row)) = m)
          by (apply Hlen; by eapply list_elem_of_lookup_2).
        assert (Z.of_nat j = m) as Hjm by lia.
        simpl. rewrite Hidx, Hjm. done.
Qed.

Lemma addColumn_grows_witness :
  ∃ st', addColumn fiveAtStart = Some (st', None)
    ∧ mergeSpans st' = computeMergeSpans (tableRows fiveAtStart).
Proof.
  destruct (addColumn_grows 4 fiveAtStart) as (st' & Hadd & _ & Hspans & _).
  - reflexivity.
  - lia.
  - exists st'. split; [exact Hadd | exact Hspans].
Defined.

(** ** The values written by the autofill commit *)

Lemma shown_cell_unique (rows : list TableRow) (c1 c2 : CellObject) :
  wellFormed rows → c1 ∈ allCells rows → c2 ∈ allCells rows →
  isMerged c1 = true → isMerged c2 = true →
  mergeId c1 ≠ "" → mergeId c1 = mergeId c2 →
  isCellHidden c1 (computeMergeSpans rows) = false →
  isCellHidden c2 (computeMergeSpans rows) = false →
  c1 = c2.
Proof.
  intros Hwf Hin1 Hin2 Hm1 Hm2 Hid Heq Hv1 Hv2.
  rewrite isCellHidden_computed in Hv1 by done.
  rewrite isCellHidden_computed in Hv2 by (done || congruence).
  rewrite <- Heq in Hv2.
  apply negb_false_iff, andb_true_iff in Hv1 as [Hr1 Hc1].
  apply negb_false_iff, andb_true_iff in Hv2 as [Hr2 Hc2].
  apply Z.eqb_eq in Hr1, Hc1, Hr2, Hc2.
  pose proof (findCell_wellFormed rows c1 Hwf Hin1) as Hf1.
  pose proof (findCell_wellFormed rows c2 Hwf Hin2) as Hf2.
  rewrite Hr1, Hc1 in Hf1. rewrite Hr2, Hc2 in Hf2. congruence.
Qed.

Lemma fillLoop_cells (getCell : Z → Z → option CellObject)
    (spans : gmap string MergeSpanInfo) (startVal : jsnum) (at_ : Z → Z * Z)
    (i step counter : Z) (n : nat) :
  (∀ a b, at_ a = at_ b → a = b) → step ≠ 0 →
  NoDup (fillId <$> fillLoop getCell spans startVal at_ i step counter n)
  ∧ ∀ fc, fc ∈ fillLoop getCell spans startVal at_ i step counter n →
      ∃ cell, getCell (fill_row fc) (fill_col fc) = Some cell
        ∧ isCellHidden cell spans = false.
Proof.
  intros Hinj Hstep.
  destruct (fillLoop_spec getCell spans startVal at_ step n i counter)
    as (m & _ & Hrun & Hok & _).
  rewrite Hrun. split.
  - rewrite <- list_fmap_compose. apply NoDup_fmap_2_strong; [|apply NoDup_seq].
    intros k1 k2 _ _ Heq. unfold fillId in Heq. simpl in Heq.
    assert (Hat : at_ (i + Z.of_nat k1 * step) = at_ (i + Z.of_nat k2 * step)).
    { destruct (at_ (i + Z.of_nat k1 * step)), (at_ (i + Z.of_nat k2 * step)).
      simpl in Heq. by injection Heq as -> ->. }
    apply Hinj in Hat. nia.
  - intros fc Hfc. apply list_elem_of_fmap in Hfc as (k & -> & Hk).
    apply elem_of_seq in Hk. destruct (Hok k) as (cell & Hcell & Hfill); [lia|].
    exists cell. split; [done|]. by apply isFillable_spec in Hfill as [_ ?].
Qed.

Lemma getAutofillCells_cells (rows : list TableRow) (spans : gmap string MergeSpanInfo)
    (sr sc tr tc : Z) (dir : option Direction) :
  NoDup (fillId <$> getAutofillCells rows spans sr sc tr tc dir)
  ∧ ∀ fc, fc ∈ getAutofillCells rows spans sr sc tr tc dir →
      ∃ cell, findCell rows (fill_row fc) (fill_col fc) = Some cell
        ∧ isCellHidden cell spans = false.
Proof.
  assert (Hnil : NoDup (fillId <$> []) ∧ ∀ fc, fc ∈ @nil FillCell →
            ∃ cell, findCell rows (fill_row fc) (fill_col fc) = Some cell
              ∧ isCellHidden cell spans = false).
  { split; [constructor|]. intros fc Hfc. by apply elem_of_nil in Hfc. }
  unfold getAutofillCells. destruct dir as [dir|]; [|done].
  destruct (findCell rows sr sc) as [src|]; [|done].
  destruct (negb (isInteger (sequenceNumber src))); [done|].
  destruct dir.
  - destruct (sc <? tc); apply fillLoop_cells; try lia; by intros a b [= ->].
  - destruct (sr <? tr); apply fillLoop_cells; try lia; by intros a b [= ->].
Qed.

Lemma findCell_fillOne (rows : list TableRow) (fc : FillCell) (r c : Z) :
  findCell (fillOne rows fc) r c
  = (λ x, fillWrite rows fc r c x x) <$> findCell rows r c.
Proof.
  unfold fillOne, fillWrite, fillHits.
  destruct (findCell rows (fill_row fc) (fill_col fc)) as [t|] eqn:Ht.
  2: { by destruct (findCell rows r c). }
  set (v := js_String (fill_value fc)).
  destruct (isMerged t && truthy (mergeId t)) eqn:Hprop; simpl.
  - unfold forGroup. rewrite findCell_forEachCell.
    2: { intros x. by destruct (bool_decide _). }
    rewrite findCell_updateCell by done.
    destruct (decide (r = fill_row fc ∧ c = fill_col fc)) as [[-> ->]|Hne].
    + rewrite !bool_decide_eq_true_2 by done. rewrite Ht. simpl.
      by rewrite bool_decide_eq_true_2.
    + rewrite !bool_decide_eq_false_2 by done. by destruct (findCell rows r c).
  - rewrite findCell_updateCell by done.
    destruct (decide (r = fill_row fc ∧ c = fill_col fc)) as [[-> ->]|Hne].
    + rewrite !bool_decide_eq_true_2 by done. by rewrite Ht.
    + rewrite !bool_decide_eq_false_2 by done. by destruct (findCell rows r c).
Qed.

Lemma fillHits_sameLayout (rows rows' : list TableRow) (fc : FillCell) (r c : Z)
    (x x' : CellObject) :
  sameLayout rows rows' → mergeId x' = mergeId x →
  fillHits rows' fc r c x' = fillHits rows fc r c x.
Proof.
  intros Hrel Hx. unfold fillHits.
  pose proof (findCell_rowsRel sameFrame rows rows' (fill_row fc) (fill_col fc)
                (λ a b H, proj2 (proj2 (proj1 H))) Hrel) as Hfind.
  destruct Hfind as [t t' (_ & Hm & Hid)|]; [|done]. by rewrite Hm, Hid, Hx.
Qed.

Lemma foldl_fun_ext {A B : Type} (f g : A → B → A) (a : A) (l : list B) :
  (∀ y b, f y b = g y b) → foldl f a l = foldl g a l.
Proof.
  intros Hfg. revert a. induction l as [|b l IH]; intros a; [done|].
  simpl. by rewrite Hfg, IH.
Qed.

Lemma findCell_fill (run : list FillCell) (rows : list TableRow) (r c : Z) :
  findCell (foldl fillOne rows run) r c
  = (λ x, foldl (λ y fc, fillWrite rows fc r c x y) x run) <$> findCell rows r c.
Proof.
  revert rows. induction run as [|fc run IH]; intros rows.
  { simpl. by destruct (findCell rows r c). }
  cbn [foldl]. rewrite IH, findCell_fillOne.
  destruct (findCell rows r c) as [x|]; [|done]. simpl. f_equal.
  apply foldl_fun_ext. intros y fc'. unfold fillWrite at 1 3.
  rewrite (fillHits_sameLayout rows (fillOne rows fc) fc' r c x); [done| |].
  - apply sameLayout_fillOne.
  - unfold fillWrite. by destruct (fillHits rows fc r c x).
Qed.

Lemma fill_no_hit (rows : list TableRow) (run : list FillCell) (r c : Z)
    (x y : CellObject) :
  (∀ fc, fc ∈ run → fillHits rows fc r c x = false) →
  foldl (λ y fc, fillWrite rows fc r c x y) y run = y.
Proof.
  revert y. induction run as [|fc run IH]; intros y Hnone; [done|].
  cbn [foldl]. unfold fillWrite at 2. rewrite (Hnone fc) by left.
  apply IH. intros fc' Hfc'. apply Hnone. by right.
Qed.

Lemma fill_one_hit (rows : list TableRow) (run : list FillCell) (r c : Z)
    (x y : CellObject) (fc : FillCell) :
  NoDup run → fc ∈ run → fillHits rows fc r c x = true →
  (∀ fc', fc' ∈ run → fillHits rows fc' r c x = true → fc' = fc) →
  foldl (λ y fc, fillWrite rows fc r c x y) y run
  = withSequenceNumber (js_String (fill_value fc)) y.
Proof.
  intros Hnd Hin Hhit Honly. revert y.
  induction run as [|a run IH]; intros y; [by apply elem_of_nil in Hin|].
  apply NoDup_cons in Hnd as [Ha Hnd]. cbn [foldl].
  destruct (decide (a = fc)) as [->|Hne].
  - unfold fillWrite at 2. rewrite Hhit. apply fill_no_hit.
    intros fc' Hfc'. destruct (fillHits rows fc' r c x) eqn:Hhit'; [|done].
    destruct Ha. rewrite <- (Honly fc'); [done | by right | done].
  - unfold fillWrite at 2.
    destruct (fillHits rows a r c x) eqn:Hhit'.
    { destruct Hne. apply Honly; [left | done]. }
    apply elem_of_cons in Hin as [->|Hin]; [done|].
    apply IH; [done | done |]. intros fc' Hfc'. apply Honly. by right.
Qed.

Lemma NoDup_fmap_inj {A B : Type} (f : A → B) (l : list A) (x y : A) :
  NoDup (f <$> l) → x ∈ l → y ∈ l → f x = f y → x = y.
Proof.
  induction l as [|a l IH]; intros Hnd Hx Hy Heq; [by apply elem_of_nil in Hx|].
  rewrite fmap_cons in Hnd. apply NoDup_cons in Hnd as [Ha Hnd].
  apply elem_of_cons in Hx as [->|Hx]; apply elem_of_cons in Hy as [->|Hy].
  - done.
  - destruct Ha. rewrite Heq. by apply list_elem_of_fmap_2.
  - destruct Ha. rewrite <- Heq. by apply list_elem_of_fmap_2.
  - by apply IH.
Qed.

Lemma fill_hit_unique (rows : list TableRow) (fc1 fc2 : FillCell) (t1 t2 x : CellObject)
    (r c : Z) :
  wellFormed rows → flagsConsistent rows →
  findCell rows (fill_row fc1) (fill_col fc1) = Some t1 →
  isCellHidden t1 (computeMergeSpans rows) = false →
  findCell rows (fill_row fc2) (fill_col fc2) = Some t2 →
  isCellHidden t2 (computeMergeSpans rows) = false →
  findCell rows r c = Some x →
  fillHits rows fc1 r c x = true → fillHits rows fc2 r c x = true →
  fillId fc1 = fillId fc2.
Proof.
  intros Hwf Hflags Ht1 Hv1 Ht2 Hv2 Hx Hh1 Hh2. unfold fillHits in Hh1, Hh2.
  rewrite Ht1 in Hh1. rewrite Ht2 in Hh2.
  pose proof (findCell_elem_of _ _ _ _ Ht1) as Hin1.
  pose proof (findCell_elem_of _ _ _ _ Ht2) as Hin2.
  destruct (findCell_position rows _ _ _ Hwf Ht1) as [Hr1 Hc1].
  destruct (findCell_position rows _ _ _ Hwf Ht2) as [Hr2 Hc2].
  assert (Hsame : mergeId t1 ≠ "" → mergeId t1 = mergeId t2 → fillId fc1 = fillId fc2).
  { intros Hne Heq.
    assert (t1 = t2) as ->.
    { apply (shown_cell_unique rows); try done.
      - by apply Hflags.
      - apply Hflags; [done | congruence]. }
    unfold fillId. congruence. }
  apply orb_true_iff in Hh1 as [Hat1|Hg1]; apply orb_true_iff in Hh2 as [Hat2|Hg2].
  - apply bool_decide_eq_true in Hat1 as [-> ->].
    apply bool_decide_eq_true in Hat2 as [Hr Hc]. unfold fillId. congruence.
  - apply bool_decide_eq_true in Hat1 as [-> ->].
    assert (x = t1) as -> by congruence.
    apply andb_true_iff in Hg2 as [Hg2 Hid]. apply andb_true_iff in Hg2 as [_ Hne].
    apply truthy_spec in Hne. apply bool_decide_eq_true in Hid.
    apply Hsame; congruence.
  - apply bool_decide_eq_true in Hat2 as [-> ->].
    assert (x = t2) as -> by congruence.
    apply andb_true_iff in Hg1 as [Hg1 Hid]. apply andb_true_iff in Hg1 as [_ Hne].
    apply truthy_spec in Hne. apply bool_decide_eq_true in Hid.
    apply Hsame; congruence.
  - apply andb_true_iff in Hg1 as [Hg1 Hid1]. apply andb_true_iff in Hg1 as [_ Hne1].
    apply andb_true_iff in Hg2 as [Hg2 Hid2].
    apply truthy_spec in Hne1. apply bool_decide_eq_true in Hid1, Hid2.
    apply Hsame; congruence.
Qed.

(** X26: on a well-formed grid with its own merge spans, in which every
    cell with a merge id is flagged merged, the release of an autofill drag
    writes to every cell of the run the value computed for it, and the same
    value to the cells that carry the merge id of a merged cell of the run;
    no cell is written twice, and every cell that no write reaches is
    left as it was. *)
Theorem autofill_commit_values (st : State) :
  active (autofillDrag st) = true →
  wellFormed (tableRows st) →
  mergeSpans st = computeMergeSpans (tableRows st) →
  flagsConsistent (tableRows st) →
  let rows := tableRows st in
  let rows' := tableRows (handleAutofillMouseUp st) in
  let run := commitCells st in
  (∀ fc, fc ∈ run →
     ∃ t, findCell rows (fill_row fc) (fill_col fc) = Some t
       ∧ findCell rows' (fill_row fc) (fill_col fc)
         = Some (withSequenceNumber (js_String (fill_value fc)) t))
  ∧ (∀ fc r c x, fc ∈ run → findCell rows r c = Some x →
       fillHits rows fc r c x = true →
       findCell rows' r c = Some (withSequenceNumber (js_String (fill_value fc)) x))
  ∧ (∀ r c x, findCell rows r c = Some x →
       (∀ fc, fc ∈ run → fillHits rows fc r c x = false) →
       findCell rows' r c = Some x).
Proof.
  intros Hactive Hwf Hsync Hflags rows rows' run.
  assert (Hrows' : rows' = foldl fillOne rows run).
  { unfold rows', handleAutofillMouseUp. rewrite Hactive. simpl.
    fold (commitCells st). fold run. destruct run as [|fc fcs]; by destruct st. }
  assert (Hnd : NoDup (fillId <$> run))
    by exact (proj1 (getAutofillCells_cells _ _ _ _ _ _ _)).
  assert (Hcells : ∀ fc, fc ∈ run →
            ∃ cell, findCell rows (fill_row fc) (fill_col fc) = Some cell
              ∧ isCellHidden cell (computeMergeSpans rows) = false).
  { intros fc Hfc. unfold rows. rewrite <- Hsync.
    exact (proj2 (getAutofillCells_cells _ _ _ _ _ _ _) fc Hfc). }
  assert (Hhit : ∀ fc r c x, fc ∈ run → findCell rows r c = Some x →
            fillHits rows fc r c x = true →
            findCell rows' r c = Some (withSequenceNumber (js_String (fill_value fc)) x)).
  { intros fc r c x Hfc Hx Hh. rewrite Hrows', findCell_fill, Hx. simpl. f_equal.
    apply fill_one_hit; [by apply NoDup_fmap_1 in Hnd | done | done |].
    intros fc' Hfc' Hh'.
    destruct (Hcells fc Hfc) as (t & Ht & Hv).
    destruct (Hcells fc' Hfc') as (t' & Ht' & Hv').
    apply (NoDup_fmap_inj fillId run); [done..|].
    by apply (fill_hit_unique rows fc' fc t' t x r c). }
  split_and!.
  - intros fc Hfc. destruct (Hcells fc Hfc) as (t & Ht & _). exists t.
    split; [done|]. apply Hhit; [done..|].
    unfold fillHits. rewrite Ht. by rewrite bool_decide_eq_true_2.
  - done.
  - intros r c x Hx Hnone. rewrite Hrows', findCell_fill, Hx. simpl. f_equal.
    by apply fill_no_hit.
Qed.

Lemma autofill_commit_values_witness :
  findCell (tableRows (handleAutofillMouseUp dragToTheRight)) 2 3
  = Some (withSequenceNumber "6" (defaultCell 2 3)).
Proof.
  destruct (autofill_commit_values dragToTheRight) as (Hrun & _).
  - reflexivity.
  - apply wellFormedb_spec. vm_compute. reflexivity.
  - vm_compute. reflexivity.
  - intros x Hx Hne. apply list_elem_of_In in Hx. vm_compute in Hx.
    repeat (destruct Hx as [<-|Hx]; [by destruct Hne|]). destruct Hx.
  - destruct (Hrun (mkFill 2 3 (Num 6))) as (t & Ht & Ht').
    + vm_compute. left.
    + vm_compute in Ht. injection Ht as <-. exact Ht'.
Defined.

(** ** Statistics across the mutations *)

Lemma rowsRel_propagate (R : CellObject → CellObject → Prop) (rows : list TableRow)
    (r c : Z) (mid : string) (f : CellObject → CellObject) (propagate : bool) :
  (∀ x, R x x) → (∀ x y z, R x y → R y z → R x z) → (∀ x, R x (f x)) →
  rowsRel R rows
    (if propagate then forGroup mid f (updateCell rows r c f) else updateCell rows r c f).
Proof.
  intros Hrefl Htrans Hf.
  assert (Hupd : rowsRel R rows (updateCell rows r c f))
    by (by apply rowsRel_updateCell).
  destruct propagate; [|done].
  eapply rowsRel_trans; [exact Htrans | exact Hupd |].
  apply rowsRel_forEachCell. intros x. by destruct (bool_decide _).
Qed.

Lemma rowsRel_blankLoop (R : CellObject → CellObject → Prop) (b : bool)
    (spans : gmap string MergeSpanInfo) (selected : list CellId) (rows : list TableRow) :
  (∀ x, R x x) → (∀ x y z, R x y → R y z → R x z) → (∀ x, R x (withBlank b x)) →
  rowsRel R rows (blankLoop b spans selected rows).
Proof.
  intros Hrefl Htrans Hf. revert rows.
  induction selected as [|cid selected IH]; intros rows.
  { by apply rowsRel_refl. }
  rewrite blankLoop_cons. eapply rowsRel_trans; [exact Htrans | | apply IH].
  destruct (findCell rows (id_row cid) (id_col cid)) as [t|]; [|by apply rowsRel_refl].
  destruct (isCellHidden t spans); [by apply rowsRel_refl|].
  by apply rowsRel_propagate.
Qed.

Lemma rowsRel_fill (R : CellObject → CellObject → Prop) (fillCells : list FillCell)
    (rows : list TableRow) :
  (∀ x, R x x) → (∀ x y z, R x y → R y z → R x z) →
  (∀ v x, R x (withSequenceNumber v x)) →
  rowsRel R rows (foldl fillOne rows fillCells).
Proof.
  intros Hrefl Htrans Hf. revert rows.
  induction fillCells as [|fc fillCells IH]; intros rows.
  { by apply rowsRel_refl. }
  simpl. eapply rowsRel_trans; [exact Htrans | | apply IH].
  unfold fillOne.
  destruct (findCell rows (fill_row fc) (fill_col fc)) as [t|]; [|by apply rowsRel_refl].
  by apply rowsRel_propagate.
Qed.

Lemma length_filter_Forall2 (R : CellObject → CellObject → Prop)
    (P Q : CellObject → Prop) `{!∀ c, Decision (P c)} `{!∀ c, Decision (Q c)}
    (l l' : list CellObject) :
  (∀ x y, R x y → (P x ↔ Q y)) → Forall2 R l l' →
  length (filter P l) = length (filter Q l').
Proof.
  intros HPQ. induction 1 as [|x y l l' Hxy _ IH]; [done|].
  rewrite !filter_cons. specialize (HPQ x y Hxy).
  destruct (decide (P x)), (decide (Q y)); simpl; [by rewrite IH | tauto | tauto | done].
Qed.

Lemma statistics_rowsRel (R : CellObject → CellObject → Prop) (rows rows' : list TableRow) :
  (∀ x y, R x y → sameFrame x y) → rowsRel R rows rows' →
  totalCells (statisticsOf rows') = totalCells (statisticsOf rows)
  ∧ mergedCells (statisticsOf rows') = mergedCells (statisticsOf rows)
  ∧ ((∀ x y, R x y → isBlocked y = isBlocked x) →
       blockedCells (statisticsOf rows') = blockedCells (statisticsOf rows))
  ∧ ((∀ x y, R x y → isBlank y = isBlank x) →
       blankCells (statisticsOf rows') = blankCells (statisticsOf rows)).
Proof.
  intros Hframe Hrel.
  assert (Hspans : computeMergeSpans rows' = computeMergeSpans rows).
  { apply computeMergeSpans_sameLayout. by eapply rowsRel_impl. }
  pose proof (rowsRel_allCells R rows rows' Hrel) as Hcells.
  unfold statisticsOf. rewrite Hspans. simpl.
  assert (Hhidden : ∀ x y, R x y →
            isCellHidden y (computeMergeSpans rows)
            = isCellHidden x (computeMergeSpans rows)).
  { intros x y Hxy. by apply isCellHidden_sameFrame, Hframe. }
  split_and!.
  - rewrite !foldl_count_all. f_equal. symmetry. by eapply Forall2_length.
  - rewrite !(foldl_count_cells (λ c, isMerged c
              && negb (isCellHidden c (computeMergeSpans rows)) = true)).
    f_equal. symmetry. eapply (length_filter_Forall2 R); [|done].
    intros x y Hxy. rewrite (Hhidden x y Hxy).
    destruct (Hframe x y Hxy) as (_ & -> & _). done.
  - intros Hblocked. rewrite !(foldl_count_cells (λ c, isBlocked c = true)).
    f_equal. symmetry. eapply (length_filter_Forall2 R); [|done].
    intros x y Hxy. by rewrite (Hblocked x y Hxy).
  - intros Hblank. rewrite !(foldl_count_cells (λ c, isBlank c
              && negb (isCellHidden c (computeMergeSpans rows)) = true)).
    f_equal. symmetry. eapply (length_filter_Forall2 R); [|done].
    intros x y Hxy. by rewrite (Hhidden x y Hxy), (Hblank x y Hxy).
Qed.

(** X27: the statistics computed from the grid are the same before and
    after set-value and the autofill commit; toggle-block can change the
    count of blocked cells only, and blank and unblank the count of blank
    cells only. *)
Theorem statistics_frame (r c : Z) (v : string) (b : bool) (st : State) :
  let before := statisticsOf (tableRows st) in
  statisticsOf (tableRows (handleCellValueChange r c v st)) = before
  ∧ statisticsOf (tableRows (handleAutofillMouseUp st)) = before
  ∧ (let after := statisticsOf (tableRows (handleCheckboxChange r c st)) in
     totalCells after = totalCells before
     ∧ mergedCells after = mergedCells before
     ∧ blankCells after = blankCells before)
  ∧ (let after := statisticsOf (tableRows (setBlankSelectedCells b st)) in
     totalCells after = totalCells before
     ∧ mergedCells after = mergedCells before
     ∧ blockedCells after = blockedCells before).
Proof.
  assert (Hall : ∀ rows rows', rowsRel sameButValue rows rows' →
            statisticsOf rows' = statisticsOf rows).
  { intros rows rows' Hrel.
    destruct (statistics_rowsRel sameButValue rows rows') as (H1 & H2 & H3 & H4);
      [by intros x y [? _] | done |].
    specialize (H3 (λ x y H, proj1 (proj2 H))).
    specialize (H4 (λ x y H, proj2 (proj2 H))).
    destruct (statisticsOf rows'), (statisticsOf rows). simpl in *. by subst. }
  assert (Hvrefl : ∀ x, sameButValue x x) by done.
  assert (Hvtrans : ∀ x y z, sameButValue x y → sameButValue y z → sameButValue x z).
  { intros x y z (Hf1 & Hb1 & Hk1) (Hf2 & Hb2 & Hk2).
    split; [by eapply sameFrame_trans|]. split; congruence. }
  simpl. split; [|split; [|split]].
  - apply Hall. unfold handleCellValueChange.
    destruct (findCell (tableRows st) r c) as [t|]; [|by apply rowsRel_refl].
    rewrite setTableRows_tableRows. by apply rowsRel_propagate.
  - apply Hall. unfold handleAutofillMouseUp.
    destruct (active (autofillDrag st)); [|by apply rowsRel_refl]. simpl.
    assert (Hrows : ∀ s, tableRows (setAutofillPreviewCells []
              (setAutofillDrag noAutofillDrag s)) = tableRows s) by (by intros []).
    rewrite Hrows.
    match goal with |- context [match ?l with [] => _ | _ => _ end] =>
      generalize l end.
    intros fillCells. destruct fillCells as [|fc fillCells]; [by apply rowsRel_refl|].
    rewrite setTableRows_tableRows. by apply rowsRel_fill.
  - assert (Hrel : rowsRel sameButBlocked (tableRows st)
              (tableRows (handleCheckboxChange r c st))).
    { unfold handleCheckboxChange.
      destruct (findCell (tableRows st) r c) as [t|]; [|by apply rowsRel_refl].
      rewrite setTableRows_tableRows. apply rowsRel_propagate; [done| |done].
      intros x y z (Hf1 & Hk1) (Hf2 & Hk2).
      split; [by eapply sameFrame_trans | congruence]. }
    destruct (statistics_rowsRel sameButBlocked _ _ (λ x y H, proj1 H) Hrel)
      as (H1 & H2 & _ & H4).
    split; [done|]. split; [done|]. apply H4. by intros x y [_ ?].
  - assert (Hrel : rowsRel sameButBlank (tableRows st)
              (tableRows (setBlankSelectedCells b st))).
    { unfold setBlankSelectedCells.
      destruct (selectedCells st) as [|cid sel]; [by apply rowsRel_refl|].
      rewrite tableRows_cleared. apply rowsRel_blankLoop; [done| |done].
      intros x y z (Hf1 & Hk1) (Hf2 & Hk2).
      split; [by eapply sameFrame_trans | congruence]. }
    destruct (statistics_rowsRel sameButBlank _ _ (λ x y H, proj1 H) Hrel)
      as (H1 & H2 & H3 & _).
    split; [done|]. split; [done|]. apply H3. by intros x y [_ ?].
Qed.

(** ** Unmerging after a merge *)

Lemma forEachCell_ext_in (f g : CellObject → CellObject) (rows : list TableRow) :
  (∀ x, x ∈ allCells rows → f x = g x) → forEachCell f rows = forEachCell g rows.
Proof.
  intros Hfg. unfold forEachCell. change (map ?h ?l) with (h <$> l).
  apply list_fmap_ext. intros i row Hrow. apply list_elem_of_lookup_2 in Hrow.
  f_equal. change (map ?h ?l) with (h <$> l). apply list_fmap_ext.
  intros j x Hx. apply list_elem_of_lookup_2 in Hx. apply Hfg.
  unfold allCells. apply list_elem_of_bind. eauto.
Qed.

Lemma assignGroup_wellFormed (rect : list CellId) (topLeft : CellObject) (mid : string)
    (rows : list TableRow) :
  wellFormed rows →
  assignGroup rect topLeft mid rows
  = forEachCell (λ x, if bool_decide (cellId (rowIndex x) (columnIndex x) ∈ rect)
                      then mergedFrom topLeft mid x else x) rows.
Proof.
  unfold assignGroup. revert rows. induction rect as [|cid rect IH]; intros rows Hwf.
  { cbn [foldl]. symmetry. apply forEachCell_id_on. intros x _.
    rewrite bool_decide_eq_false_2; [done | apply not_elem_of_nil]. }
  cbn [foldl]. rewrite IH.
  2: { eapply wellFormed_rowsRel; [|exact Hwf]. by apply rowsRel_updateCell. }
  rewrite updateCell_wellFormed by done. rewrite forEachCell_compose.
  apply forEachCell_ext. intros x. simpl.
  destruct ((rowIndex x =? id_row cid) && (columnIndex x =? id_col cid)) eqn:Hat.
  - apply andb_true_iff in Hat as [Hr Hc]. apply Z.eqb_eq in Hr, Hc.
    assert (Hcid : cellId (rowIndex x) (columnIndex x) = cid)
      by (destruct cid; simpl in *; by subst).
    simpl. rewrite Hcid.
    rewrite (bool_decide_eq_true_2 (cid ∈ cid :: rect)) by left.
    by destruct (bool_decide (cid ∈ rect)).
  - assert (Hcid : cellId (rowIndex x) (columnIndex x) ≠ cid).
    { intros <-. simpl in Hat. by rewrite !Z.eqb_refl in Hat. }
    replace (bool_decide (cellId (rowIndex x) (columnIndex x) ∈ cid :: rect))
      with (bool_decide (cellId (rowIndex x) (columnIndex x) ∈ rect)); [done|].
    apply bool_decide_ext. rewrite elem_of_cons. tauto.
Qed.

(** X28: unmerging right after a merge does not give the grid back.  On
    a well-formed grid where no cell carries the new merge id, after the
    merge, a click on the top-left cell of the rectangle and unmerge, every
    cell of the rectangle is unmerged but holds the sequence number, blocked
    flag and blank flag of the top-left cell; the groups that the merge
    dissolved stay dissolved, every other cell is as before the merge, and
    the span of the new id is gone. *)
Theorem merge_then_unmerge (st : State) (topLeft : CellObject) :
  let sel := selectedCells st in
  let r1 := Math_min (map id_row sel) in
  let c1 := Math_min (map id_col sel) in
  let r2 := Math_max (map id_row sel) in
  let c2 := Math_max (map id_col sel) in
  let mid := createMergeId r1 c1 r2 c2 in
  let merged := fst (mergeCells st) in
  let unmergedAgain := unmergeCells (handleCellClick true r1 c1 plainEvent merged) in
  mergeSucceeds st → wellFormed (tableRows st) →
  (∀ x, x ∈ allCells (tableRows st) → mergeId x ≠ mid) →
  findCell (tableRows st) r1 c1 = Some topLeft →
  tableRows unmergedAgain
  = forEachCell
      (λ x, if bool_decide (cellId (rowIndex x) (columnIndex x) ∈ boundingRectangle sel)
            then unmerged (mergedFrom topLeft mid x)
            else if touched (tableRows st) (boundingRectangle sel) x then unmerged x
            else x)
      (tableRows st)
  ∧ mergeSpans unmergedAgain = delete mid (mergeSpans merged)
  ∧ selectedCells unmergedAgain = [cellId r1 c1].
Proof.
  intros sel r1 c1 r2 c2 mid merged unmergedAgain Hok Hwf Hfresh Htl.
  destruct (mergeCells_succeeds st Hok) as [Hne Hfst].
  fold sel r1 c1 r2 c2 mid in Hfst.
  set (rect := boundingRectangle sel) in *.
  set (g := λ x, if touched (tableRows st) rect x then unmerged x else x).
  assert (Hg : ∀ x, columnIndex (g x) = columnIndex x).
  { intros x. unfold g. by destruct (touched _ _ x). }
  rewrite dissolveGroups_spec in Hfst. fold g in Hfst.
  set (rows0 := forEachCell g (tableRows st)) in *.
  set (rows' := assignGroup rect (g topLeft) mid rows0).
  assert (Hwf0 : wellFormed rows0).
  { apply wellFormed_forEachCell; [|done]. intros x. unfold g.
    by destruct (touched _ _ x). }
  assert (Hmerged : merged
            = resetDragState (setIsSelectionMode false (setSelectedCells []
                (setTableRows rows' st)))).
  { unfold merged. rewrite Hfst. unfold rows0. rewrite findCell_forEachCell by done.
    by rewrite Htl. }
  assert (Hcorner : cellId r1 c1 ∈ rect).
  { unfold rect, boundingRectangle. apply elem_of_rectangleIds. simpl.
    assert (Hrn : map id_row sel ≠ [])
      by (intros Hnil; apply Hne; exact (map_eq_nil _ _ Hnil)).
    assert (Hcn : map id_col sel ≠ [])
      by (intros Hnil; apply Hne; exact (map_eq_nil _ _ Hnil)).
    destruct (Math_min_spec _ Hrn) as [Hr1 _], (Math_max_spec _ Hrn) as [_ Hr2].
    destruct (Math_min_spec _ Hcn) as [Hc1 _], (Math_max_spec _ Hcn) as [_ Hc2].
    specialize (Hr2 _ Hr1). specialize (Hc2 _ Hc1). fold r1 r2 in Hr2. fold c1 c2 in Hc2.
    lia. }
  assert (Hanchor : findCell rows' r1 c1 = Some (mergedFrom (g topLeft) mid (g topLeft))).
  { unfold rows'. rewrite findCell_assignGroup, bool_decide_eq_true_2 by done.
    unfold rows0. rewrite findCell_forEachCell by done. by rewrite Htl. }
  assert (Hagain : unmergedAgain
            = resetDragState (setTableRows (forGroup mid unmerged rows')
                (handleCellClick true r1 c1 plainEvent merged))).
  { unfold unmergedAgain, unmergeCells.
    replace (selectedCells (handleCellClick true r1 c1 plainEvent merged))
      with [cellId r1 c1] by (rewrite Hmerged; by destruct st).
    replace (tableRows (handleCellClick true r1 c1 plainEvent merged))
      with rows' by (rewrite Hmerged; by destruct st).
    simpl. by rewrite Hanchor. }
  split_and!.
  - rewrite Hagain, tableRows_resetDragState, setTableRows_tableRows.
    unfold rows'. rewrite assignGroup_wellFormed by done.
    unfold forGroup, rows0. rewrite !forEachCell_compose.
    apply forEachCell_ext_in. intros x Hx. simpl.
    assert (Hpos : cellId (rowIndex (g x)) (columnIndex (g x))
                   = cellId (rowIndex x) (columnIndex x)).
    { unfold g. by destruct (touched _ _ x). }
    rewrite Hpos.
    destruct (bool_decide (cellId (rowIndex x) (columnIndex x) ∈ rect)).
    + simpl. rewrite bool_decide_eq_true_2 by done.
      unfold g. by destruct (touched _ _ x), (touched _ _ topLeft).
    + unfold g. destruct (touched (tableRows st) rect x).
      * simpl. rewrite bool_decide_eq_false_2; [done|].
        intros Hmid. symmetry in Hmid. by apply createMergeId_nonempty in Hmid.
      * rewrite bool_decide_eq_false_2; [done | by apply Hfresh].
  - transitivity (computeMergeSpans (forGroup mid unmerged rows')).
    { rewrite Hagain. by destruct (handleCellClick true r1 c1 plainEvent merged). }
    rewrite computeMergeSpans_unmerge. f_equal. rewrite Hmerged. by destruct st.
  - rewrite Hagain, Hmerged. by destruct st.
Qed.

Lemma merge_then_unmerge_witness :
  selectedCells
    (unmergeCells (handleCellClick true 1 1 plainEvent (fst (mergeCells squareSelection))))
  = [cellId 1 1].
Proof.
  destruct (merge_then_unmerge squareSelection (defaultCell 1 1)) as (_ & _ & Hsel).
  - exists (fst (mergeCells squareSelection)). vm_compute.
    split; [reflexivity|]. split; [discriminate | reflexivity].
  - apply wellFormedb_spec. vm_compute. reflexivity.
  - intros x Hx. vm_compute in Hx.
    apply list_elem_of_In in Hx. simpl in Hx.
    repeat (destruct Hx as [<-|Hx]; [vm_compute; discriminate|]). destruct Hx.
  - vm_compute. reflexivity.
  - exact Hsel.
Defined.

(** ** The default grid of a component without data *)

(** X29: the timer of the fallback effect acts on what the render that
    set it saw, [captured].  When that render had a grid or loaded data,
    the timer changes nothing.  When it had neither, and its counters were
    positive, the timer puts the default grid of these counters in place
    of whatever grid the component holds by then, clears the selection and
    marks the data as loaded; the timer that this change of [dataLoaded]
    sets changes nothing any more.  The timer never writes the counters,
    and the grid it leaves is well formed whenever the grid before was. *)
Theorem fallback_effect (captured st : State) :
  let st' := fallbackEffect captured st in
  (tableRows captured ≠ [] ∨ dataLoaded captured = true → st' = st)
  ∧ (∀ r c, dataLoaded captured = false → tableRows captured = [] →
       rowCount captured = Num r → columnCount captured = Num c →
       0 < r → 0 < c →
       length (tableRows st') = Z.to_nat r
       ∧ (∀ i j, 1 ≤ i ≤ r → 1 ≤ j ≤ c →
            findCell (tableRows st') i j
            = Some (mkCell (cellId i j) "-" false false "" false i j))
       ∧ mergeSpans st' = ∅
       ∧ selectedCells st' = [] ∧ isSelectionMode st' = false
       ∧ dataLoaded st' = true
       ∧ ∀ st'', fallbackEffect st' st'' = st'')
  ∧ rowCount st' = rowCount st
  ∧ columnCount st' = columnCount st
  ∧ (wellFormed (tableRows st) → wellFormed (tableRows st')).
Proof.
  assert (Hcases : fallbackEffect captured st = st
            ∨ (dataLoaded captured = false ∧ tableRows captured = []
               ∧ js_le (rowCount captured) (Num 0) = false
               ∧ js_le (columnCount captured) (Num 0) = false
               ∧ fallbackEffect captured st
                 = setDataLoaded true (setIsSelectionMode false (setSelectedCells []
                     (setTableRows (newTable (rowCount captured) (columnCount captured))
                        st))))).
  { unfold fallbackEffect. destruct (dataLoaded captured); [by left|]. simpl.
    destruct (decide (tableRows captured = [])) as [Hnil|Hrows].
    - rewrite bool_decide_eq_true_2 by done. unfold createNewTable.
      destruct (js_le (rowCount captured) (Num 0)); [by left|].
      destruct (js_le (columnCount captured) (Num 0)); [by left | by right].
    - rewrite bool_decide_eq_false_2 by done. by left. }
  simpl. split_and!.
  - intros Hor. destruct Hcases as [?|(Hl & Hn & _)]; [done|].
    destruct Hor; congruence.
  - intros r c Hl Hn Hr Hc Hrpos Hcpos.
    assert (Heq : fallbackEffect captured st
                  = setDataLoaded true (setIsSelectionMode false (setSelectedCells []
                      (setTableRows (newTable (Num r) (Num c)) st)))).
    { unfold fallbackEffect, createNewTable. rewrite Hl, Hn, Hr, Hc. simpl.
      destruct (Z.leb_spec r 0), (Z.leb_spec c 0); try lia. reflexivity. }
    rewrite Heq. split_and!.
    + destruct st; simpl. by rewrite length_newTable.
    + intros i j Hi Hj.
      replace (tableRows _) with (newTable (Num r) (Num c)) by (by destruct st).
      rewrite findCell_newTable. by rewrite bool_decide_eq_true_2 by lia.
    + replace (mergeSpans _) with (computeMergeSpans (newTable (Num r) (Num c)))
        by (by destruct st).
      apply computeMergeSpans_newTable.
    + by destruct st.
    + by destruct st.
    + by destruct st.
    + intros st''. unfold fallbackEffect. by destruct st.
  - destruct Hcases as [->|(_ & _ & _ & _ & ->)]; [done | by destruct st].
  - destruct Hcases as [->|(_ & _ & _ & _ & ->)]; [done | by destruct st].
  - intros Hwf. destruct Hcases as [->|(_ & _ & _ & _ & ->)]; [done|].
    replace (tableRows _)
      with (newTable (rowCount captured) (columnCount captured)) by (by destruct st).
    apply wellFormed_newTable.
Qed.

(** A row added within the 100 ms of the timer set at the mount is
    replaced by the default grid: the timer tests the grid of the first
    render, which was empty. *)
Example fallback_replaces_added_row :
  ∃ st, addRow (initialState (Num 3) (Num 3)) = Some (st, None)
    ∧ length (tableRows st) = 1%nat
    ∧ rowCount st = Num 4
    ∧ length (tableRows (fallbackEffect (initialState (Num 3) (Num 3)) st)) = 3%nat
    ∧ rowCount (fallbackEffect (initialState (Num 3) (Num 3)) st) = Num 4.
Proof. eexists. vm_compute. done. Qed.

(** ** Indices at their array positions *)

Lemma positional_rowsRel (rows rows' : list TableRow) :
  rowsRel samePlace rows rows' → positional rows → positional rows'.
Proof.
  intros Hrel Hpos i row' Hi.
  destruct (Forall2_lookup_r _ _ _ _ _ Hrel Hi) as (row & Hrow & Hidx & Hcells).
  destruct (Hpos i row Hrow) as [Hr Hc]. split; [congruence|].
  intros j cell' Hj.
  destruct (Forall2_lookup_r _ _ _ _ _ Hcells Hj) as (cell & Hcell & Hid & Hcr & Hcc).
  destruct (Hc j cell Hcell) as (H1 & H2 & H3). split_and!; congruence.
Qed.

Lemma arrayFrom_lookup_Some {A : Type} (n : jsnum) (f : Z → A) (j : nat) (x : A) :
  arrayFrom n f !! j = Some x → x = f (Z.of_nat j + 1).
Proof.
  unfold arrayFrom. change (map ?g ?l) with (g <$> l). rewrite list_lookup_fmap.
  destruct (seq 0 (arrayLength n) !! j) as [k|] eqn:Hk; [|done].
  apply lookup_seq in Hk as [-> _]. simpl. by intros [= <-].
Qed.

Lemma positional_newTable (rows cols : jsnum) : positional (newTable rows cols).
Proof.
  intros i row Hi. unfold newTable in Hi. apply arrayFrom_lookup_Some in Hi as ->.
  split; [done|]. intros j cell Hj. simpl in Hj.
  by apply arrayFrom_lookup_Some in Hj as ->.
Qed.

Lemma samePlace_mergeCells (st : State) :
  rowsRel samePlace (tableRows st) (tableRows (fst (mergeCells st))).
Proof.
  unfold mergeCells. destruct (length (selectedCells st) <? 2)%nat.
  { by apply rowsRel_refl. }
  destruct (negb _); [by apply rowsRel_refl|]. simpl.
  assert (Hreset : ∀ s, tableRows (resetDragState (setIsSelectionMode false
            (setSelectedCells [] s))) = tableRows s) by (by intros []).
  rewrite Hreset, dissolveGroups_spec.
  match goal with |- context [forEachCell ?g0 (tableRows st)] => set (g := g0) end.
  assert (Hdis : rowsRel samePlace (tableRows st) (forEachCell g (tableRows st))).
  { apply rowsRel_forEachCell. intros x. unfold g. by destruct (touched _ _ x). }
  destruct (findCell (forEachCell g (tableRows st)) _ _) as [topLeft|].
  - rewrite setTableRows_tableRows.
    eapply rowsRel_trans; [apply samePlace_trans | exact Hdis |].
    apply samePlace_assignGroup.
  - by apply rowsRel_refl.
Qed.

Lemma samePlace_sameLayout (rows rows' : list TableRow) :
  sameLayout rows rows' → rowsRel samePlace rows rows'.
Proof. apply rowsRel_impl. by intros x y [? _]. Qed.

(** ** The effect of a merge on every cell *)

(** C4: on a grid where no row index and, within a row, no column index is
    repeated, when a merge goes through, with [(r1, c1)] and [(r2, c2)] the
    corners of the bounding rectangle of the selection and [topLeft] the
    cell at [(r1, c1)]: the selection is empty afterwards, and the cells of
    the grid after the merge are those of the grid before, one for one and
    at the same places.  Every cell inside the rectangle has the sequence
    number, the blocked flag and the blank flag of [topLeft], is merged,
    and carries as id the four corner coordinates written one after the
    other, which is not the empty string.  Every cell outside the
    rectangle keeps its three values, and is unmerged with an empty merge
    id when it is in a group that a merged cell of the rectangle belonged
    to (otherwise its merge fields are unchanged). *)
Theorem merge_effect (st : State) :
  mergeSucceeds st → wellFormed (tableRows st) →
  let st' := fst (mergeCells st) in
  ∃ r1 c1 r2 c2 : Z,
    (∀ cid, inBoundingRectangle (selectedCells st) cid
            ↔ r1 ≤ id_row cid ≤ r2 ∧ c1 ≤ id_col cid ≤ c2)
    ∧ selectedCells st' = []
    ∧ (findCell (tableRows st) r1 c1 = None → tableRows st' = tableRows st)
    ∧ ∀ topLeft, findCell (tableRows st) r1 c1 = Some topLeft →
        let newId := pretty r1 +:+ pretty c1 +:+ pretty r2 +:+ pretty c2 in
        newId ≠ ""
        ∧ Forall2
            (λ cell cell',
               id cell' = id cell
               ∧ rowIndex cell' = rowIndex cell
               ∧ columnIndex cell' = columnIndex cell
               ∧ (r1 ≤ rowIndex cell ≤ r2 ∧ c1 ≤ columnIndex cell ≤ c2 →
                    sequenceNumber cell' = sequenceNumber topLeft
                    ∧ isBlocked cell' = isBlocked topLeft
                    ∧ isBlank cell' = isBlank topLeft
                    ∧ isMerged cell' = true
                    ∧ mergeId cell' = newId)
               ∧ (¬ (r1 ≤ rowIndex cell ≤ r2 ∧ c1 ≤ columnIndex cell ≤ c2) →
                    sequenceNumber cell' = sequenceNumber cell
                    ∧ isBlocked cell' = isBlocked cell
                    ∧ isBlank cell' = isBlank cell
                    ∧ (inTouchedGroup st cell →
                         isMerged cell' = false ∧ mergeId cell' = "")
                    ∧ (¬ inTouchedGroup st cell →
                         isMerged cell' = isMerged cell
                         ∧ mergeId cell' = mergeId cell)))
            (allCells (tableRows st)) (allCells (tableRows st')).
Proof.
  intros Hok Hwf st'.
  destruct (merge_at_positions st Hok)
    as (r1 & c1 & r2 & c2 & Hrect & Hsel & Hnone & Hcells).
  exists r1, c1, r2, c2. split; [done|]. split; [done|]. split; [done|].
  intros topLeft Htl newId. split; [apply createMergeId_nonempty|].
  pose proof (samePlace_mergeCells st) as Hrel.
  pose proof (wellFormed_rowsRel _ _ Hrel Hwf) as Hwf'.
  apply rowsRel_allCells in Hrel.
  apply Forall2_same_length_lookup. split; [by eapply Forall2_length|].
  intros i cell cell' Hi Hi'.
  destruct (Forall2_lookup_lr _ _ _ _ _ _ Hrel Hi Hi') as (Hid & Hr & Hc).
  assert (Hin : cell ∈ allCells (tableRows st)) by (by eapply list_elem_of_lookup_2).
  assert (Hin' : cell' ∈ allCells (tableRows st')) by (by eapply list_elem_of_lookup_2).
  pose proof (findCell_wellFormed _ _ Hwf Hin) as Hfind.
  pose proof (findCell_wellFormed _ _ Hwf' Hin') as Hfind'.
  destruct (Hcells topLeft Htl _ _ _ Hfind)
    as (cell'' & Hfind'' & _ & _ & _ & Hinside & Houtside).
  rewrite <- Hr, <- Hc in Hfind''. unfold st' in Hfind'. rewrite Hfind' in Hfind''.
  injection Hfind'' as <-.
  split; [done|]. split; [done|]. split; [done|]. split.
  - intros Hyes. apply Hinside, Hrect. exact Hyes.
  - intros Hno. apply Houtside. intros Hyes. apply Hno. by apply Hrect in Hyes.
Qed.

Lemma merge_effect_witness :
  let st := overlappingSelection in
  let st' := fst (mergeCells st) in
  ∃ r1 c1 r2 c2 : Z,
    (∀ cid, inBoundingRectangle (selectedCells st) cid
            ↔ r1 ≤ id_row cid ≤ r2 ∧ c1 ≤ id_col cid ≤ c2)
    ∧ selectedCells st' = []
    ∧ ∀ topLeft, findCell (tableRows st) r1 c1 = Some topLeft →
        let newId := pretty r1 +:+ pretty c1 +:+ pretty r2 +:+ pretty c2 in
        newId ≠ ""
        ∧ Forall2
            (λ cell cell',
               id cell' = id cell
               ∧ rowIndex cell' = rowIndex cell
               ∧ columnIndex cell' = columnIndex cell
               ∧ (r1 ≤ rowIndex cell ≤ r2 ∧ c1 ≤ columnIndex cell ≤ c2 →
                    sequenceNumber cell' = sequenceNumber topLeft
                    ∧ isBlocked cell' = isBlocked topLeft
                    ∧ isBlank cell' = isBlank topLeft
                    ∧ isMerged cell' = true
                    ∧ mergeId cell' = newId)
               ∧ (¬ (r1 ≤ rowIndex cell ≤ r2 ∧ c1 ≤ columnIndex cell ≤ c2) →
                    sequenceNumber cell' = sequenceNumber cell
                    ∧ isBlocked cell' = isBlocked cell
                    ∧ isBlank cell' = isBlank cell
                    ∧ (inTouchedGroup st cell →
                         isMerged cell' = false ∧ mergeId cell' = "")
                    ∧ (¬ inTouchedGroup st cell →
                         isMerged cell' = isMerged cell
                         ∧ mergeId cell' = mergeId cell)))
            (allCells (tableRows st)) (allCells (tableRows st')).
Proof.
  destruct (merge_effect overlappingSelection)
    as (r1 & c1 & r2 & c2 & Hrect & Hsel & _ & Hcells).
  - exists (fst (mergeCells overlappingSelection)).
    split; [vm_compute; reflexivity|]. split; [|vm_compute; reflexivity].
    vm_compute. discriminate.
  - apply wellFormedb_spec. vm_compute. reflexivity.
  - exists r1, c1, r2, c2. split; [exact Hrect|]. split; [exact Hsel|]. exact Hcells.
Defined.

(** The merge of the two cells of the second row, on a grid whose second
    row index is repeated: the cells that the lookup finds are merged, the
    cells of the row behind them, at positions of the rectangle as well,
    are not. *)
Lemma merge_misses_repeated_row :
  let st := repeatedRowSelection in
  let st' := fst (mergeCells st) in
  map row_rowIndex (tableRows st) = [1; 2; 2]
  ∧ selectedCells st = [cellId 2 1; cellId 2 2]
  ∧ mergeSucceeds st
  ∧ map (λ cell, (rowIndex cell, columnIndex cell, isMerged cell, mergeId cell))
        (allCells (tableRows st'))
    = [(1, 1, false, ""); (1, 2, false, "");
       (2, 1, true, "2122"); (2, 2, true, "2122");
       (2, 1, false, ""); (2, 2, false, "")]
  ∧ ¬ everyCellInsideMerged st st'.
Proof.
  simpl. split; [vm_compute; reflexivity|]. split; [vm_compute; reflexivity|].
  split; [|split; [vm_compute; reflexivity|]].
  - exists (fst (mergeCells repeatedRowSelection)).
    split; [vm_compute; reflexivity|]. split; [|vm_compute; reflexivity].
    vm_compute. discriminate.
  - intros Hall.
    specialize (Hall (mkCell (cellId 2 1) "-" false false "" false 2 1)).
    assert (Hm : isMerged (mkCell (cellId 2 1) "-" false false "" false 2 1) = true);
      [|discriminate Hm].
    apply Hall.
    + vm_compute. do 4 right. left.
    + split; exists (cellId 2 1), (cellId 2 2);
        (split; [vm_compute; left|]); (split; [vm_compute; right; left|]);
        simpl; lia.
Qed.

(** X30: a grid whose row and cell indices are their array positions
    keeps them there under set-value, toggle-block, blank, unblank, the
    autofill commit, merge and unmerge; a grid that is created has them
    there, whatever the dimensions. *)
Theorem positional_invariant (st : State) (r c : Z) (v : string) (b : bool)
    (rows cols : jsnum) (captured : State) :
  positional (tableRows st) →
  positional (tableRows (handleCellValueChange r c v st))
  ∧ positional (tableRows (handleCheckboxChange r c st))
  ∧ positional (tableRows (setBlankSelectedCells b st))
  ∧ positional (tableRows (handleAutofillMouseUp st))
  ∧ positional (tableRows (fst (mergeCells st)))
  ∧ positional (tableRows (unmergeCells st))
  ∧ positional (tableRows (createNewTable rows cols st))
  ∧ positional (tableRows (fallbackEffect captured st)).
Proof.
  intros Hpos.
  assert (Hlayout : ∀ rows', sameLayout (tableRows st) rows' → positional rows').
  { intros rows' Hrel. eapply positional_rowsRel; [|exact Hpos].
    by apply samePlace_sameLayout. }
  assert (Hcreate : ∀ n m, positional (tableRows (createNewTable n m st))).
  { intros n m. unfold createNewTable. destruct (_ || _); [done|].
    replace (tableRows _) with (newTable n m) by (by destruct st).
    apply positional_newTable. }
  split_and!.
  - apply Hlayout. unfold handleCellValueChange.
    destruct (findCell (tableRows st) r c) as [t|]; [|by apply rowsRel_refl].
    rewrite setTableRows_tableRows.
    apply sameLayout_propagate, sameFrame_withSequenceNumber.
  - apply Hlayout. unfold handleCheckboxChange.
    destruct (findCell (tableRows st) r c) as [t|]; [|by apply rowsRel_refl].
    rewrite setTableRows_tableRows.
    apply sameLayout_propagate, sameFrame_withBlocked.
  - apply Hlayout, sameLayout_setBlank.
  - apply Hlayout. unfold handleAutofillMouseUp.
    destruct (active (autofillDrag st)); [|by apply rowsRel_refl]. simpl.
    assert (Hrows : ∀ s, tableRows (setAutofillPreviewCells []
              (setAutofillDrag noAutofillDrag s)) = tableRows s) by (by intros []).
    rewrite Hrows.
    match goal with |- context [match ?l with [] => _ | _ => _ end] =>
      generalize l end.
    intros fillCells. destruct fillCells as [|fc fillCells]; [by apply rowsRel_refl|].
    rewrite setTableRows_tableRows. apply sameLayout_fill.
  - eapply positional_rowsRel; [apply samePlace_mergeCells | exact Hpos].
  - unfold unmergeCells. destruct (selectedCells st) as [|cid sel]; [done|].
    rewrite tableRows_resetDragState.
    destruct (findCell (tableRows st) (id_row cid) (id_col cid)) as [t|]; [|done].
    destruct (isMerged t); [|done]. rewrite setTableRows_tableRows.
    eapply positional_rowsRel; [|exact Hpos].
    apply rowsRel_forEachCell. intros x. by destruct (bool_decide _).
  - apply Hcreate.
  - unfold fallbackEffect. destruct (_ && _); [apply Hcreate | done].
Qed.

Lemma positional_invariant_witness :
  positional (tableRows (handleCellValueChange 2 2 "5" squareSelection))
  ∧ positional (tableRows (fst (mergeCells squareSelection)))
  ∧ positional (tableRows (setBlankSelectedCells true squareSelection)).
Proof.
  destruct (positional_invariant squareSelection 2 2 "5" true (Num 3) (Num 3)
              squareSelection) as (Hvalue & _ & Hblank & _ & Hmerge & _).
  - intros i row Hi. vm_compute in Hi.
    destruct i as [|[|[|i]]]; try discriminate Hi; injection Hi as <-;
      (split; [reflexivity|]); intros j cell Hj;
      destruct j as [|[|[|j]]]; try discriminate Hj; injection Hj as <-; done.
  - split; [exact Hvalue|]. split; [exact Hmerge | exact Hblank].
Defined.
